(** * dulwich (py3k port): report-status parsing, smart-protocol
      negotiation, the index codec and the tree builder.

    A shallow embedding of [dulwich/client.py] and [dulwich/index.py].

    Conventions.  A Python [bytes] value is a list of 8-bit integers, a
    Python [str] a list of code points.  A Python [dict] whose iteration
    order is observable is an insertion-ordered association list
    ([dict_set] keeps the position of a key that is already present); a
    dict that is only ever looked up is a [gmap].  Code that can raise
    returns a [result]. *)

From Stdlib Require Import ZArith String Ascii Lia Permutation.
From stdpp Require Import gmap list sorting.
Import ListNotations.

Local Open Scope Z_scope.
Local Open Scope list_scope.

(** ** Python values *)

Definition bytes := list Z.
Definition str := list Z.

(** A literal: [lit "ok"] is [b'ok'] (or the text ['ok']). *)
Definition lit (s : string) : list Z :=
  List.map (fun c => Z.of_nat (nat_of_ascii c)) (list_ascii_of_string s).

Definition bytes_eqb (x y : bytes) : bool := bool_decide (x = y).

(** [c in s] for a one-byte [c]. *)
Definition contains (c : Z) (s : bytes) : bool := existsb (Z.eqb c) s.

Fixpoint startswith (p s : bytes) : bool :=
  match p, s with
  | [], _ => true
  | x :: p', y :: s' => (x =? y) && startswith p' s'
  | _ :: _, [] => false
  end.

(** ASCII whitespace, as removed by [bytes.strip()]. *)
Definition is_space (c : Z) : bool := (c =? 32) || ((9 <=? c) && (c <=? 13)).

Fixpoint lstrip_by (f : Z -> bool) (s : bytes) : bytes :=
  match s with
  | c :: s' => if f c then lstrip_by f s' else s
  | [] => []
  end.

Definition rstrip_by (f : Z -> bool) (s : bytes) : bytes :=
  rev (lstrip_by f (rev s)).

(** [s.strip()] *)
Definition strip (s : bytes) : bytes := rstrip_by is_space (lstrip_by is_space s).

(** [s.rstrip(b'\n')] *)
Definition rstrip_nl (s : bytes) : bytes := rstrip_by (Z.eqb 10) s.

(** [s.split(sep, 1)]: one or two pieces. *)
Fixpoint split1 (sep : Z) (s : bytes) : bytes * option bytes :=
  match s with
  | [] => ([], None)
  | c :: s' =>
      if c =? sep then ([], Some s')
      else let '(h, t) := split1 sep s' in (c :: h, t)
  end.

(** [s.split(sep)]: every separator splits, empty pieces are kept. *)
Fixpoint split (sep : Z) (s : bytes) : list bytes :=
  match s with
  | [] => [[]]
  | c :: s' =>
      if c =? sep then [] :: split sep s'
      else match split sep s' with
           | h :: t => (c :: h) :: t
           | [] => [[c]]
           end
  end.

(** [sep.join(l)] *)
Fixpoint join (sep : list Z) (l : list (list Z)) : list Z :=
  match l with
  | [] => []
  | [x] => x
  | x :: l' => x ++ sep ++ join sep l'
  end.

(** *** UTF-8, strict, as [bytes.decode('utf-8')] and [str.encode('utf-8')] *)

Definition is_cont (c : Z) : bool := (128 <=? c) && (c <=? 191).
Definition is_surrogate (c : Z) : bool := (55296 <=? c) && (c <=? 57343).

Fixpoint utf8_decode (s : bytes) : option str :=
  match s with
  | [] => Some []
  | b0 :: r0 =>
      if (0 <=? b0) && (b0 <? 128) then option_map (cons b0) (utf8_decode r0)
      else if (194 <=? b0) && (b0 <=? 223) then
        match r0 with
        | b1 :: r1 =>
            if is_cont b1
            then option_map (cons ((b0 - 192) * 64 + (b1 - 128))) (utf8_decode r1)
            else None
        | _ => None
        end
      else if (224 <=? b0) && (b0 <=? 239) then
        match r0 with
        | b1 :: b2 :: r2 =>
            let cp := (b0 - 224) * 4096 + (b1 - 128) * 64 + (b2 - 128) in
            if is_cont b1 && is_cont b2 && (2048 <=? cp) && negb (is_surrogate cp)
            then option_map (cons cp) (utf8_decode r2)
            else None
        | _ => None
        end
      else if (240 <=? b0) && (b0 <=? 244) then
        match r0 with
        | b1 :: b2 :: b3 :: r3 =>
            let cp := (b0 - 240) * 262144 + (b1 - 128) * 4096
                      + (b2 - 128) * 64 + (b3 - 128) in
            if is_cont b1 && is_cont b2 && is_cont b3
               && (65536 <=? cp) && (cp <=? 1114111)
            then option_map (cons cp) (utf8_decode r3)
            else None
        | _ => None
        end
      else None
  end.

Definition utf8_encode_cp (c : Z) : option bytes :=
  if c <? 0 then None
  else if c <? 128 then Some [c]
  else if c <? 2048 then Some [192 + c / 64; 128 + c mod 64]
  else if c <? 65536 then
    if is_surrogate c then None
    else Some [224 + c / 4096; 128 + (c / 64) mod 64; 128 + c mod 64]
  else if c <? 1114112 then
    Some [240 + c / 262144; 128 + (c / 4096) mod 64;
          128 + (c / 64) mod 64; 128 + c mod 64]
  else None.

Fixpoint utf8_encode (s : str) : option bytes :=
  match s with
  | [] => Some []
  | c :: s' =>
      match utf8_encode_cp c, utf8_encode s' with
      | Some x, Some y => Some (x ++ y)
      | _, _ => None
      end
  end.

(** Decoding every element of a list comprehension, left to right. *)
Fixpoint decode_all (l : list bytes) : option (list str) :=
  match l with
  | [] => Some []
  | x :: l' =>
      match utf8_decode x, decode_all l' with
      | Some t, Some ts => Some (t :: ts)
      | _, _ => None
      end
  end.

(** *** Insertion-ordered dictionaries *)

Section Dict.
Context {V : Type}.

Definition dict := list (bytes * V).

Fixpoint dict_get (d : dict) (k : bytes) : option V :=
  match d with
  | [] => None
  | (k', v) :: d' => if bytes_eqb k' k then Some v else dict_get d' k
  end.

(** [d[k] = v] *)
Fixpoint dict_set (d : dict) (k : bytes) (v : V) : dict :=
  match d with
  | [] => [(k, v)]
  | (k', v') :: d' =>
      if bytes_eqb k' k then (k', v) :: d' else (k', v') :: dict_set d' k v
  end.

Definition dict_keys (d : dict) : list bytes := List.map fst d.
Definition dict_values (d : dict) : list V := List.map snd d.

End Dict.

Arguments dict : clear implicits.

(** [del d[k]]: [None] is the [KeyError] of a missing key. *)
Fixpoint dict_del {V} (d : dict V) (k : bytes) : option (dict V) :=
  match d with
  | [] => None
  | (k', v) :: d' =>
      if bytes_eqb k' k then Some d'
      else option_map (cons (k', v)) (dict_del d' k)
  end.

(** The order of [sorted] on byte strings and on texts: lexicographic. *)
Fixpoint str_leb (a c : list Z) : bool :=
  match a, c with
  | [], _ => true
  | _ :: _, [] => false
  | x :: a', y :: c' => (x <? y) || ((x =? y) && str_leb a' c')
  end.

Fixpoint insert_sorted (x : list Z) (l : list (list Z)) : list (list Z) :=
  match l with
  | [] => [x]
  | y :: l' => if str_leb x y then x :: l else y :: insert_sorted x l'
  end.

(** [sorted(l)] for a list without repeated elements (where every
    sorting algorithm agrees). *)
Fixpoint sorted (l : list (list Z)) : list (list Z) :=
  match l with
  | [] => []
  | x :: l' => insert_sorted x (sorted l')
  end.

(** ** Exceptions and results *)

(** The argument an exception was built with: a byte string, a text, or a
    text template together with the value formatted into it. *)
Inductive payload :=
| Bytes (x : bytes)
| Text (t : str)
| Fmt (template : string) (arg : bytes)
| NoArg.

Inductive exn :=
| SendPackError (p : payload)
| UpdateRefsError (msg : str) (ref_status : dict bytes)
| GitProtocolError (p : payload)
| NotGitRepository
| AssertionError (p : payload)
| ExceptionError (p : payload)
| NotImplementedError
| ValueError
| IndexError
| KeyError
| TypeError
| AttributeError
| StructError
| UnicodeDecodeError
| UnicodeEncodeError
| HTTPError (code : Z).

(** [Timeout] is not a Python outcome: it marks a model run that used up
    its fuel. *)
Inductive result (A : Type) :=
| Ok (a : A)
| Raise (e : exn)
| Timeout.

Arguments Ok {A} a.
Arguments Raise {A} e.
Arguments Timeout {A}.

Definition bind {A B} (m : result A) (f : A -> result B) : result B :=
  match m with
  | Ok a => f a
  | Raise e => Raise e
  | Timeout => Timeout
  end.

Declare Scope result_scope.
Delimit Scope result_scope with result.
Notation "'let*' x ':=' m 'in' k" := (bind m (fun x => k))
  (at level 10, x pattern, m at level 100, k at level 200) : result_scope.
Local Open Scope result_scope.

(** ** [ReportStatusParser] *)

Module ReportStatusParser.

Record t := mk {
  _done : bool;
  _pack_status : option bytes;
  _ref_status_ok : bool;
  _ref_statuses : list bytes
}.

(** [__init__] *)
Definition init : t :=
  {| _done := false; _pack_status := None;
     _ref_status_ok := true; _ref_statuses := [] |}.

(** One turn of the [for status in self._ref_statuses] loop of [check];
    the state is the pair of [ref_status] and [ok]. *)
Definition check_status (acc : dict bytes * list bytes) (status : bytes)
  : dict bytes * list bytes :=
  let '(ref_status, ok) := acc in
  if negb (contains 32 status) then acc
  else
    match split1 32 status with
    | (status, Some ref) =>
        if bytes_eqb status (lit "ng") then
          if contains 32 ref then
            match split1 32 ref with
            | (ref, Some status) => (dict_set ref_status ref status, ok)
            | (_, None) => acc
            end
          else (dict_set ref_status ref status, ok)
        else (dict_set ref_status ref status, ref :: ok)
    | (_, None) => acc
    end.

Definition failed_refs (ref_status : dict bytes) (ok : list bytes) : list bytes :=
  List.filter (fun ref => negb (existsb (bytes_eqb ref) ok)) (dict_keys ref_status).

Definition check (self : t) : result unit :=
  if negb (match _pack_status self with
           | None => true
           | Some s => bytes_eqb s (lit "unpack ok")
           end)
  then Raise (SendPackError (match _pack_status self with
                             | Some s => Bytes s
                             | None => NoArg
                             end))
  else if negb (_ref_status_ok self) then
    let '(ref_status, ok) :=
      fold_left check_status (_ref_statuses self) ([], []) in
    match decode_all (failed_refs ref_status ok) with
    | Some names =>
        Raise (UpdateRefsError (join (lit ", ") names ++ lit " failed to update")
                               ref_status)
    | None => Raise UnicodeDecodeError
    end
  else Ok tt.

Definition handle_packet (self : t) (pkt : option bytes) : result t :=
  if _done self then
    Raise (GitProtocolError (Text (lit "received more data after status report")))
  else
    match pkt with
    | None =>
        Ok {| _done := true; _pack_status := _pack_status self;
              _ref_status_ok := _ref_status_ok self;
              _ref_statuses := _ref_statuses self |}
    | Some pkt =>
        match _pack_status self with
        | None =>
            Ok {| _done := _done self; _pack_status := Some (strip pkt);
                  _ref_status_ok := _ref_status_ok self;
                  _ref_statuses := _ref_statuses self |}
        | Some _ =>
            let ref_status := strip pkt in
            Ok {| _done := _done self; _pack_status := _pack_status self;
                  _ref_status_ok :=
                    if negb (startswith (lit "ok ") ref_status) then false
                    else _ref_status_ok self;
                  _ref_statuses := _ref_statuses self ++ [ref_status] |}
        end
    end.

(** Handing a sequence of packets to the parser, in order. *)
Fixpoint feed (self : t) (pkts : list (option bytes)) : result t :=
  match pkts with
  | [] => Ok self
  | pkt :: rest => let* self' := handle_packet self pkt in feed self' rest
  end.

End ReportStatusParser.


(** ** Object identifiers *)

(** Modelled from the spec: [Sha1Sum] is defined in [dulwich/objects.py],
    which is not part of the sources at hand.  An identifier is a value
    object around the bytes it was built from (20 raw bytes in the index,
    hexadecimal text on the wire): [Sha1Sum(x)] wraps, [bytes(sha)] and
    [sha.hex_bytes] unwrap, [==] compares the wrapped values. *)
Record Sha1Sum := mkSha1Sum { hex_bytes : bytes }.

Definition sha_eqb (x y : Sha1Sum) : bool := bytes_eqb (hex_bytes x) (hex_bytes y).

(** ** [dulwich/index.py] *)

Module Index.

(** *** File objects

    A file opened for writing is the list of bytes written so far
    ([f.tell()] is its length); a file opened for reading is its content
    and a position. *)

Definition wfile := bytes.

Definition wtell (f : wfile) : Z := Z.of_nat (length f).
Definition fwrite (f : wfile) (x : bytes) : wfile := f ++ x.

Record rfile := mkRfile { data : bytes; pos : nat }.

Definition rtell (f : rfile) : Z := Z.of_nat (pos f).

(** [f.read(n)]: up to [n] bytes, fewer at the end of the file; a negative
    [n] reads everything that is left. *)
Definition fread (f : rfile) (n : Z) : bytes * rfile :=
  let rest := skipn (pos f) (data f) in
  let got := if n <? 0 then rest else firstn (Z.to_nat n) rest in
  (got, {| data := data f; pos := (pos f + length got)%nat |}).

(** *** [struct] *)

Fixpoint be_bytes (n : nat) (x : Z) : bytes :=
  match n with
  | O => []
  | S k => (x / 256 ^ Z.of_nat k) mod 256 :: be_bytes k x
  end.

Definition be_value (l : bytes) : Z := fold_left (fun acc c => acc * 256 + c) l 0.

(** [struct.pack(">L", x)] and [struct.pack(">H", x)]: out-of-range values
    raise [struct.error]. *)
Definition pack_L (x : Z) : result bytes :=
  if (0 <=? x) && (x <? 2 ^ 32) then Ok (be_bytes 4 x) else Raise StructError.

Definition pack_H (x : Z) : result bytes :=
  if (0 <=? x) && (x <? 2 ^ 16) then Ok (be_bytes 2 x) else Raise StructError.

(** The [20s] field: truncated or NUL-padded to 20 bytes. *)
Definition pack_20s (s : bytes) : bytes := firstn 20 (s ++ repeat 0 20).

(** [struct.unpack(">LL", x)] *)
Definition unpack_LL (x : bytes) : result (Z * Z) :=
  if (length x =? 8)%nat
  then Ok (be_value (firstn 4 x), be_value (skipn 4 x))
  else Raise StructError.

(** *** Cache entries *)

(** A time handed to [write_cache_time] is an [int] or a tuple of seconds
    and nanoseconds.  ([float] times are left out of the model.) *)
Inductive cache_time :=
| TimeInt (t : Z)
| TimeTuple (secs nsecs : Z).

(** The ten fields that follow the name in an entry tuple. *)
Record cache_value := mkValue {
  ctime : cache_time;
  mtime : cache_time;
  dev : Z;
  ino : Z;
  mode : Z;
  uid : Z;
  gid : Z;
  size : Z;
  sha : Sha1Sum;
  flags : Z
}.

(** [(name, ctime, mtime, dev, ino, mode, uid, gid, size, sha, flags)] *)
Definition entry := (str * cache_value)%type.

Definition read_cache_time (f : rfile) : result (cache_time * rfile) :=
  let '(x, f) := fread f 8 in
  let* (secs, nsecs) := unpack_LL x in
  Ok (TimeTuple secs nsecs, f).

Definition write_cache_time (f : wfile) (t : cache_time) : result wfile :=
  let '(secs, nsecs) := match t with
                        | TimeInt t => (t, 0)
                        | TimeTuple secs nsecs => (secs, nsecs)
                        end in
  let* a := pack_L secs in
  let* c := pack_L nsecs in
  Ok (fwrite f (a ++ c)).

(** [struct.pack(">LLLLLL20sH", ...)] *)
Definition pack_fields (dev ino mode uid gid size : Z) (sha : bytes) (flags : Z)
  : result bytes :=
  let* a := pack_L dev in
  let* b := pack_L ino in
  let* c := pack_L mode in
  let* d := pack_L uid in
  let* e := pack_L gid in
  let* g := pack_L size in
  let* h := pack_H flags in
  Ok (a ++ b ++ c ++ d ++ e ++ g ++ pack_20s sha ++ h).

(** [struct.unpack(">LLLLLL20sH", x)] *)
Definition unpack_fields (x : bytes)
  : result (Z * Z * Z * Z * Z * Z * bytes * Z) :=
  if (length x =? 46)%nat then
    let w i := be_value (firstn 4 (skipn (4 * i) x)) in
    Ok (w 0%nat, w 1%nat, w 2%nat, w 3%nat, w 4%nat, w 5%nat,
        firstn 20 (skipn 24 x), be_value (skipn 44 x))
  else Raise StructError.

Definition read_cache_entry (f : rfile) : result (entry * rfile) :=
  let beginoffset := rtell f in
  let* (ctime, f) := read_cache_time f in
  let* (mtime, f) := read_cache_time f in
  let '(x, f) := fread f (20 + 4 * 6 + 2) in
  let* (dev, ino, mode, uid, gid, size, sha, flags) := unpack_fields x in
  let '(x, f) := fread f (Z.land flags 4095) in
  match utf8_decode x with
  | None => Raise UnicodeDecodeError
  | Some name =>
      (* Padding: *)
      let real_size := Z.land (rtell f - beginoffset + 8) (Z.lnot 7) in
      let '(_, f) := fread f ((beginoffset + real_size) - rtell f) in
      Ok ((name, mkValue ctime mtime dev ino mode uid gid size
                   (mkSha1Sum sha) (Z.land flags (Z.lnot 4095))), f)
  end.

Definition write_cache_entry (f : wfile) (entry : entry) : result wfile :=
  let beginoffset := wtell f in
  let '(name, mkValue ctime mtime dev ino mode uid gid size sha flags) := entry in
  let* f := write_cache_time f ctime in
  let* f := write_cache_time f mtime in
  let flags := Z.lor (Z.of_nat (length name)) (Z.land flags (Z.lnot 4095)) in
  let* x := pack_fields dev ino mode uid gid size (hex_bytes sha) flags in
  let f := fwrite f x in
  match utf8_encode name with
  | None => Raise UnicodeEncodeError
  | Some x =>
      let f := fwrite f x in
      let real_size := Z.land (wtell f - beginoffset + 8) (Z.lnot 7) in
      Ok (fwrite f (repeat 0 (Z.to_nat ((beginoffset + real_size) - wtell f))))
  end.

Fixpoint read_entries (n : nat) (f : rfile) : result (list entry * rfile) :=
  match n with
  | O => Ok ([], f)
  | S n' =>
      let* (x, f) := read_cache_entry f in
      let* (xs, f) := read_entries n' f in
      Ok (x :: xs, f)
  end.

(** [read_index], run to the end: the entries it yields. *)
Definition read_index (f : rfile) : result (list entry * rfile) :=
  let '(header, f) := fread f 4 in
  if negb (bytes_eqb header (lit "DIRC")) then
    Raise (AssertionError (Fmt "Invalid index file header: %r" header))
  else
    let '(x, f) := fread f (4 * 2) in
    let* (version, num_entries) := unpack_LL x in
    if negb ((version =? 1) || (version =? 2)) then Raise (AssertionError NoArg)
    else read_entries (Z.to_nat num_entries) f.

Definition read_index_dict (f : rfile) : result (dict cache_value * rfile) :=
  let* (xs, f) := read_index f in
  Ok (fold_left (fun ret x => dict_set ret (fst x) (snd x)) xs [], f).

Fixpoint write_entries (f : wfile) (entries : list entry) : result wfile :=
  match entries with
  | [] => Ok f
  | x :: rest => let* f := write_cache_entry f x in write_entries f rest
  end.

Definition write_index (f : wfile) (entries : list entry) : result wfile :=
  let f := fwrite f (lit "DIRC") in
  let* a := pack_L 2 in
  let* c := pack_L (Z.of_nat (length entries)) in
  let f := fwrite f (a ++ c) in
  write_entries f entries.

(** *** Paths *)

(** [s.rsplit(sep, 1)] *)
Definition rsplit1 (sep : Z) (s : bytes) : bytes * option bytes :=
  match split1 sep (rev s) with
  | (t, Some h) => (rev h, Some (rev t))
  | (_, None) => (s, None)
  end.

Definition pathsplit (path : bytes) : bytes * bytes :=
  match rsplit1 47 path with
  | (dirname, Some basename) => (dirname, basename)
  | (_, None) => ([], path)
  end.

(** [pathjoin(a, b)] *)
Definition pathjoin (a c : bytes) : bytes :=
  join [47] (List.filter (fun p => negb (bytes_eqb p [])) [a; c]).

Definition S_IFDIR : Z := 16384.
Definition S_IFREG : Z := 32768.
Definition S_IFLNK : Z := 40960.

(** *** [commit_tree] *)

(** Modelled from the spec: [Tree] and the object store belong to
    [dulwich/objects.py] and [dulwich/object_store.py], which are not part
    of the sources at hand.  A tree object is a mapping from basename to
    (mode, hash); [tree.add(name, mode, sha)] sets one entry;
    [tree.id] hashes the serialisation, which puts the entries in sorted
    order, so it is a function [tree_id] of the mapping alone.  The object
    store is the list of the objects added to it, oldest first. *)
Abbreviation Tree := (gmap bytes (Z * Sha1Sum)).

(** What a directory dictionary holds under a basename: a [(mode, sha)]
    tuple, or another dictionary.  Dictionaries are shared objects (the one
    stored in the parent directory is the one registered in [trees]), so
    they live in a heap and are referred to by address. *)
Inductive node :=
| Leaf (mode : Z) (sha : Sha1Sum)
| Subdir (addr : nat).

Record tree_state := mkTreeState {
  heap : list (dict node);
  trees : gmap bytes nat
}.

(** [node[basename] = x] for the dictionary at address [a]. *)
Definition heap_set (h : list (dict node)) (a : nat) (basename : bytes) (x : node)
  : list (dict node) :=
  <[a := dict_set (h !!! a) basename x]> h.

Fixpoint add_tree (fuel : nat) (path : bytes) (st : tree_state)
  : result (nat * tree_state) :=
  match trees st !! path with
  | Some a => Ok (a, st)
  | None =>
      match fuel with
      | O => Timeout
      | S fuel =>
          let '(dirname, basename) := pathsplit path in
          let* (t, st) := add_tree fuel dirname st in
          let newtree := length (heap st) in
          Ok (newtree,
              {| heap := heap_set (heap st ++ [[]]) t basename (Subdir newtree);
                 trees := <[path := newtree]> (trees st) |})
      end
  end.

(** The loop over [blobs].  A call of [add_tree] on a path of [n] bytes
    nests at most [n] deep, the root being registered from the start. *)
Fixpoint add_blobs (blobs : list (str * Sha1Sum * Z)) (st : tree_state)
  : result tree_state :=
  match blobs with
  | [] => Ok st
  | (path, sha, mode) :: rest =>
      match utf8_encode path with
      | None => Raise UnicodeEncodeError
      | Some path =>
          let '(tree_path, basename) := pathsplit path in
          let* (tree, st) := add_tree (S (length tree_path)) tree_path st in
          add_blobs rest
            {| heap := heap_set (heap st) tree basename (Leaf mode sha);
               trees := trees st |}
      end
  end.

Section BuildTree.
Variable tree_id : Tree -> Sha1Sum.
Variable st : tree_state.

Fixpoint build_tree (fuel : nat) (path : bytes) (object_store : list Tree)
  : result (Sha1Sum * list Tree) :=
  match fuel with
  | O => Timeout
  | S fuel =>
      match trees st !! path with
      | None => Raise KeyError
      | Some a =>
          let* (tree, object_store) :=
            (fix items (l : dict node) (tree : Tree) (object_store : list Tree)
               : result (Tree * list Tree) :=
               match l with
               | [] => Ok (tree, object_store)
               | (basename, Subdir _) :: l =>
                   let* (sha, object_store) :=
                     build_tree fuel (pathjoin path basename) object_store in
                   items l (<[basename := (S_IFDIR, sha)]> tree) object_store
               | (basename, Leaf mode sha) :: l =>
                   items l (<[basename := (mode, sha)]> tree) object_store
               end) (heap st !!! a) ∅ object_store in
          Ok (tree_id tree, object_store ++ [tree])
      end
  end.

End BuildTree.

(** [commit_tree(object_store, blobs)]; [fuel] bounds the depth of the
    recursion of [build_tree]. *)
Definition commit_tree (tree_id : Tree -> Sha1Sum) (fuel : nat)
    (object_store : list Tree) (blobs : list (str * Sha1Sum * Z))
  : result (Sha1Sum * list Tree) :=
  let* st := add_blobs blobs {| heap := [[]]; trees := {[ [] := 0%nat ]} |} in
  build_tree tree_id st fuel [] object_store.

(** *** [write_index_dict], [cleanup_mode] and the [Index] class *)

Definition write_index_dict (f : wfile) (entries : dict cache_value) : result wfile :=
  let entries_list :=
    List.fold_right
      (fun name acc =>
         match dict_get entries name with
         | Some v => (name, v) :: acc
         | None => acc
         end) [] (sorted (dict_keys entries)) in
  write_index f entries_list.

(** [stat.S_IFMT], [stat.S_ISLNK], [stat.S_ISDIR] *)
Definition S_IFMT (mode : Z) : Z := Z.land mode 61440.
Definition S_ISLNK (mode : Z) : bool := S_IFMT mode =? S_IFLNK.
Definition S_ISDIR (mode : Z) : bool := S_IFMT mode =? S_IFDIR.

Section CleanupMode.
(** [S_IFGITLINK] and [S_ISGITLINK] are imported from [dulwich/objects.py],
    which is not part of the sources at hand; they are parameters. *)
Variable S_IFGITLINK : Z.
Variable S_ISGITLINK : Z -> bool.

Definition cleanup_mode (mode : Z) : Z :=
  if S_ISLNK mode then S_IFLNK
  else if S_ISDIR mode then S_IFDIR
  else if S_ISGITLINK mode then S_IFGITLINK
  else
    let ret := Z.lor S_IFREG 420 in
    Z.lor ret (Z.land mode 73).

(** [Index.iterblobs]: path, sha and cleaned mode of every entry, in the
    order of the dictionary. *)
Definition iterblobs (_byname : dict cache_value) : list (str * Sha1Sum * Z) :=
  List.map (fun kv => (fst kv, sha (snd kv), cleanup_mode (mode (snd kv)))) _byname.

(** [Index.commit] *)
Definition commit (tree_id : Tree -> Sha1Sum) (fuel : nat) (_byname : dict cache_value)
    (object_store : list Tree) : result (Sha1Sum * list Tree) :=
  commit_tree tree_id fuel object_store (iterblobs _byname).

End CleanupMode.

(** The state of an [Index] object is its dictionary [_byname]. *)

(** [Index.clear] *)
Definition clear : dict cache_value := [].

(** [Index.__len__] *)
Definition __len__ (_byname : dict cache_value) : nat := length _byname.

(** [Index.__getitem__] *)
Definition __getitem__ (_byname : dict cache_value) (name : str) : result cache_value :=
  match dict_get _byname name with
  | Some x => Ok x
  | None => Raise KeyError
  end.

(** [Index.__setitem__]; an entry has its ten fields by its type. *)
Definition __setitem__ (_byname : dict cache_value) (name : str) (x : cache_value)
  : dict cache_value :=
  dict_set _byname name x.

(** [Index.__delitem__] *)
Definition __delitem__ (_byname : dict cache_value) (name : str)
  : result (dict cache_value) :=
  match dict_del _byname name with
  | Some d => Ok d
  | None => Raise KeyError
  end.

(** [Index.get_sha1] and [Index.get_mode] *)
Definition get_sha1 (_byname : dict cache_value) (path : str) : result Sha1Sum :=
  let* x := __getitem__ _byname path in Ok (sha x).

Definition get_mode (_byname : dict cache_value) (path : str) : result Z :=
  let* x := __getitem__ _byname path in Ok (mode x).

(** [Index.update] *)
Definition update (_byname : dict cache_value) (entries : dict cache_value)
  : dict cache_value :=
  fold_left (fun d kv => __setitem__ d (fst kv) (snd kv)) entries _byname.

End Index.

(** ** [dulwich/client.py] *)

Module Client.

Definition COMMON_CAPABILITIES : list bytes := [lit "ofs-delta"; lit "side-band-64k"].
Definition FETCH_CAPABILITIES : list bytes :=
  [lit "multi_ack"; lit "multi_ack_detailed"] ++ COMMON_CAPABILITIES.
Definition SEND_CAPABILITIES : list bytes := [lit "report-status"] ++ COMMON_CAPABILITIES.

(** Modelled from the spec: [ZERO_SHA] comes from [dulwich/protocol.py]; it
    is the all-zero identifier that stands for a ref that does not exist. *)
Definition ZERO_SHA : Sha1Sum := mkSha1Sum (repeat 48 40).

(** [x in l] for a list of byte strings, and for a list of identifiers. *)
Definition mem (x : bytes) (l : list bytes) : bool := existsb (bytes_eqb x) l.
Definition sha_mem (x : Sha1Sum) (l : list Sha1Sum) : bool := existsb (sha_eqb x) l.

(** [l.remove(x)]: the first occurrence goes; [None] is the [ValueError]. *)
Fixpoint list_remove (x : bytes) (l : list bytes) : option (list bytes) :=
  match l with
  | [] => None
  | y :: l' => if bytes_eqb y x then Some l' else option_map (cons y) (list_remove x l')
  end.

(** [not l] *)
Definition is_nil {A} (l : list A) : bool :=
  match l with
  | [] => true
  | _ :: _ => false
  end.

(** [a == b] on two ref dictionaries. *)
Definition dict_eqb (a c : dict Sha1Sum) : bool :=
  (length a =? length c)%nat
  && forallb (fun kv => match dict_get c (fst kv) with
                        | Some v => sha_eqb (snd kv) v
                        | None => false
                        end) a.

(** *** The packet-line channel *)

(** What a client writes on a connection: packet lines ([None] is the
    flush packet) and pack streams. *)
Inductive wire (Obj : Type) :=
| Pkt (p : option bytes)
| PackStream (objects : list Obj).

Arguments Pkt {Obj} p.
Arguments PackStream {Obj} objects.

(** Modelled from the spec: [Protocol] is defined in [dulwich/protocol.py],
    which is not part of the sources at hand.  The channel is kept at the
    level of packet lines (section 4.1 of the specification): [incoming] are
    the packets the peer has still to deliver, [residue] the raw bytes that
    follow them, [outgoing] what has been written, oldest first.
    [read_pkt_line] fails with a protocol error when the stream has ended. *)
Record Protocol (Obj : Type) := mkProtocol {
  incoming : list (option bytes);
  residue : bytes;
  outgoing : list (wire Obj)
}.

Arguments mkProtocol {Obj}.
Arguments incoming {Obj}.
Arguments residue {Obj}.
Arguments outgoing {Obj}.

Definition hex_digit (n : Z) : Z := if n <? 10 then 48 + n else 87 + n.

(** The wire form of a packet: four hexadecimal digits for the length,
    prefix included, then the payload; ["0000"] for a flush. *)
Definition pkt_line (p : option bytes) : bytes :=
  match p with
  | None => lit "0000"
  | Some x =>
      let n := 4 + Z.of_nat (length x) in
      [hex_digit ((n / 4096) mod 16); hex_digit ((n / 256) mod 16);
       hex_digit ((n / 16) mod 16); hex_digit (n mod 16)] ++ x
  end.

Section Channel.
Context {Obj : Type}.

Definition write_pkt_line (proto : Protocol Obj) (p : option bytes) : Protocol Obj :=
  {| incoming := incoming proto; residue := residue proto;
     outgoing := outgoing proto ++ [Pkt p] |}.

Definition read_pkt_line (proto : Protocol Obj) : result (option bytes * Protocol Obj) :=
  match incoming proto with
  | [] => Raise (GitProtocolError NoArg)
  | p :: rest =>
      Ok (p, {| incoming := rest; residue := residue proto;
                outgoing := outgoing proto |})
  end.

(** [proto.read()]: everything up to the end of the stream. *)
Definition read_rest (proto : Protocol Obj) : bytes * Protocol Obj :=
  (List.concat (List.map pkt_line (incoming proto)) ++ residue proto,
   {| incoming := []; residue := []; outgoing := outgoing proto |}).

(** [write_pack_objects(proto.write_file(), objects)] *)
Definition write_pack_objects (proto : Protocol Obj) (objects : list Obj) : Protocol Obj :=
  {| incoming := incoming proto; residue := residue proto;
     outgoing := outgoing proto ++ [PackStream objects] |}.

End Channel.

(** Modelled from the spec: [extract_capabilities] comes from
    [dulwich/protocol.py].  It splits at the first NUL byte; without one the
    capability list is empty, otherwise it is what follows, cut at spaces. *)
Definition extract_capabilities (text : bytes) : bytes * list bytes :=
  match split1 0 text with
  | (ref, Some capabilities) => (ref, split 32 capabilities)
  | (_, None) => (text, [])
  end.

(** *** Callers and collaborators *)

(** What the callbacks of a call were asked to do, oldest first. *)
Inductive event :=
| PackData (x : bytes)
| Progress (x : bytes)
| GeneratePackContents (have want : list Sha1Sum).

Record request (Obj : Type) := mkRequest {
  req_url : str;
  req_headers : list (str * str);
  req_data : option (list (wire Obj))
}.

Arguments mkRequest {Obj}.
Arguments req_url {Obj}.
Arguments req_headers {Obj}.
Arguments req_data {Obj}.

Record response := mkResponse {
  getcode : Z;
  get_content_type : str;
  body : list (option bytes);
  body_residue : bytes
}.

(** The parts of a call that are not in [client.py]: the graph walker
    ([next] gives [None] once it is exhausted), the objects of a pack,
    [PktLineParser] of [dulwich/protocol.py] (a chunk of data goes in, the
    packets it completes come out), the order in which Python walks a
    [set], [urllib.parse.urljoin], and what is behind [_perform]: as
    shipped it is [urllib.request.urlopen], which hands back the response
    or raises ([HTTPError] for a status that is not a success); a subclass
    may put its own version in its place. *)
Class Collaborators := {
  GraphWalker : Type;
  walker_next : GraphWalker -> option Sha1Sum * GraphWalker;
  walker_ack : bytes -> GraphWalker -> GraphWalker;
  Obj : Type;
  PktLineParser : Type;
  parser_new : PktLineParser;
  parser_parse : PktLineParser -> bytes -> list (option bytes) * PktLineParser;
  set_iter : list bytes -> list bytes;
  urljoin : str -> str -> str;
  _perform : request Obj -> result response
}.

Section Engine.
Context `{Collaborators}.

Record world := mkWorld {
  graph_walker : GraphWalker;
  events : list event;
  requests : list (request Obj)
}.

Definition emit (e : event) (w : world) : world :=
  {| graph_walker := graph_walker w; events := events w ++ [e];
     requests := requests w |}.

Definition ack (sha : bytes) (w : world) : world :=
  {| graph_walker := walker_ack sha (graph_walker w); events := events w;
     requests := requests w |}.

(** [next(graph_walker)] *)
Definition next (w : world) : option Sha1Sum * world :=
  let '(have, g) := walker_next (graph_walker w) in
  (have, {| graph_walker := g; events := events w; requests := requests w |}).

Record GitClient := mkGitClient {
  _fetch_capabilities : list bytes;
  _send_capabilities : list bytes
}.

(** [GitClient.__init__] *)
Definition GitClient_init (thin_packs : bool) : GitClient :=
  {| _fetch_capabilities :=
       FETCH_CAPABILITIES ++ (if thin_packs then [lit "thin-pack"] else []);
     _send_capabilities := SEND_CAPABILITIES |}.

Fixpoint _read_refs_loop (pkts : list (option bytes)) (refs : dict Sha1Sum)
    (server_capabilities : option (list bytes))
  : result (dict Sha1Sum * option (list bytes) * list (option bytes)) :=
  match pkts with
  | [] => Raise (GitProtocolError NoArg)
  | None :: rest => Ok (refs, server_capabilities, rest)
  | Some pkt :: rest =>
      match split1 32 (rstrip_nl pkt) with
      | (_, None) => Raise ValueError
      | (sha, Some ref) =>
          if bytes_eqb sha (lit "ERR") then Raise (GitProtocolError (Bytes ref))
          else
            let '(ref, server_capabilities) :=
              match server_capabilities with
              | None => let '(ref, caps) := extract_capabilities ref in (ref, Some caps)
              | Some _ => (ref, server_capabilities)
              end in
            _read_refs_loop rest (dict_set refs ref (mkSha1Sum sha)) server_capabilities
      end
  end.

Definition _read_refs (proto : Protocol Obj)
  : result (dict Sha1Sum * option (list bytes) * Protocol Obj) :=
  let* (refs, server_capabilities, rest) := _read_refs_loop (incoming proto) [] None in
  Ok (refs, server_capabilities,
      {| incoming := rest; residue := residue proto; outgoing := outgoing proto |}).

(** A sideband callback works on some state [S]; [None] discards. *)
Definition callback (S : Type) := option (bytes -> S -> result S).

Fixpoint lookup_channel {S} (channel_callbacks : list (Z * callback S)) (channel : Z)
  : option (callback S) :=
  match channel_callbacks with
  | [] => None
  | (c, cb) :: l => if c =? channel then Some cb else lookup_channel l channel
  end.

Fixpoint _read_side_band64k_loop {S} (channel_callbacks : list (Z * callback S))
    (pkts : list (option bytes)) (s : S) : result (list (option bytes) * S) :=
  match pkts with
  | [] => Raise (GitProtocolError NoArg)
  | None :: rest => Ok (rest, s)
  | Some [] :: _ => Raise IndexError
  | Some (channel :: pkt) :: rest =>
      match lookup_channel channel_callbacks channel with
      | None => Raise (AssertionError (Fmt "Invalid sideband channel %d" [channel]))
      | Some None => _read_side_band64k_loop channel_callbacks rest s
      | Some (Some cb) =>
          let* s := cb pkt s in
          _read_side_band64k_loop channel_callbacks rest s
      end
  end.

Definition _read_side_band64k_data {S} (proto : Protocol Obj)
    (channel_callbacks : list (Z * callback S)) (s : S)
  : result (Protocol Obj * S) :=
  let* (rest, s) := _read_side_band64k_loop channel_callbacks (incoming proto) s in
  Ok ({| incoming := rest; residue := residue proto; outgoing := outgoing proto |}, s).

(** One turn of the [for refname in set(...)] loop of
    [_handle_receive_pack_head]; the state is the channel, [sent_capabilities]
    and [want]. *)
Definition receive_pack_ref (capabilities : list bytes) (old_refs new_refs : dict Sha1Sum)
    (have : list Sha1Sum) (acc : Protocol Obj * bool * list Sha1Sum) (refname : bytes)
  : Protocol Obj * bool * list Sha1Sum :=
  let '(proto, sent_capabilities, want) := acc in
  let old_sha1 := default ZERO_SHA (dict_get old_refs refname) in
  let new_sha1 := default ZERO_SHA (dict_get new_refs refname) in
  let '(proto, sent_capabilities) :=
    if negb (sha_eqb old_sha1 new_sha1) then
      if sent_capabilities then
        (write_pkt_line proto
           (Some (hex_bytes old_sha1 ++ [32] ++ hex_bytes new_sha1 ++ [32] ++ refname)),
         sent_capabilities)
      else
        (write_pkt_line proto
           (Some (hex_bytes old_sha1 ++ [32] ++ hex_bytes new_sha1 ++ [32] ++ refname
                  ++ [0] ++ join [32] capabilities)),
         true)
    else (proto, sent_capabilities) in
  if negb (sha_mem new_sha1 have) && negb (sha_eqb new_sha1 ZERO_SHA)
  then (proto, sent_capabilities, want ++ [new_sha1])
  else (proto, sent_capabilities, want).

Definition _handle_receive_pack_head (proto : Protocol Obj) (capabilities : list bytes)
    (old_refs new_refs : dict Sha1Sum)
  : Protocol Obj * (list Sha1Sum * list Sha1Sum) :=
  let have := List.filter (fun x => negb (sha_eqb x ZERO_SHA)) (dict_values old_refs) in
  let '(proto, _, want) :=
    fold_left (receive_pack_ref capabilities old_refs new_refs have)
              (set_iter (dict_keys new_refs ++ dict_keys old_refs))
              (proto, false, []) in
  (write_pkt_line proto None, (have, want)).

(** [for pkt in proto.read_pkt_seq(): report_status_parser.handle_packet(pkt)];
    the flush that ends the sequence is not handed on. *)
Fixpoint report_status_loop (pkts : list (option bytes)) (parser : ReportStatusParser.t)
  : result (list (option bytes) * ReportStatusParser.t) :=
  match pkts with
  | [] => Raise (GitProtocolError NoArg)
  | None :: rest => Ok (rest, parser)
  | Some pkt :: rest =>
      let* parser := ReportStatusParser.handle_packet parser (Some pkt) in
      report_status_loop rest parser
  end.

(** The optional [progress] function, as a sideband callback. *)
Definition progress_callback {S} (progress : bool) (log : event -> S -> S) : callback S :=
  if progress then Some (fun pkt s => Ok (log (Progress pkt) s)) else None.

Definition _handle_receive_pack_tail (proto : Protocol Obj) (capabilities : list bytes)
    (progress : bool) (w : world) : result (Protocol Obj * world) :=
  let report_status_parser :=
    if mem (lit "report-status") capabilities then Some ReportStatusParser.init else None in
  let* (proto, report_status_parser, w) :=
    if mem (lit "side-band-64k") capabilities then
      let channel_callbacks : list (Z * callback (ReportStatusParser.t * PktLineParser * world)) :=
        [(2, progress_callback progress
               (fun e '(r, p, w) => (r, p, emit e w)))] in
      let channel_callbacks :=
        if mem (lit "report-status") capabilities then
          channel_callbacks ++
          [(1, Some (fun data '(r, p, w) =>
                       let '(pkts, p) := parser_parse p data in
                       let* r := ReportStatusParser.feed r pkts in
                       Ok (r, p, w)))]
        else channel_callbacks in
      let* (proto, s) :=
        _read_side_band64k_data proto channel_callbacks
          (default ReportStatusParser.init report_status_parser, parser_new, w) in
      let '(r, _, w) := s in
      Ok (proto, option_map (fun _ => r) report_status_parser, w)
    else
      match report_status_parser with
      | Some r =>
          let* (rest, r) := report_status_loop (incoming proto) r in
          Ok ({| incoming := rest; residue := residue proto;
                 outgoing := outgoing proto |}, Some r, w)
      | None => Ok (proto, None, w)
      end in
  let* _ := match report_status_parser with
            | Some r => ReportStatusParser.check r
            | None => Ok tt
            end in
  (* wait for EOF before returning *)
  let '(data, proto) := read_rest proto in
  match data with
  | [] => Ok (proto, w)
  | _ => Raise (SendPackError (Fmt "Unexpected response %r" data))
  end.

Inductive loop_exit := Continue | Break.

(** The body of the [while have] loop of [_handle_upload_pack_head], up to
    (and not including) the [have = next(graph_walker)] that ends a turn. *)
Definition upload_pack_have (can_read : Protocol Obj -> bool) (have : Sha1Sum)
    (proto : Protocol Obj) (w : world) : result (loop_exit * Protocol Obj * world) :=
  let proto := write_pkt_line proto (Some (lit "have " ++ hex_bytes have ++ [10])) in
  if can_read proto then
    let* (pkt, proto) := read_pkt_line proto in
    match pkt with
    | None => Raise AttributeError
    | Some pkt =>
        let parts := split 32 (rstrip_nl pkt) in
        if bytes_eqb (nth 0 parts []) (lit "ACK") then
          match nth_error parts 1 with
          | None => Raise IndexError
          | Some sha =>
              let w := ack sha w in
              match nth_error parts 2 with
              | None => Raise IndexError
              | Some status =>
                  if mem status [lit "continue"; lit "common"] then Ok (Continue, proto, w)
                  else if bytes_eqb status (lit "ready") then Ok (Break, proto, w)
                  else
                    match utf8_decode status with
                    | Some t =>
                        Raise (AssertionError
                                 (Text (t ++ lit " not in ('continue', 'ready', 'common)")))
                    | None => Raise UnicodeDecodeError
                    end
              end
          end
        else Ok (Continue, proto, w)
    end
  else Ok (Continue, proto, w).

Fixpoint upload_pack_haves (fuel : nat) (can_read : Protocol Obj -> bool)
    (have : option Sha1Sum) (proto : Protocol Obj) (w : world)
  : result (Protocol Obj * world) :=
  match have with
  | None => Ok (proto, w)
  | Some h =>
      match fuel with
      | O => Timeout
      | S fuel =>
          let* (exit, proto, w) := upload_pack_have can_read h proto w in
          match exit with
          | Break => Ok (proto, w)
          | Continue =>
              let '(have, w) := next w in
              upload_pack_haves fuel can_read have proto w
          end
      end
  end.

Definition _handle_upload_pack_head (fuel : nat) (proto : Protocol Obj)
    (capabilities : list bytes) (wants : list Sha1Sum)
    (can_read : Protocol Obj -> bool) (w : world) : result (Protocol Obj * world) :=
  match wants with
  | [] => Raise IndexError
  | want0 :: wants =>
      let proto :=
        write_pkt_line proto
          (Some (lit "want " ++ hex_bytes want0 ++ [32] ++ join [32] capabilities ++ [10])) in
      let proto :=
        fold_left (fun proto want =>
                     write_pkt_line proto (Some (lit "want " ++ hex_bytes want ++ [10])))
                  wants proto in
      let proto := write_pkt_line proto None in
      let '(have, w) := next w in
      let* (proto, w) := upload_pack_haves fuel can_read have proto w in
      Ok (write_pkt_line proto (Some (lit "done" ++ [10])), w)
  end.

(** The [while pkt] loop that opens [_handle_upload_pack_tail]. *)
Fixpoint upload_pack_acks (pkts : list (option bytes)) (w : world)
  : result (list (option bytes) * world) :=
  match pkts with
  | [] => Raise (GitProtocolError NoArg)
  | None :: rest => Ok (rest, w)
  | Some [] :: rest => Ok (rest, w)
  | Some pkt :: rest =>
      let parts := split 32 (rstrip_nl pkt) in
      let* w :=
        if bytes_eqb (nth 0 parts []) (lit "ACK") then
          match nth_error (split 32 pkt) 1 with
          | Some sha => Ok (ack sha w)
          | None => Raise IndexError
          end
        else Ok w in
      if (length parts <? 3)%nat
         || negb (mem (nth 2 parts []) [lit "ready"; lit "continue"; lit "common"])
      then Ok (rest, w)
      else upload_pack_acks rest w
  end.

Definition _handle_upload_pack_tail (proto : Protocol Obj) (capabilities : list bytes)
    (progress : bool) (w : world) : result (Protocol Obj * world) :=
  let* (rest, w) := upload_pack_acks (incoming proto) w in
  let proto := {| incoming := rest; residue := residue proto;
                  outgoing := outgoing proto |} in
  if mem (lit "side-band-64k") capabilities then
    let* (proto, w) :=
      _read_side_band64k_data proto
        [(1, Some (fun pkt w => Ok (emit (PackData pkt) w)));
         (2, progress_callback progress emit)] w in
    (* wait for EOF before returning *)
    let '(data, proto) := read_rest proto in
    match data with
    | [] => Ok (proto, w)
    | _ => Raise (ExceptionError (Fmt "Unexpected response %r" data))
    end
  else
    (* [self.read(rbufsize)]: a [GitClient] has no [read] *)
    Raise AttributeError.

(** *** [TraditionalGitClient]

    [_connect] belongs to the transports: the channel it opens, and the
    [can_read] predicate that comes with it, are taken as given. *)

(** Lines 434 to 436: the capabilities a push is run with. *)
Definition send_pack_capabilities (self : GitClient)
    (server_capabilities : option (list bytes)) : result (list bytes) :=
  let negotiated_capabilities := _send_capabilities self in
  match server_capabilities with
  | None => Raise TypeError
  | Some server_capabilities =>
      if negb (mem (lit "report-status") server_capabilities) then
        match list_remove (lit "report-status") negotiated_capabilities with
        | Some l => Ok l
        | None => Raise ValueError
        end
      else Ok negotiated_capabilities
  end.

Definition TraditionalGitClient_send_pack (self : GitClient) (proto : Protocol Obj)
    (determine_wants : dict Sha1Sum -> option (dict Sha1Sum))
    (generate_pack_contents : list Sha1Sum -> list Sha1Sum -> list Obj)
    (progress : bool) (w : world)
  : result (dict Sha1Sum * Protocol Obj * world) :=
  let* (old_refs, server_capabilities, proto) := _read_refs proto in
  let* negotiated_capabilities := send_pack_capabilities self server_capabilities in
  match determine_wants old_refs with
  | None => Ok (old_refs, write_pkt_line proto None, w)
  | Some new_refs =>
      let '(proto, (have, want)) :=
        _handle_receive_pack_head proto negotiated_capabilities old_refs new_refs in
      if is_nil want && dict_eqb old_refs new_refs then Ok (new_refs, proto, w)
      else
        let objects := generate_pack_contents have want in
        let w := emit (GeneratePackContents have want) w in
        let proto :=
          if (0 <? length objects)%nat then write_pack_objects proto objects else proto in
        let* (proto, w) :=
          _handle_receive_pack_tail proto negotiated_capabilities progress w in
        Ok (new_refs, proto, w)
  end.

Definition TraditionalGitClient_fetch_pack (fuel : nat) (self : GitClient)
    (proto : Protocol Obj) (can_read : Protocol Obj -> bool)
    (determine_wants : dict Sha1Sum -> option (list Sha1Sum))
    (progress : bool) (w : world)
  : result (dict Sha1Sum * Protocol Obj * world) :=
  let* (refs, server_capabilities, proto) := _read_refs proto in
  let negotiated_capabilities := _fetch_capabilities self in
  match determine_wants refs with
  | None | Some [] => Ok (refs, write_pkt_line proto None, w)
  | Some wants =>
      let* (proto, w) :=
        _handle_upload_pack_head fuel proto negotiated_capabilities wants can_read w in
      let* (proto, w) :=
        _handle_upload_pack_tail proto negotiated_capabilities progress w in
      Ok (refs, proto, w)
  end.

(** *** [HttpGitClient] *)

Record HttpGitClient := mkHttpGitClient {
  client : GitClient;
  base_url : str;
  dumb : option bool
}.

(** [HttpGitClient.__init__] *)
Definition HttpGitClient_init (base_url : str) (dumb : option bool) (thin_packs : bool)
  : HttpGitClient :=
  {| client := GitClient_init thin_packs;
     base_url := rstrip_by (Z.eqb 47) base_url ++ [47];
     dumb := dumb |}.

Definition _get_url (self : HttpGitClient) (path : str) : str :=
  rstrip_by (Z.eqb 47) (urljoin (base_url self) path) ++ [47].

(** [self._perform(req)], the request going on record. *)
Definition perform (req : request Obj) (w : world) : result (response * world) :=
  let* resp := _perform req in
  Ok (resp,
      {| graph_walker := graph_walker w; events := events w;
         requests := requests w ++ [req] |}).

(** [assert url[-1] == "/"] *)
Definition assert_slash (url : str) : result unit :=
  match url with
  | [] => Raise IndexError
  | _ => if List.last url 0 =? 47 then Ok tt else Raise (AssertionError NoArg)
  end.

Fixpoint read_pkt_seq (pkts : list (option bytes))
  : result (list bytes * list (option bytes)) :=
  match pkts with
  | [] => Raise (GitProtocolError NoArg)
  | None :: rest => Ok ([], rest)
  | Some pkt :: rest =>
      let* (l, rest) := read_pkt_seq rest in
      Ok (pkt :: l, rest)
  end.

(** The channel that reads an HTTP response. *)
Definition response_protocol (resp : response) : Protocol Obj :=
  {| incoming := body resp; residue := body_residue resp; outgoing := [] |}.

Definition _discover_references (self : HttpGitClient) (service : str) (url : str)
    (w : world)
  : result (dict Sha1Sum * option (list bytes) * HttpGitClient * world) :=
  let* _ := assert_slash url in
  let url := urljoin url (lit "info/refs") in
  let '(url, headers) :=
    match dumb self with
    | Some false => (url, [])
    | _ => (url ++ lit "?service=" ++ service,
            [(lit "Content-Type", lit "application/x-" ++ service ++ lit "-request")])
    end in
  let req := {| req_url := url; req_headers := headers; req_data := None |} in
  let* (resp, w) := perform req w in
  if getcode resp =? 404 then Raise NotGitRepository
  else if negb (getcode resp =? 200) then
    Raise (GitProtocolError (Fmt "unexpected http response %d" [getcode resp]))
  else
    let self :=
      {| client := client self; base_url := base_url self;
         dumb := Some (negb (startswith (lit "application/x-git-")
                                        (get_content_type resp))) |} in
    let proto := response_protocol resp in
    let* proto :=
      if negb (default false (dumb self)) then
        (* The first line should mention the service *)
        let* (pkts, rest) := read_pkt_seq (incoming proto) in
        if bool_decide (pkts = [lit "# service=" ++ service ++ [10]]) then
          Ok {| incoming := rest; residue := residue proto; outgoing := outgoing proto |}
        else
          Raise (GitProtocolError (Fmt "unexpected first line %r from smart server"
                                       (List.concat pkts)))
      else Ok proto in
    let* (refs, server_capabilities, _) := _read_refs proto in
    Ok (refs, server_capabilities, self, w).

Definition _smart_request (service : str) (url : str) (data : list (wire Obj))
    (w : world) : result (response * world) :=
  let* _ := assert_slash url in
  let url := urljoin url service in
  let req :=
    {| req_url := url;
       req_headers :=
         [(lit "Content-Type", lit "application/x-" ++ service ++ lit "-request")];
       req_data := Some data |} in
  let* (resp, w) := perform req w in
  if getcode resp =? 404 then Raise NotGitRepository
  else if negb (getcode resp =? 200) then
    Raise (GitProtocolError (Fmt "Invalid HTTP response from server: %d" [getcode resp]))
  else if negb (bytes_eqb (get_content_type resp)
                          (lit "application/x-" ++ service ++ lit "-result")) then
    Raise (GitProtocolError (Fmt "Invalid content-type from server: %s"
                                 (get_content_type resp)))
  else Ok (resp, w).

(** The channel that collects the body of a request. *)
Definition request_protocol : Protocol Obj :=
  {| incoming := []; residue := []; outgoing := [] |}.

Definition HttpGitClient_send_pack (self : HttpGitClient) (path : str)
    (determine_wants : dict Sha1Sum -> option (dict Sha1Sum))
    (generate_pack_contents : list Sha1Sum -> list Sha1Sum -> list Obj)
    (progress : bool) (w : world)
  : result (dict Sha1Sum * HttpGitClient * world) :=
  let url := _get_url self path in
  let* (old_refs, server_capabilities, self, w) :=
    _discover_references self (lit "git-receive-pack") url w in
  let negotiated_capabilities := _send_capabilities (client self) in
  match determine_wants old_refs with
  | None => Ok (old_refs, self, w)
  | Some new_refs =>
      if default false (dumb self) then Raise NotImplementedError
      else
        let req_proto := request_protocol in
        let '(req_proto, (have, want)) :=
          _handle_receive_pack_head req_proto negotiated_capabilities old_refs new_refs in
        if is_nil want && dict_eqb old_refs new_refs then Ok (new_refs, self, w)
        else
          let objects := generate_pack_contents have want in
          let w := emit (GeneratePackContents have want) w in
          let req_proto :=
            if (0 <? length objects)%nat then write_pack_objects req_proto objects
            else req_proto in
          let* (resp, w) :=
            _smart_request (lit "git-receive-pack") url (outgoing req_proto) w in
          let* (_, w) :=
            _handle_receive_pack_tail (response_protocol resp) negotiated_capabilities
                                      progress w in
          Ok (new_refs, self, w)
  end.

Definition HttpGitClient_fetch_pack (fuel : nat) (self : HttpGitClient) (path : str)
    (determine_wants : dict Sha1Sum -> option (list Sha1Sum))
    (progress : bool) (w : world)
  : result (dict Sha1Sum * HttpGitClient * world) :=
  let url := _get_url self path in
  let* (refs, server_capabilities, self, w) :=
    _discover_references self (lit "git-upload-pack") url w in
  match server_capabilities with
  | None => Raise TypeError
  | Some server_capabilities =>
      let negotiated_capabilities := server_capabilities in
      match determine_wants refs with
      | None | Some [] => Ok (refs, self, w)
      | Some wants =>
          if default false (dumb self) then Raise NotImplementedError
          else
            let* (req_proto, w) :=
              _handle_upload_pack_head fuel request_protocol negotiated_capabilities
                                       wants (fun _ => false) w in
            let* (resp, w) :=
              _smart_request (lit "git-upload-pack") url (outgoing req_proto) w in
            let* (_, w) :=
              _handle_upload_pack_tail (response_protocol resp) negotiated_capabilities
                                       progress w in
            Ok (refs, self, w)
      end
  end.

End Engine.

End Client.

(** ** Vocabulary of the statements *)

(** A well-formed ref-status line of a status report. *)
Inductive ref_line :=
| RefOk (ref : bytes)
| RefNg (ref reason : bytes).

(** ["ok <ref>"] and ["ng <ref> <reason>"] *)
Definition render (l : ref_line) : bytes :=
  match l with
  | RefOk ref => lit "ok " ++ ref
  | RefNg ref reason => lit "ng " ++ ref ++ [32] ++ reason
  end.

Definition line_ref (l : ref_line) : bytes :=
  match l with
  | RefOk ref => ref
  | RefNg ref _ => ref
  end.

(** The status a line gives its ref: ["ok"], or the reason of the failure. *)
Definition line_status (l : ref_line) : bytes :=
  match l with
  | RefOk _ => lit "ok"
  | RefNg _ reason => reason
  end.

Definition is_ng (l : ref_line) : bool :=
  match l with
  | RefOk _ => false
  | RefNg _ _ => true
  end.

(** The dictionary that records the lines of a report in order. *)
Definition reported (lines : list ref_line) : dict bytes :=
  fold_left (fun d l => dict_set d (line_ref l) (line_status l)) lines [].

(** The refs that some line reports as updated. *)
Definition ok_refs (lines : list ref_line) : list bytes :=
  List.map line_ref (List.filter (fun l => negb (is_ng l)) lines).

(** The status of the last line that names [ref]. *)
Fixpoint last_status (lines : list ref_line) (ref : bytes) : option bytes :=
  match lines with
  | [] => None
  | l :: lines =>
      match last_status lines ref with
      | Some s => Some s
      | None => if bytes_eqb (line_ref l) ref then Some (line_status l) else None
      end
  end.

(** Text that is ASCII throughout: as many bytes as characters. *)
Definition is_ascii (s : str) : bool := forallb (fun c => (0 <=? c) && (c <? 128)) s.

(** An index entry as section 3 of the specification has it: an ASCII path
    of 1 to 4095 bytes, times given as pairs, 32-bit integers, a 20-byte
    hash, 16-bit flags. *)
Definition u32 (x : Z) : bool := (0 <=? x) && (x <? 2 ^ 32).

Definition time_ok (t : Index.cache_time) : bool :=
  match t with
  | Index.TimeTuple secs nsecs => u32 secs && u32 nsecs
  | Index.TimeInt _ => false
  end.

Definition well_formed (e : Index.entry) : bool :=
  let '(name, v) := e in
  is_ascii name && (1 <=? length name)%nat && (length name <=? 4095)%nat
  && time_ok (Index.ctime v) && time_ok (Index.mtime v)
  && u32 (Index.dev v) && u32 (Index.ino v) && u32 (Index.mode v)
  && u32 (Index.uid v) && u32 (Index.gid v) && u32 (Index.size v)
  && (length (hex_bytes (Index.sha v)) =? 20)%nat
  && (0 <=? Index.flags v) && (Index.flags v <? 2 ^ 16).

(** [well_formed], spelled out. *)
Record wf_facts (e : Index.entry) : Prop := {
  wf_ascii : is_ascii (fst e) = true;
  wf_length : (1 <= length (fst e) <= 4095)%nat;
  wf_ctime : time_ok (Index.ctime (snd e)) = true;
  wf_mtime : time_ok (Index.mtime (snd e)) = true;
  wf_dev : 0 <= Index.dev (snd e) < 2 ^ 32;
  wf_ino : 0 <= Index.ino (snd e) < 2 ^ 32;
  wf_mode : 0 <= Index.mode (snd e) < 2 ^ 32;
  wf_uid : 0 <= Index.uid (snd e) < 2 ^ 32;
  wf_gid : 0 <= Index.gid (snd e) < 2 ^ 32;
  wf_size : 0 <= Index.size (snd e) < 2 ^ 32;
  wf_sha : length (hex_bytes (Index.sha (snd e))) = 20%nat;
  wf_flags : 0 <= Index.flags (snd e) < 2 ^ 16
}.

(** What is read back for a value: all of it, the low 12 bits of the flags
    cleared. *)
Definition stored (v : Index.cache_value) : Index.cache_value :=
  Index.mkValue (Index.ctime v) (Index.mtime v) (Index.dev v) (Index.ino v)
                (Index.mode v) (Index.uid v) (Index.gid v) (Index.size v)
                (Index.sha v) (Z.land (Index.flags v) (Z.lnot 4095)).

Definition time_bytes (t : Index.cache_time) : bytes :=
  match t with
  | Index.TimeTuple secs nsecs => Index.be_bytes 4 secs ++ Index.be_bytes 4 nsecs
  | Index.TimeInt t => Index.be_bytes 4 t ++ Index.be_bytes 4 0
  end.

(** The record of a well-formed entry, byte for byte. *)
Definition record_bytes (e : Index.entry) : bytes :=
  let '(name, v) := e in
  let n := Z.of_nat (length name) in
  time_bytes (Index.ctime v) ++ time_bytes (Index.mtime v)
  ++ Index.be_bytes 4 (Index.dev v) ++ Index.be_bytes 4 (Index.ino v)
  ++ Index.be_bytes 4 (Index.mode v) ++ Index.be_bytes 4 (Index.uid v)
  ++ Index.be_bytes 4 (Index.gid v) ++ Index.be_bytes 4 (Index.size v)
  ++ hex_bytes (Index.sha v)
  ++ Index.be_bytes 2 (Z.lor n (Z.land (Index.flags v) (Z.lnot 4095)))
  ++ name
  ++ repeat 0 (Z.to_nat (Z.land (62 + n + 8) (Z.lnot 7) - (62 + n))).

(** Two entries for an index: a record with seven bytes of padding and one
    with eight. *)
Definition sample_index : list Index.entry :=
  [(lit "abc",
    Index.mkValue (Index.TimeTuple 1230680220 0) (Index.TimeTuple 1230680220 500)
                  2050 3761020 33188 1000 1000 12
                  (mkSha1Sum (repeat 171 20)) 0);
   (lit "dir/file.txt",
    Index.mkValue (Index.TimeTuple 1230680221 0) (Index.TimeTuple 1230680221 0)
                  2050 3761021 33261 1000 1000 4096
                  (mkSha1Sum (repeat 18 20)) 32768)].

(** The trees that [commit_tree] makes of ["a/b"] and ["a/c"]. *)
Definition subtree_of_a (H1 H2 : Sha1Sum) : gmap bytes (Z * Sha1Sum) :=
  {[ lit "b" := (33188, H1); lit "c" := (33261, H2) ]}.

Definition root_of_a (tree_id : gmap bytes (Z * Sha1Sum) -> Sha1Sum) (H1 H2 : Sha1Sum)
  : gmap bytes (Z * Sha1Sum) :=
  {[ lit "a" := (Index.S_IFDIR, tree_id (subtree_of_a H1 H2)) ]}.

(** A stand-in for the hash of a tree: its entries, written out in the
    order of their names. *)
Definition sample_tree_id (t : gmap bytes (Z * Sha1Sum)) : Sha1Sum :=
  mkSha1Sum (List.concat (List.map (fun kv => fst kv ++ [0] ++ hex_bytes (snd (snd kv)))
                                   (map_to_list t))).

(** The first occurrences of the elements of a list. *)
Fixpoint dedup (l : list bytes) : list bytes :=
  match l with
  | [] => []
  | x :: l' => x :: List.filter (fun y => negb (bytes_eqb x y)) (dedup l')
  end.

(** Stand-ins for the collaborators of a call: a graph walker that hands
    out a list of identifiers, a packet parser that never completes a
    packet, sets walked in the order of first insertion, URLs joined by
    concatenation, and a smart HTTP server for one [service] that answers
    the discovery request with [advert] and a POST with [result]. *)
Definition sample_collaborators (service : str) (advert result : list (option bytes))
  : Client.Collaborators :=
  {| Client.GraphWalker := list Sha1Sum;
     Client.walker_next := fun g => match g with
                                    | [] => (None, [])
                                    | h :: g' => (Some h, g')
                                    end;
     Client.walker_ack := fun _ g => g;
     Client.Obj := bytes;
     Client.PktLineParser := unit;
     Client.parser_new := tt;
     Client.parser_parse := fun p _ => ([], p);
     Client.set_iter := dedup;
     Client.urljoin := fun a c => a ++ c;
     Client._perform := fun req =>
       match Client.req_data req with
       | None =>
           Ok (Client.mkResponse 200
                 (lit "application/x-" ++ service ++ lit "-advertisement")
                 (Some (lit "# service=" ++ service ++ [10]) :: None :: advert) [])
       | Some _ =>
           Ok (Client.mkResponse 200 (lit "application/x-" ++ service ++ lit "-result")
                 result [])
       end |}.

Definition sha_of (c : Z) : Sha1Sum := mkSha1Sum (repeat c 40).

(** An advertisement of one ref by a server that supports [capabilities]. *)
Definition sample_advert (capabilities : bytes) : list (option bytes) :=
  [Some (hex_bytes (sha_of 97) ++ lit " refs/heads/master" ++ [0] ++ capabilities ++ [10]);
   None].

Definition receive_pack_server : Client.Collaborators :=
  sample_collaborators (lit "git-receive-pack") (sample_advert (lit "ofs-delta")) [None].

Definition upload_pack_server : Client.Collaborators :=
  sample_collaborators (lit "git-upload-pack") (sample_advert (lit "ofs-delta")) [None].

(** ["have <id>"], as written in the head of a fetch. *)
Definition have_line (have : Sha1Sum) : option bytes :=
  Some (lit "have " ++ hex_bytes have ++ [10]).

(** A time as [read_cache_time] returns it: always a pair. *)
Definition time_as_tuple (t : Index.cache_time) : Index.cache_time :=
  match t with
  | Index.TimeInt t => Index.TimeTuple t 0
  | Index.TimeTuple secs nsecs => Index.TimeTuple secs nsecs
  end.

Definition time_in_range (t : Index.cache_time) : bool :=
  match t with
  | Index.TimeInt t => u32 t
  | Index.TimeTuple secs nsecs => u32 secs && u32 nsecs
  end.

(** The value of the last entry of a list that has the path [name]. *)
Fixpoint last_entry (entries : list Index.entry) (name : str) : option Index.cache_value :=
  match entries with
  | [] => None
  | e :: entries =>
      match last_entry entries name with
      | Some v => Some v
      | None => if bytes_eqb (fst e) name then Some (snd e) else None
      end
  end.

(** Git's own values for the two imports of [cleanup_mode]. *)
Definition git_S_IFGITLINK : Z := 57344.
Definition git_S_ISGITLINK (mode : Z) : bool := Index.S_IFMT mode =? git_S_IFGITLINK.

(** The fields of one more entry. *)
Definition sample_value : Index.cache_value :=
  Index.mkValue (Index.TimeTuple 1 0) (Index.TimeTuple 1 0) 0 0 33188 0 0 0
                (mkSha1Sum (repeat 1 20)) 0.

(** A blob that sits in the root directory: its path can be encoded and
    has no slash. *)
Definition encoded_path (blob : str * Sha1Sum * Z) : bytes :=
  default [] (utf8_encode (fst (fst blob))).

Definition flat_blob (blob : str * Sha1Sum * Z) : bool :=
  match utf8_encode (fst (fst blob)) with
  | Some path => negb (contains 47 path)
  | None => false
  end.

(** Mode and hash of the last blob of a list that has the path [name]. *)
Fixpoint last_blob (blobs : list (str * Sha1Sum * Z)) (name : bytes)
  : option (Z * Sha1Sum) :=
  match blobs with
  | [] => None
  | blob :: blobs =>
      match last_blob blobs name with
      | Some x => Some x
      | None =>
          if bytes_eqb (encoded_path blob) name
          then Some (snd blob, snd (fst blob)) else None
      end
  end.

(** The root dictionary that a list of flat blobs leaves behind, and the
    tree object made of a dictionary of leaves. *)
Definition leaf_of (blob : str * Sha1Sum * Z) : Index.node := Index.Leaf (snd blob) (snd (fst blob)).

Definition is_leaf (x : Index.node) : Prop :=
  match x with
  | Index.Leaf _ _ => True
  | Index.Subdir _ => False
  end.

Definition root_dict (blobs : list (str * Sha1Sum * Z)) (d : dict Index.node) : dict Index.node :=
  fold_left (fun d blob => dict_set d (encoded_path blob) (leaf_of blob)) blobs d.

Definition tree_of (d : dict Index.node) (t : gmap bytes (Z * Sha1Sum)) : gmap bytes (Z * Sha1Sum) :=
  fold_left (fun t kv => match snd kv with
                         | Index.Leaf mode sha => <[fst kv := (mode, sha)]> t
                         | Index.Subdir _ => t
                         end) d t.

(** [a <= c] in the order of [sorted]. *)
Definition str_le (a c : list Z) : Prop := str_leb a c = true.

(** A report with one ref updated and one rejected. *)
Definition sample_report : list ref_line :=
  [RefOk (lit "refs/heads/a"); RefNg (lit "refs/heads/b") (lit "non-fast forward")].

(** The identifiers a graph walker hands out until it is exhausted, and
    the walker it leaves behind; [None] when [fuel] calls of [next] do not
    exhaust it. *)
Fixpoint walk {C : Client.Collaborators} (fuel : nat) (g : Client.GraphWalker)
  : option (list Sha1Sum * Client.GraphWalker) :=
  match fuel with
  | O => None
  | S fuel =>
      match Client.walker_next g with
      | (None, g') => Some ([], g')
      | (Some h, g') =>
          match walk fuel g' with
          | Some (hs, g'') => Some (h :: hs, g'')
          | None => None
          end
      end
  end.

(** The [want] lines of a fetch request: the first one carries the
    capabilities. *)
Definition want_line (want : Sha1Sum) : option bytes :=
  Some (lit "want " ++ hex_bytes want ++ [10]).

Definition first_want_line (capabilities : list bytes) (want : Sha1Sum) : option bytes :=
  Some (lit "want " ++ hex_bytes want ++ [32] ++ join [32] capabilities ++ [10]).

(** A sideband packet on channel 1 or 2, and what the callbacks of a fetch
    are handed for it. *)
Definition on_sideband (pkt : bytes) : bool :=
  match pkt with
  | channel :: _ => (channel =? 1) || (channel =? 2)
  | [] => false
  end.

Definition sideband_event (progress : bool) (pkt : bytes) : list Client.event :=
  match pkt with
  | channel :: data =>
      if channel =? 1 then [Client.PackData data]
      else if (channel =? 2) && progress then [Client.Progress data]
      else []
  | [] => []
  end.

(** The ref-update command for [refname], without and with capabilities. *)
Definition update_command (old_sha1 new_sha1 : Sha1Sum) (refname : bytes) : bytes :=
  hex_bytes old_sha1 ++ [32] ++ hex_bytes new_sha1 ++ [32] ++ refname.

(** Python's [set]: walking it gives every element it was built from,
    each of them once, in an order of its own. *)
Definition set_law {C : Client.Collaborators} : Prop :=
  forall l : list bytes,
    List.NoDup (Client.set_iter l) /\ forall x, In x (Client.set_iter l) <-> In x l.

(** The command of a push for [refname], a name that a mapping lacks
    standing for the all-zero identifier; and the command lines for a list
    of names: the first one carries the capabilities. *)
Definition ref_command (old_refs new_refs : dict Sha1Sum) (refname : bytes) : bytes :=
  update_command (default Client.ZERO_SHA (dict_get old_refs refname))
                 (default Client.ZERO_SHA (dict_get new_refs refname)) refname.

Definition command_lines (capabilities : list bytes) (old_refs new_refs : dict Sha1Sum)
    (names : list bytes) : list bytes :=
  match names with
  | [] => []
  | refname :: names =>
      (ref_command old_refs new_refs refname ++ [0] ++ join [32] capabilities)
      :: List.map (ref_command old_refs new_refs) names
  end.

(** An HTTP server that answers every request with the status [code],
    seen through a [_perform] that hands the response back whatever its
    status. *)
Definition refusing_server (code : Z) : Client.Collaborators :=
  {| Client.GraphWalker := list Sha1Sum;
     Client.walker_next := fun g => match g with
                                    | [] => (None, [])
                                    | h :: g' => (Some h, g')
                                    end;
     Client.walker_ack := fun _ g => g;
     Client.Obj := bytes;
     Client.PktLineParser := unit;
     Client.parser_new := tt;
     Client.parser_parse := fun p _ => ([], p);
     Client.set_iter := dedup;
     Client.urljoin := fun a c => a ++ c;
     Client._perform := fun _ => Ok (Client.mkResponse code [] [] []) |}.

(** The same server behind the shipped [_perform]: [urlopen] raises
    [HTTPError] for the error status [code]. *)
Definition urlopen_server (code : Z) : Client.Collaborators :=
  {| Client.GraphWalker := list Sha1Sum;
     Client.walker_next := fun g => match g with
                                    | [] => (None, [])
                                    | h :: g' => (Some h, g')
                                    end;
     Client.walker_ack := fun _ g => g;
     Client.Obj := bytes;
     Client.PktLineParser := unit;
     Client.parser_new := tt;
     Client.parser_parse := fun p _ => ([], p);
     Client.set_iter := dedup;
     Client.urljoin := fun a c => a ++ c;
     Client._perform := fun _ => Raise (HTTPError code) |}.

(** * Properties *)

(** ** Byte strings and dictionaries *)

Lemma bytes_eqb_eq x y : bytes_eqb x y = true <-> x = y.
Proof. unfold bytes_eqb. apply bool_decide_eq_true. Qed.

Lemma bytes_eqb_refl x : bytes_eqb x x = true.
Proof. now apply bytes_eqb_eq. Qed.

Lemma bytes_eqb_neq x y : bytes_eqb x y = false <-> x <> y.
Proof. unfold bytes_eqb. apply bool_decide_eq_false. Qed.

Lemma contains_app c s t : contains c (s ++ t) = contains c s || contains c t.
Proof. unfold contains. apply existsb_app. Qed.

Lemma split1_at sep s t :
  contains sep s = false -> split1 sep (s ++ sep :: t) = (s, Some t).
Proof.
  induction s as [|c s IH]; simpl; intros Hs.
  - now rewrite Z.eqb_refl.
  - apply orb_false_elim in Hs as [Hc Hs].
    rewrite Z.eqb_sym, Hc, (IH Hs). reflexivity.
Qed.

Lemma existsb_rev {A} (f : A -> bool) l : existsb f (rev l) = existsb f l.
Proof.
  induction l as [|x l IH]; simpl; auto.
  rewrite existsb_app, IH. simpl. rewrite orb_false_r. apply orb_comm.
Qed.

Lemma forallb_map_comp {A B} (f : B -> bool) (g : A -> B) l :
  forallb f (List.map g l) = forallb (fun x => f (g x)) l.
Proof. induction l as [|x l IH]; simpl; congruence. Qed.

Section DictFacts.
Context {V : Type}.
Implicit Types d : dict V.

Lemma dict_get_set_eq d k v : dict_get (dict_set d k v) k = Some v.
Proof.
  induction d as [|[k' v'] d IH]; simpl.
  - now rewrite bytes_eqb_refl.
  - destruct (bytes_eqb k' k) eqn:E; simpl; rewrite E; auto.
Qed.

Lemma dict_get_set_ne d k k' v :
  k <> k' -> dict_get (dict_set d k v) k' = dict_get d k'.
Proof.
  intros Hne. induction d as [|[k0 v0] d IH]; simpl.
  - destruct (bytes_eqb k k') eqn:E; auto.
    apply bytes_eqb_eq in E. contradiction.
  - destruct (bytes_eqb k0 k) eqn:E; simpl.
    + apply bytes_eqb_eq in E. subst k0.
      destruct (bytes_eqb k k') eqn:E'; auto.
      apply bytes_eqb_eq in E'. contradiction.
    + now rewrite IH.
Qed.

Lemma dict_get_set d k k' v :
  dict_get (dict_set d k v) k' = if bytes_eqb k k' then Some v else dict_get d k'.
Proof.
  destruct (bytes_eqb k k') eqn:E.
  - apply bytes_eqb_eq in E. subst. apply dict_get_set_eq.
  - apply bytes_eqb_neq in E. now apply dict_get_set_ne.
Qed.

End DictFacts.

(** ** The report-status parser *)

Module ReportStatusFacts.
Import ReportStatusParser.

Lemma startswith_ok_has_space s :
  startswith (lit "ok ") s = true -> contains 32 s = true.
Proof.
  change (lit "ok ") with [111; 107; 32].
  destruct s as [|a [|c [|d s]]]; cbn [startswith]; intros E;
    rewrite ?andb_false_r in E; try discriminate.
  rewrite !andb_true_iff in E. destruct E as (_ & _ & E & _).
  apply Z.eqb_eq in E. subst d.
  cbn [contains existsb]. rewrite Z.eqb_refl. now rewrite !orb_true_r.
Qed.

(** Feeding ref-status lines to a parser that has its unpack status. *)
Lemma feed_statuses (pkts : list bytes) : forall self s,
  _done self = false -> _pack_status self = Some s ->
  feed self (List.map Some pkts) =
  Ok {| _done := false; _pack_status := Some s;
        _ref_status_ok :=
          _ref_status_ok self
          && forallb (fun p => startswith (lit "ok ") (strip p)) pkts;
        _ref_statuses := _ref_statuses self ++ List.map strip pkts |}.
Proof.
  induction pkts as [|p pkts IH]; intros [dn ps ok sts] s Hd Hs;
    simpl in Hd, Hs; subst dn ps.
  - simpl. now rewrite andb_true_r, app_nil_r.
  - cbn [List.map feed bind handle_packet
         _done _pack_status _ref_status_ok _ref_statuses].
    rewrite (IH _ s) by reflexivity.
    cbn [_done _pack_status _ref_status_ok _ref_statuses forallb].
    rewrite <- app_assoc. cbn [app].
    destruct (startswith (lit "ok ") (strip p)), ok; reflexivity.
Qed.

(** A whole report: the unpack status, the ref-status lines, the flush. *)
Lemma feed_report (p0 : bytes) (pkts : list bytes) :
  feed init (Some p0 :: List.map Some pkts ++ [None]) =
  Ok {| _done := true; _pack_status := Some (strip p0);
        _ref_status_ok := forallb (fun p => startswith (lit "ok ") (strip p)) pkts;
        _ref_statuses := List.map strip pkts |}.
Proof.
  cbn [feed bind handle_packet init _done _pack_status].
  assert (Hgen : forall self (l : list (option bytes)) self',
             feed self l = Ok self' ->
             feed self (l ++ [None]) = handle_packet self' None).
  { intros self l. revert self.
    induction l as [|x l IH]; intros self self' E; simpl in *.
    - injection E as <-. now destruct (handle_packet self None).
    - destruct (handle_packet self x); simpl in *; try discriminate.
      now apply IH. }
  erewrite Hgen by (apply feed_statuses with (s := strip p0); reflexivity).
  reflexivity.
Qed.

Lemma check_status_skip acc status :
  contains 32 status = false -> check_status acc status = acc.
Proof. intros E. unfold check_status. destruct acc. now rewrite E. Qed.

Lemma contains_head c s : contains c (c :: s) = true.
Proof. unfold contains. cbn [existsb]. now rewrite Z.eqb_refl. Qed.

Lemma check_status_render d ok l :
  (forall r why, l = RefNg r why -> contains 32 r = false) ->
  check_status (d, ok) (render l) =
  (dict_set d (line_ref l) (line_status l),
   if is_ng l then ok else line_ref l :: ok).
Proof.
  intros Hng. destruct l as [r | r why]; unfold check_status.
  - change (render (RefOk r)) with ([111; 107] ++ 32 :: r).
    rewrite contains_app, contains_head, orb_true_r. cbn [negb].
    now rewrite (split1_at 32 [111; 107]) by reflexivity.
  - specialize (Hng r why eq_refl).
    change (render (RefNg r why)) with ([110; 103] ++ 32 :: (r ++ 32 :: why)).
    rewrite contains_app, contains_head, orb_true_r. cbn [negb].
    rewrite (split1_at 32 [110; 103]) by reflexivity.
    change (bytes_eqb [110; 103] (lit "ng")) with true. cbn iota.
    rewrite contains_app, contains_head, orb_true_r.
    now rewrite (split1_at 32 r why Hng).
Qed.

Lemma check_statuses_render lines : forall d ok,
  (forall r why, In (RefNg r why) lines -> contains 32 r = false) ->
  fold_left check_status (List.map render lines) (d, ok) =
  (fold_left (fun d l => dict_set d (line_ref l) (line_status l)) lines d,
   rev (ok_refs lines) ++ ok).
Proof.
  induction lines as [|l lines IH]; intros d ok Hng; [reflexivity|].
  cbn [List.map fold_left].
  rewrite check_status_render by (intros r why ->; apply (Hng r why); now left).
  rewrite IH by (intros r why Hin; apply (Hng r why); now right).
  f_equal. unfold ok_refs. cbn [List.filter].
  destruct (is_ng l); cbn [negb List.map rev]; [reflexivity|].
  now rewrite <- app_assoc.
Qed.

Lemma reported_lookup_from lines : forall (d : dict bytes) ref,
  dict_get (fold_left (fun d l => dict_set d (line_ref l) (line_status l)) lines d) ref =
  match last_status lines ref with
  | Some s => Some s
  | None => dict_get d ref
  end.
Proof.
  induction lines as [|l lines IH]; intros d ref; [reflexivity|].
  cbn [fold_left last_status]. rewrite IH.
  destruct (last_status lines ref); [reflexivity|].
  rewrite dict_get_set. now destruct (bytes_eqb (line_ref l) ref).
Qed.

Lemma reported_lookup lines ref :
  dict_get (reported lines) ref = last_status lines ref.
Proof.
  unfold reported. rewrite reported_lookup_from. now destruct (last_status lines ref).
Qed.

Lemma last_status_named lines l :
  In l lines -> last_status lines (line_ref l) <> None.
Proof.
  induction lines as [|l' lines IH]; [intros []|].
  intros [-> | Hin]; cbn [last_status].
  - destruct (last_status lines (line_ref l)); [discriminate|].
    now rewrite bytes_eqb_refl.
  - specialize (IH Hin). now destruct (last_status lines (line_ref l)).
Qed.

(** C10: [check()] on a parser whose unpack status is still unset, and
    for which no ref-status line was recorded as failing, returns silently:
    the missing unpack status counts as success. *)
Theorem check_unset_pack_status_returns (self : t) :
  _pack_status self = None ->
  _ref_status_ok self = true ->
  check self = Ok tt.
Proof.
  intros Hs Hok. unfold check. now rewrite Hs, Hok.
Qed.

Lemma check_unset_pack_status_returns_witness :
  _pack_status init = None /\ _ref_status_ok init = true /\ check init = Ok tt.
Proof.
  split; [reflexivity|]. split; [reflexivity|].
  apply (check_unset_pack_status_returns init); reflexivity.
Defined.

(** C5, as stated, fails: after ["unpack ok"], one ref-status line without a
    space and a flush, [check()] does not return, it raises the
    update-rejected error (with an empty mapping). *)
Lemma check_space_free_line_raises :
  exists st,
    feed init [Some (lit "unpack ok"); Some (lit "garbage"); None] = Ok st
    /\ check st = Raise (UpdateRefsError (lit " failed to update") [])
    /\ check st <> Ok tt.
Proof.
  eexists. split; [reflexivity|]. split; [reflexivity|]. vm_compute. discriminate.
Qed.

Lemma check_statuses_skip (statuses : list bytes) : forall acc,
  fold_left check_status statuses acc
  = fold_left check_status (List.filter (contains 32) statuses) acc.
Proof.
  induction statuses as [|x l IH]; intros acc; [reflexivity|].
  cbn [fold_left List.filter]. destruct (contains 32 x) eqn:E.
  - cbn [fold_left]. apply IH.
  - rewrite check_status_skip by assumption. apply IH.
Qed.

Lemma space_free_not_ok (pkts : list bytes) :
  Exists (fun p => contains 32 (strip p) = false) pkts ->
  forallb (fun p => startswith (lit "ok ") (strip p)) pkts = false.
Proof.
  induction 1 as [p l Hp | p l _ IH]; cbn [forallb].
  - destruct (startswith (lit "ok ") (strip p)) eqn:E; [|reflexivity].
    apply startswith_ok_has_space in E. congruence.
  - rewrite IH. apply andb_false_r.
Qed.

(** C5, amended: after an unpack status of ["unpack ok"], a ref-status
    line without a space is left out of the mapping and of the message
    that [check()] builds, yet it is fatal.  [check()] returns only when
    every ref-status line starts with ["ok "]; otherwise it raises what it
    would raise for the same failed report with the space-free lines taken
    out.  A single space-free line is enough to make it raise; and when
    every line is space-free the mapping of the error is empty and its
    message names no ref. *)
Theorem check_space_free_lines (p0 : bytes) (pkts : list bytes) :
  strip p0 = lit "unpack ok" ->
  exists st,
    feed init (Some p0 :: List.map Some pkts ++ [None]) = Ok st
    /\ _ref_statuses st = List.map strip pkts
    /\ check st
       = (if forallb (fun p => startswith (lit "ok ") (strip p)) pkts then Ok tt
          else check {| _done := true; _pack_status := Some (lit "unpack ok");
                        _ref_status_ok := false;
                        _ref_statuses :=
                          List.filter (contains 32) (List.map strip pkts) |})
    /\ (Exists (fun p => contains 32 (strip p) = false) pkts ->
        exists e, check st = Raise e)
    /\ (Forall (fun p => contains 32 (strip p) = false) pkts ->
        check st = match pkts with
                   | [] => Ok tt
                   | _ :: _ => Raise (UpdateRefsError (lit " failed to update") [])
                   end).
Proof.
  intros Hp0. eexists. split; [apply feed_report|].
  split; [reflexivity|].
  assert (Hcheck :
            check {| _done := true; _pack_status := Some (strip p0);
                     _ref_status_ok :=
                       forallb (fun p => startswith (lit "ok ") (strip p)) pkts;
                     _ref_statuses := List.map strip pkts |}
            = (if forallb (fun p => startswith (lit "ok ") (strip p)) pkts then Ok tt
               else check {| _done := true; _pack_status := Some (lit "unpack ok");
                             _ref_status_ok := false;
                             _ref_statuses :=
                               List.filter (contains 32) (List.map strip pkts) |})).
  { unfold check. cbn [_pack_status _ref_status_ok _ref_statuses].
    rewrite Hp0, bytes_eqb_refl. cbn [negb].
    destruct (forallb _ pkts); cbn [negb]; [reflexivity|].
    now rewrite check_statuses_skip. }
  split; [exact Hcheck|]. split.
  - intros Hex. rewrite Hcheck, (space_free_not_ok pkts Hex).
    unfold check. cbn [_pack_status _ref_status_ok _ref_statuses negb].
    rewrite bytes_eqb_refl. cbn [negb].
    destruct (fold_left check_status _ _) as [ref_status ok].
    destruct (decode_all _); eexists; reflexivity.
  - intros Hfree. rewrite Hcheck.
    destruct pkts as [|p pkts]; [reflexivity|].
    rewrite space_free_not_ok by (apply Exists_cons_hd; now apply Forall_inv in Hfree).
    assert (Hnone : forall l,
               Forall (fun p => contains 32 (strip p) = false) l ->
               List.filter (contains 32) (List.map strip l) = []).
    { induction l as [|x l IH]; intros Hl; [reflexivity|].
      cbn [List.map List.filter]. rewrite (Forall_inv Hl).
      apply IH. now apply Forall_inv_tail in Hl. }
    rewrite Hnone by assumption. reflexivity.
Qed.

Lemma check_space_free_lines_witness :
  exists st,
    feed init (Some (lit "unpack ok" ++ [10])
               :: List.map Some [lit "ng refs/heads/b bad"; lit "garbage"] ++ [None])
    = Ok st
    /\ _ref_statuses st = List.map strip [lit "ng refs/heads/b bad"; lit "garbage"]
    /\ check st
       = (if forallb (fun p => startswith (lit "ok ") (strip p))
                     [lit "ng refs/heads/b bad"; lit "garbage"]
          then Ok tt
          else check {| _done := true; _pack_status := Some (lit "unpack ok");
                        _ref_status_ok := false;
                        _ref_statuses :=
                          List.filter (contains 32)
                            (List.map strip [lit "ng refs/heads/b bad"; lit "garbage"]) |})
    /\ (Exists (fun p => contains 32 (strip p) = false)
               [lit "ng refs/heads/b bad"; lit "garbage"] ->
        exists e, check st = Raise e)
    /\ (Forall (fun p => contains 32 (strip p) = false)
               [lit "ng refs/heads/b bad"; lit "garbage"] ->
        check st = Raise (UpdateRefsError (lit " failed to update") [])).
Proof.
  apply (check_space_free_lines (lit "unpack ok" ++ [10])
           [lit "ng refs/heads/b bad"; lit "garbage"]).
  reflexivity.
Defined.

(** C1, as stated, fails: on the report ["unpack ok"], ["ok refs/heads/a"],
    ["ng refs/heads/b bad"], flush, the mapping carried by the error does
    not omit [refs/heads/a]; it maps it to ["ok"]. *)
Lemma check_mapping_keeps_ok_ref :
  exists st msg ref_status,
    feed init [Some (lit "unpack ok"); Some (lit "ok refs/heads/a");
               Some (lit "ng refs/heads/b bad"); None] = Ok st
    /\ check st = Raise (UpdateRefsError msg ref_status)
    /\ dict_get ref_status (lit "refs/heads/a") = Some (lit "ok")
    /\ dict_get ref_status (lit "refs/heads/b") = Some (lit "bad")
    /\ msg = lit "refs/heads/b failed to update".
Proof.
  do 3 eexists. split; [reflexivity|]. split; [vm_compute; reflexivity|].
  split; [reflexivity|]. split; reflexivity.
Qed.

(** C1, amended: after ["unpack ok"], ref-status lines ["ok <ref>"] and
    ["ng <ref> <reason>"] of which at least one is [ng], and a flush,
    [check()] raises the update-rejected error, and its mapping has an entry
    for every ref of the report, failed or not: a ref is mapped to the
    status of the last line that names it, the reason for an [ng] line and
    ["ok"] for an [ok] line.  Only the message of the error is restricted
    to the refs that no line reports as [ok].  (The refs named in the
    message are taken to be valid UTF-8.) *)
Theorem check_update_rejected (p0 : bytes) (pkts : list bytes)
    (lines : list ref_line) (names : list str) :
  strip p0 = lit "unpack ok" ->
  List.map strip pkts = List.map render lines ->
  (forall r why, In (RefNg r why) lines -> contains 32 r = false) ->
  existsb is_ng lines = true ->
  decode_all (List.filter (fun r => negb (existsb (bytes_eqb r) (ok_refs lines)))
                          (dict_keys (reported lines))) = Some names ->
  exists st,
    feed init (Some p0 :: List.map Some pkts ++ [None]) = Ok st
    /\ check st = Raise (UpdateRefsError
                           (join (lit ", ") names ++ lit " failed to update")
                           (reported lines))
    /\ (forall ref, dict_get (reported lines) ref = last_status lines ref)
    /\ (forall l, In l lines -> dict_get (reported lines) (line_ref l) <> None).
Proof.
  intros Hp0 Hlines Hng Hsome Hnames.
  eexists. split; [apply feed_report|].
  split; [|split; [apply reported_lookup|]].
  - unfold check. cbn [_pack_status _ref_status_ok _ref_statuses].
    rewrite Hp0, bytes_eqb_refl. cbn [negb].
    assert (Hflag : forallb (fun p => startswith (lit "ok ") (strip p)) pkts = false).
    { rewrite <- (forallb_map_comp (startswith (lit "ok ")) strip), Hlines.
      clear -Hsome. induction lines as [|l lines IH]; [discriminate|].
      cbn [List.map forallb existsb] in *. destruct l as [r | r why].
      - cbn [is_ng orb] in Hsome. rewrite (IH Hsome). apply andb_false_r.
      - reflexivity. }
    rewrite Hflag, Hlines. cbn [negb].
    rewrite check_statuses_render by assumption.
    fold (reported lines). unfold failed_refs.
    rewrite app_nil_r.
    erewrite filter_ext; [rewrite Hnames; reflexivity|].
    intros r. cbn beta. now rewrite existsb_rev.
  - intros l Hin. rewrite reported_lookup. now apply last_status_named.
Qed.

Lemma check_update_rejected_witness :
  exists st,
    feed init (Some (lit "unpack ok" ++ [10])
               :: List.map Some [lit "ok refs/heads/a" ++ [10];
                                 lit "ng refs/heads/b non-fast forward" ++ [10]]
               ++ [None]) = Ok st
    /\ check st = Raise (UpdateRefsError
                           (join (lit ", ") [lit "refs/heads/b"]
                            ++ lit " failed to update")
                           (reported sample_report))
    /\ (forall ref, dict_get (reported sample_report) ref = last_status sample_report ref)
    /\ (forall l, In l sample_report -> dict_get (reported sample_report) (line_ref l) <> None).
Proof.
  apply (check_update_rejected (lit "unpack ok" ++ [10])
           [lit "ok refs/heads/a" ++ [10];
            lit "ng refs/heads/b non-fast forward" ++ [10]]
           sample_report [lit "refs/heads/b"]).
  - reflexivity.
  - reflexivity.
  - intros r why [E | [E | []]]; [discriminate|]. injection E as <- <-. reflexivity.
  - reflexivity.
  - reflexivity.
Defined.

End ReportStatusFacts.

(** ** The index codec *)

Module IndexFacts.
Import Index.

(** *** Masks *)

Lemma land_clear_low n x : 0 <= n -> Z.land x (Z.lnot (Z.ones n)) = 2 ^ n * (x / 2 ^ n).
Proof.
  intros Hn. rewrite <- Z.ldiff_land, Z.ldiff_ones_r by assumption.
  rewrite Z.shiftl_mul_pow2, Z.shiftr_div_pow2 by assumption. lia.
Qed.

Lemma land_lnot_7 x : Z.land x (Z.lnot 7) = 8 * (x / 8).
Proof. apply (land_clear_low 3). lia. Qed.

Lemma land_lnot_4095 x : Z.land x (Z.lnot 4095) = 4096 * (x / 4096).
Proof. apply (land_clear_low 12). lia. Qed.

Lemma testbit_small len i : 0 <= len < 2 ^ 12 -> 12 <= i -> Z.testbit len i = false.
Proof.
  intros Hlen Hi. destruct (Z.eq_dec len 0) as [-> | Hne]; [apply Z.bits_0|].
  apply Z.bits_above_log2; [lia|].
  apply Z.lt_le_trans with 12; [|assumption].
  apply Z.log2_lt_pow2; lia.
Qed.

(** The length and the upper flag bits do not overlap. *)
Lemma lor_length_flags len q :
  0 <= len < 4096 -> Z.lor len (4096 * q) = len + 4096 * q.
Proof.
  intros Hlen. rewrite <- Z.add_lor_land.
  assert (E : Z.land len (4096 * q) = 0); [|lia].
  apply Z.bits_inj'. intros i Hi. rewrite Z.land_spec, Z.bits_0.
  destruct (Z.lt_ge_cases i 12) as [Hlt | Hge].
  - replace (4096 * q) with (Z.shiftl q 12)
      by (rewrite Z.shiftl_mul_pow2; lia).
    rewrite Z.shiftl_spec_low by assumption. apply andb_false_r.
  - rewrite testbit_small by (change (2 ^ 12) with 4096; lia). reflexivity.
Qed.

Lemma written_flags len fl :
  0 <= len < 4096 -> 0 <= fl < 65536 ->
  let w := Z.lor len (Z.land fl (Z.lnot 4095)) in
  0 <= w < 65536
  /\ Z.land w 4095 = len
  /\ Z.land w (Z.lnot 4095) = Z.land fl (Z.lnot 4095).
Proof.
  intros Hlen Hfl w. subst w.
  rewrite !land_lnot_4095, lor_length_flags by assumption.
  assert (Hq : 0 <= fl / 4096 < 16).
  { split; [apply Z.div_pos; lia | apply Z.div_lt_upper_bound; lia]. }
  assert (Hdiv : (len + 4096 * (fl / 4096)) / 4096 = fl / 4096).
  { symmetry. apply Z.div_unique_pos with len; lia. }
  repeat split; try lia.
  change 4095 with (Z.ones 12). rewrite Z.land_ones by lia.
  change (2 ^ 12) with 4096.
  symmetry. apply Z.mod_unique_pos with (fl / 4096); lia.
Qed.

(** *** Big-endian integers *)

Lemma be_bytes_length n x : length (be_bytes n x) = n.
Proof. induction n; simpl; congruence. Qed.

Lemma be_value_from acc l :
  fold_left (fun acc c => acc * 256 + c) l acc
  = acc * 256 ^ Z.of_nat (length l) + be_value l.
Proof.
  unfold be_value. revert acc.
  induction l as [|c l IH]; intros acc; cbn [fold_left length].
  - change (256 ^ Z.of_nat 0) with 1. lia.
  - rewrite IH, (IH (0 * 256 + c)).
    rewrite Nat2Z.inj_succ, Z.pow_succ_r by lia. lia.
Qed.

Lemma be_value_bytes n x : be_value (be_bytes n x) = x mod 256 ^ Z.of_nat n.
Proof.
  induction n as [|n IH].
  - change (256 ^ Z.of_nat 0) with 1. now rewrite Z.mod_1_r.
  - cbn [be_bytes]. unfold be_value at 1. cbn [fold_left].
    rewrite be_value_from, be_bytes_length, IH.
    rewrite Nat2Z.inj_succ, Z.pow_succ_r by lia.
    rewrite (Z.mul_comm 256), Z.rem_mul_r by lia. lia.
Qed.

Lemma be_value_4 x : 0 <= x < 2 ^ 32 -> be_value (be_bytes 4 x) = x.
Proof. intros Hx. rewrite be_value_bytes. apply Z.mod_small. exact Hx. Qed.

Lemma be_value_2 x : 0 <= x < 2 ^ 16 -> be_value (be_bytes 2 x) = x.
Proof. intros Hx. rewrite be_value_bytes. apply Z.mod_small. exact Hx. Qed.

Lemma pack_L_ok x : 0 <= x < 2 ^ 32 -> pack_L x = Ok (be_bytes 4 x).
Proof.
  intros Hx. unfold pack_L.
  destruct (Z.leb_spec 0 x), (Z.ltb_spec x (2 ^ 32)); try lia. reflexivity.
Qed.

Lemma pack_H_ok x : 0 <= x < 2 ^ 16 -> pack_H x = Ok (be_bytes 2 x).
Proof.
  intros Hx. unfold pack_H.
  destruct (Z.leb_spec 0 x), (Z.ltb_spec x (2 ^ 16)); try lia. reflexivity.
Qed.

Lemma pack_L_inv x y : pack_L x = Ok y -> y = be_bytes 4 x.
Proof. unfold pack_L. destruct (_ && _); congruence. Qed.

Lemma pack_H_inv x y : pack_H x = Ok y -> y = be_bytes 2 x.
Proof. unfold pack_H. destruct (_ && _); congruence. Qed.

Lemma pack_20s_length s : length (pack_20s s) = 20%nat.
Proof.
  unfold pack_20s. rewrite length_take, length_app, repeat_length. lia.
Qed.

Lemma pack_20s_exact s : length s = 20%nat -> pack_20s s = s.
Proof.
  intros Hs. unfold pack_20s. rewrite take_app_length'; auto.
Qed.

(** *** Files *)

Lemma fread_at d p x rest n :
  skipn p d = x ++ rest -> n = Z.of_nat (length x) ->
  fread (mkRfile d p) n = (x, mkRfile d (p + length x)).
Proof.
  intros Hd ->. unfold fread. cbn [data pos]. rewrite Hd.
  destruct (Z.ltb_spec (Z.of_nat (length x)) 0) as [Hneg | _]; [lia|].
  rewrite Nat2Z.id, take_app_length. reflexivity.
Qed.

Lemma skipn_advance {A} (d : list A) p x rest :
  skipn p d = x ++ rest -> skipn (p + length x) d = rest.
Proof.
  intros Hd. rewrite Nat.add_comm, <- skipn_skipn, Hd. apply drop_app_length.
Qed.

(** *** ASCII names *)

Lemma utf8_encode_ascii s : is_ascii s = true -> utf8_encode s = Some s.
Proof.
  induction s as [|c s IH]; [reflexivity|].
  cbn [is_ascii forallb]. intros H. apply andb_prop in H as [Hc Hs].
  cbn [utf8_encode]. rewrite (IH Hs). unfold utf8_encode_cp.
  destruct (Z.leb_spec 0 c), (Z.ltb_spec c 0), (Z.ltb_spec c 128);
    try lia; try discriminate. reflexivity.
Qed.

Lemma utf8_decode_ascii s : is_ascii s = true -> utf8_decode s = Some s.
Proof.
  induction s as [|c s IH]; [reflexivity|].
  cbn [is_ascii forallb]. intros H. apply andb_prop in H as [Hc Hs].
  cbn [utf8_decode]. rewrite (IH Hs), Hc. reflexivity.
Qed.

Lemma write_cache_time_inv f t f' :
  write_cache_time f t = Ok f' -> exists x, f' = f ++ x /\ length x = 8%nat.
Proof.
  unfold write_cache_time.
  destruct t as [t | secs nsecs].
  - destruct (pack_L t) as [a| |] eqn:Ea; try discriminate.
    destruct (pack_L 0) as [c| |] eqn:Ec; try discriminate.
    cbn [bind]. intros [= <-].
    apply pack_L_inv in Ea, Ec. subst. now exists (be_bytes 4 t ++ be_bytes 4 0).
  - destruct (pack_L secs) as [a| |] eqn:Ea; try discriminate.
    destruct (pack_L nsecs) as [c| |] eqn:Ec; try discriminate.
    cbn [bind]. intros [= <-].
    apply pack_L_inv in Ea, Ec. subst. now exists (be_bytes 4 secs ++ be_bytes 4 nsecs).
Qed.

Lemma pack_fields_inv dev ino mode uid gid size sha flags x :
  pack_fields dev ino mode uid gid size sha flags = Ok x -> length x = 46%nat.
Proof.
  unfold pack_fields.
  destruct (pack_L dev) eqn:E1; try discriminate.
  destruct (pack_L ino) eqn:E2; try discriminate.
  destruct (pack_L mode) eqn:E3; try discriminate.
  destruct (pack_L uid) eqn:E4; try discriminate.
  destruct (pack_L gid) eqn:E5; try discriminate.
  destruct (pack_L size) eqn:E6; try discriminate.
  destruct (pack_H flags) eqn:E7; try discriminate.
  cbn [bind]. intros [= <-].
  apply pack_L_inv in E1, E2, E3, E4, E5, E6. apply pack_H_inv in E7. subst.
  rewrite !length_app, pack_20s_length. reflexivity.
Qed.

(** The padding that [write_cache_entry] appends to [u] bytes of record. *)
Lemma padding_size u :
  0 <= u ->
  let pad := Z.land (u + 8) (Z.lnot 7) - u in
  1 <= pad <= 8 /\ (u + pad) mod 8 = 0 /\ (u mod 8 = 0 -> pad = 8).
Proof.
  intros Hu pad. subst pad. rewrite land_lnot_7.
  pose proof (Z.div_mod (u + 8) 8 ltac:(lia)) as Hdm.
  pose proof (Z.mod_pos_bound (u + 8) 8 ltac:(lia)) as Hb.
  repeat split; try lia.
  - replace (u + (8 * ((u + 8) / 8) - u)) with (((u + 8) / 8) * 8) by lia.
    apply Z.mod_mul. lia.
  - intros Hm.
    assert ((u + 8) mod 8 = 0); [|lia].
    rewrite <- Z.add_mod_idemp_l, Hm by lia. reflexivity.
Qed.

(** C4, as stated, fails: a two-byte path makes 64 bytes of header and
    path, a multiple of 8 already, and the record still gets padding: eight
    NUL bytes, for 72 bytes in all. *)
Lemma write_cache_entry_pads_aligned_record :
  exists f',
    write_cache_entry []
      (lit "ab", mkValue (TimeTuple 1 0) (TimeTuple 1 0) 0 0 33188 0 0 0
                         (mkSha1Sum (repeat 7 20)) 0) = Ok f'
    /\ (62 + Z.of_nat (length (lit "ab"))) mod 8 = 0
    /\ length f' = 72%nat
    /\ skipn 64 f' = repeat 0 8.
Proof.
  eexists. split; [vm_compute; reflexivity|]. repeat split.
Qed.

(** C4, amended: every record that [write_cache_entry] emits is the 62
    bytes of fixed fields, the bytes of the path and between one and eight
    NUL bytes, to a total length, measured from the start of the record,
    that is a multiple of 8; when fixed fields and path already make a
    multiple of 8, the record carries eight padding bytes. *)
Theorem write_cache_entry_padded (f : wfile) (e : entry) (f' : wfile) :
  write_cache_entry f e = Ok f' ->
  exists (fixed path : bytes) (pad : nat),
    f' = f ++ fixed ++ path ++ repeat 0 pad
    /\ length fixed = 62%nat
    /\ utf8_encode (fst e) = Some path
    /\ Z.of_nat (length (fixed ++ path ++ repeat 0 pad)) mod 8 = 0
    /\ (1 <= pad <= 8)%nat
    /\ (Z.of_nat (length (fixed ++ path)) mod 8 = 0 -> pad = 8%nat).
Proof.
  destruct e as [name [ct mt dv io md ui gi sz sh fl]].
  unfold write_cache_entry.
  destruct (write_cache_time f ct) as [f1| |] eqn:E1; try discriminate.
  cbn [bind].
  destruct (write_cache_time f1 mt) as [f2| |] eqn:E2; try discriminate.
  cbn [bind].
  destruct (pack_fields _ _ _ _ _ _ _ _) as [x| |] eqn:E3; try discriminate.
  cbn [bind].
  destruct (utf8_encode name) as [path|] eqn:E4; try discriminate.
  intros [= <-].
  apply write_cache_time_inv in E1 as (t1 & -> & Ht1).
  apply write_cache_time_inv in E2 as (t2 & -> & Ht2).
  apply pack_fields_inv in E3.
  set (u := Z.of_nat (length (t1 ++ t2 ++ x ++ path))).
  assert (Hu : u = 62 + Z.of_nat (length path)).
  { subst u. rewrite !length_app. lia. }
  clearbody u.
  destruct (padding_size u ltac:(lia)) as (Hpad & Hmod & Hfull).
  exists (t1 ++ t2 ++ x), path, (Z.to_nat (Z.land (u + 8) (Z.lnot 7) - u)).
  split; [|split; [|split; [|split; [|split]]]].
  - unfold fwrite, wtell. rewrite <- !app_assoc. do 6 f_equal.
    replace (Z.of_nat (length (f ++ t1 ++ t2 ++ x ++ path)))
      with (Z.of_nat (length f) + u)
      by (rewrite !length_app; lia).
    replace (Z.of_nat (length f) + u - Z.of_nat (length f) + 8) with (u + 8) by lia.
    lia.
  - rewrite !length_app. lia.
  - exact E4.
  - rewrite <- Hmod. f_equal. rewrite !length_app, repeat_length. lia.
  - lia.
  - intros Hm. rewrite Hfull; [reflexivity|].
    rewrite <- Hm. f_equal. rewrite !length_app. lia.
Qed.

Lemma write_cache_entry_padded_witness :
  exists (fixed path : bytes) (pad : nat),
    repeat 9 12 ++ be_bytes 4 1 ++ be_bytes 4 0 ++ be_bytes 4 1 ++ be_bytes 4 0
      ++ repeat 0 24 ++ repeat 7 20 ++ [0; 3] ++ lit "abc" ++ repeat 0 7
    = repeat 9 12 ++ fixed ++ path ++ repeat 0 pad
    /\ length fixed = 62%nat
    /\ utf8_encode (lit "abc") = Some path
    /\ Z.of_nat (length (fixed ++ path ++ repeat 0 pad)) mod 8 = 0
    /\ (1 <= pad <= 8)%nat
    /\ (Z.of_nat (length (fixed ++ path)) mod 8 = 0 -> pad = 8%nat).
Proof.
  apply (write_cache_entry_padded (repeat 9 12)
           (lit "abc", mkValue (TimeTuple 1 0) (TimeTuple 1 0) 0 0 0 0 0 0
                               (mkSha1Sum (repeat 7 20)) 0)).
  vm_compute. reflexivity.
Defined.

(** *** Writing and reading back *)

Lemma u32_range x : u32 x = true -> 0 <= x < 2 ^ 32.
Proof. unfold u32. lia. Qed.

Lemma time_ok_inv t :
  time_ok t = true ->
  exists secs nsecs, t = TimeTuple secs nsecs /\ 0 <= secs < 2 ^ 32 /\ 0 <= nsecs < 2 ^ 32.
Proof.
  destruct t as [t | secs nsecs]; cbn [time_ok]; [discriminate|].
  intros H. apply andb_prop in H as [H1 H2]. apply u32_range in H1, H2.
  now exists secs, nsecs.
Qed.

Lemma well_formed_facts e : well_formed e = true -> wf_facts e.
Proof.
  destruct e as [name v]. unfold well_formed. rewrite !andb_true_iff.
  intros H. decompose [and] H. clear H.
  repeat match goal with
         | H : (_ <=? _)%nat = true |- _ => apply Nat.leb_le in H
         | H : (_ =? _)%nat = true |- _ => apply Nat.eqb_eq in H
         end.
  constructor; cbn [fst snd]; try assumption; try (now apply u32_range); try lia.
Qed.

Lemma record_bytes_length e :
  wf_facts e ->
  exists pad : nat,
    length (record_bytes e) = (62 + length (fst e) + pad)%nat
    /\ Z.of_nat pad = Z.land (62 + Z.of_nat (length (fst e)) + 8) (Z.lnot 7)
                      - (62 + Z.of_nat (length (fst e))).
Proof.
  intros W. destruct e as [name v]. cbn [fst snd] in *.
  destruct (time_ok_inv _ (wf_ctime _ W)) as (s1 & n1 & E1 & _).
  destruct (time_ok_inv _ (wf_mtime _ W)) as (s2 & n2 & E2 & _).
  pose proof (wf_sha _ W) as Hsha.
  cbn [snd] in E1, E2, Hsha.
  destruct (padding_size (62 + Z.of_nat (length name)) ltac:(lia)) as (Hpad & _).
  exists (Z.to_nat (Z.land (62 + Z.of_nat (length name) + 8) (Z.lnot 7)
                    - (62 + Z.of_nat (length name)))).
  split.
  - unfold record_bytes. rewrite E1, E2. cbn [time_bytes].
    rewrite !length_app, !be_bytes_length, Hsha, repeat_length.
    cbn [snd]. lia.
  - lia.
Qed.

Lemma pad_from (f x : bytes) u :
  Z.of_nat (length x) = u ->
  Z.to_nat (wtell f + Z.land (wtell (f ++ x) - wtell f + 8) (Z.lnot 7) - wtell (f ++ x))
  = Z.to_nat (Z.land (u + 8) (Z.lnot 7) - u).
Proof.
  intros <-. unfold wtell. rewrite length_app, Nat2Z.inj_add.
  f_equal. replace (Z.of_nat (length f) + Z.of_nat (length x) - Z.of_nat (length f) + 8)
    with (Z.of_nat (length x) + 8) by lia.
  lia.
Qed.

Lemma write_cache_entry_wf f e :
  wf_facts e -> write_cache_entry f e = Ok (f ++ record_bytes e).
Proof.
  intros W. destruct e as [name [ct mt dv io md ui gi sz sh fl]].
  pose proof (wf_length _ W) as Hlen.
  destruct (time_ok_inv _ (wf_ctime _ W)) as (s1 & n1 & E1 & Hs1 & Hn1).
  destruct (time_ok_inv _ (wf_mtime _ W)) as (s2 & n2 & E2 & Hs2 & Hn2).
  pose proof (wf_dev _ W). pose proof (wf_ino _ W). pose proof (wf_mode _ W).
  pose proof (wf_uid _ W). pose proof (wf_gid _ W). pose proof (wf_size _ W).
  pose proof (wf_sha _ W) as Hsha. pose proof (wf_flags _ W) as Hfl.
  pose proof (wf_ascii _ W) as Hascii.
  cbn [fst snd ctime mtime dev ino mode uid gid size sha flags] in *. subst ct mt.
  destruct (written_flags (Z.of_nat (length name)) fl ltac:(lia) ltac:(lia))
    as (Hw & _ & _).
  unfold write_cache_entry, write_cache_time, pack_fields.
  rewrite !pack_L_ok by assumption. cbn [bind].
  rewrite pack_H_ok by exact Hw. cbn [bind].
  rewrite (utf8_encode_ascii _ Hascii), (pack_20s_exact _ Hsha).
  unfold fwrite, record_bytes.
  cbn [ctime mtime dev ino mode uid gid size sha flags time_bytes].
  rewrite <- !app_assoc.
  rewrite (pad_from f _ (62 + Z.of_nat (length name)))
    by (rewrite !length_app, !be_bytes_length, Hsha; lia).
  reflexivity.
Qed.

Tactic Notation "explode" ident(l) integer(n) :=
  do n (destruct l as [|? l]; [discriminate|]); destruct l; [|discriminate].

Lemma unpack_LL_app a c :
  length a = 4%nat -> length c = 4%nat ->
  unpack_LL (a ++ c) = Ok (be_value a, be_value c).
Proof. intros Ha Hc. explode a 4. explode c 4. reflexivity. Qed.

Lemma unpack_fields_app l1 l2 l3 l4 l5 l6 s h :
  length l1 = 4%nat -> length l2 = 4%nat -> length l3 = 4%nat ->
  length l4 = 4%nat -> length l5 = 4%nat -> length l6 = 4%nat ->
  length s = 20%nat -> length h = 2%nat ->
  unpack_fields (l1 ++ l2 ++ l3 ++ l4 ++ l5 ++ l6 ++ s ++ h)
  = Ok (be_value l1, be_value l2, be_value l3, be_value l4, be_value l5,
        be_value l6, s, be_value h).
Proof.
  intros H1 H2 H3 H4 H5 H6 Hs Hh.
  explode l1 4. explode l2 4. explode l3 4.
  explode l4 4. explode l5 4. explode l6 4.
  explode s 20. explode h 2. reflexivity.
Qed.

Lemma read_cache_time_at d p secs nsecs rest :
  0 <= secs < 2 ^ 32 -> 0 <= nsecs < 2 ^ 32 ->
  skipn p d = time_bytes (TimeTuple secs nsecs) ++ rest ->
  read_cache_time (mkRfile d p) = Ok (TimeTuple secs nsecs, mkRfile d (p + 8)).
Proof.
  intros Hs Hn Hd. unfold read_cache_time.
  rewrite (fread_at d p _ rest 8 Hd)
    by (cbn [time_bytes]; rewrite length_app, !be_bytes_length; reflexivity).
  cbn [time_bytes]. rewrite unpack_LL_app by apply be_bytes_length.
  cbn [bind]. rewrite !be_value_4 by assumption.
  rewrite length_app, !be_bytes_length. reflexivity.
Qed.

Lemma fread_padding d p q u rest :
  0 <= u -> Z.of_nat q = Z.of_nat p + u ->
  skipn q d = repeat 0 (Z.to_nat (Z.land (u + 8) (Z.lnot 7) - u)) ++ rest ->
  fread (mkRfile d q)
        (Z.of_nat p + Z.land (Z.of_nat q - Z.of_nat p + 8) (Z.lnot 7) - Z.of_nat q)
  = (repeat 0 (Z.to_nat (Z.land (u + 8) (Z.lnot 7) - u)),
     mkRfile d (q + Z.to_nat (Z.land (u + 8) (Z.lnot 7) - u))).
Proof.
  intros Hu Hq Hd.
  destruct (padding_size u Hu) as (Hpad & _).
  rewrite (fread_at d q _ rest _ Hd).
  - now rewrite repeat_length.
  - rewrite repeat_length. rewrite Hq.
    replace (Z.of_nat p + u - Z.of_nat p + 8) with (u + 8) by lia. lia.
Qed.

Lemma read_cache_entry_wf d p e rest :
  wf_facts e ->
  skipn p d = record_bytes e ++ rest ->
  read_cache_entry (mkRfile d p)
  = Ok ((fst e, stored (snd e)), mkRfile d (p + length (record_bytes e))).
Proof.
  intros W Hd.
  destruct (record_bytes_length e W) as (padn & Hrec & Hpadn).
  rewrite Hrec. clear Hrec.
  destruct e as [name [ct mt dv io md ui gi sz sh fl]].
  pose proof (wf_length _ W) as Hlen.
  destruct (time_ok_inv _ (wf_ctime _ W)) as (s1 & n1 & E1 & Hs1 & Hn1).
  destruct (time_ok_inv _ (wf_mtime _ W)) as (s2 & n2 & E2 & Hs2 & Hn2).
  pose proof (wf_dev _ W) as Hdv. pose proof (wf_ino _ W) as Hio.
  pose proof (wf_mode _ W) as Hmd. pose proof (wf_uid _ W) as Hui.
  pose proof (wf_gid _ W) as Hgi. pose proof (wf_size _ W) as Hsz.
  pose proof (wf_sha _ W) as Hsha. pose proof (wf_flags _ W) as Hfl.
  pose proof (wf_ascii _ W) as Hascii.
  cbn [fst snd ctime mtime dev ino mode uid gid size sha flags] in *. subst ct mt.
  destruct (written_flags (Z.of_nat (length name)) fl ltac:(lia) ltac:(lia))
    as (Hw & Hlow & Hhigh).
  unfold record_bytes in Hd.
  cbn [ctime mtime dev ino mode uid gid size sha flags] in Hd.
  set (w := Z.lor (Z.of_nat (length name)) (Z.land fl (Z.lnot 4095))) in *.
  set (u := 62 + Z.of_nat (length name)) in *.
  rewrite <- !app_assoc in Hd.
  unfold read_cache_entry.
  (* ctime *)
  rewrite (read_cache_time_at d p s1 n1 _ Hs1 Hn1 Hd). cbn [bind].
  apply skipn_advance in Hd.
  replace (length (time_bytes (TimeTuple s1 n1))) with 8%nat in Hd
    by (cbn [time_bytes]; now rewrite length_app, !be_bytes_length).
  (* mtime *)
  rewrite (read_cache_time_at d (p + 8) s2 n2 _ Hs2 Hn2 Hd). cbn [bind].
  apply skipn_advance in Hd.
  replace (length (time_bytes (TimeTuple s2 n2))) with 8%nat in Hd
    by (cbn [time_bytes]; now rewrite length_app, !be_bytes_length).
  (* the fixed fields *)
  rewrite !app_assoc in Hd. rewrite <- !(app_assoc _ _ rest) in Hd.
  rewrite <- (app_assoc _ name) in Hd.
  rewrite <- !app_assoc in Hd.
  assert (Hd2 : skipn (p + 8 + 8) d =
                (be_bytes 4 dv ++ be_bytes 4 io ++ be_bytes 4 md ++ be_bytes 4 ui
                 ++ be_bytes 4 gi ++ be_bytes 4 sz ++ hex_bytes sh ++ be_bytes 2 w)
                ++ name ++ repeat 0 (Z.to_nat (Z.land (u + 8) (Z.lnot 7) - u)) ++ rest).
  { rewrite Hd, <- !app_assoc. reflexivity. }
  clear Hd.
  rewrite (fread_at _ _ _ _ _ Hd2)
    by (rewrite !length_app, !be_bytes_length, Hsha; reflexivity).
  rewrite unpack_fields_app by (apply be_bytes_length || exact Hsha).
  cbn [bind]. cbv beta iota.
  rewrite !be_value_4, be_value_2 by assumption.
  apply skipn_advance in Hd2.
  (* the name *)
  rewrite Hlow, Hhigh.
  rewrite (fread_at _ _ _ _ _ Hd2) by reflexivity.
  rewrite (utf8_decode_ascii _ Hascii).
  apply skipn_advance in Hd2.
  (* the padding *)
  unfold rtell. cbn [pos].
  rewrite (fread_padding d p _ u rest); [|lia| |exact Hd2].
  - unfold stored. cbn [ctime mtime dev ino mode uid gid size sha flags].
    destruct sh as [h]. cbn [hex_bytes] in *.
    do 2 f_equal. f_equal.
    rewrite !length_app, !be_bytes_length, Hsha. lia.
  - rewrite !length_app, !be_bytes_length, Hsha. lia.
Qed.

Lemma write_entries_wf es : forall f,
  Forall wf_facts es ->
  write_entries f es = Ok (f ++ List.concat (List.map record_bytes es)).
Proof.
  induction es as [|e es IH]; intros f Hwf; cbn [write_entries List.map List.concat].
  - now rewrite app_nil_r.
  - rewrite write_cache_entry_wf by now apply Forall_inv in Hwf.
    cbn [bind]. rewrite IH by now apply Forall_inv_tail in Hwf.
    now rewrite <- app_assoc.
Qed.

Lemma read_entries_wf d es : forall p rest,
  Forall wf_facts es ->
  skipn p d = List.concat (List.map record_bytes es) ++ rest ->
  read_entries (length es) (mkRfile d p)
  = Ok (List.map (fun e => (fst e, stored (snd e))) es,
        mkRfile d (p + length (List.concat (List.map record_bytes es)))).
Proof.
  induction es as [|e es IH]; intros p rest Hwf Hd;
    cbn [read_entries length List.map List.concat].
  - cbn [length]. now rewrite Nat.add_0_r.
  - cbn [List.map List.concat] in Hd. rewrite <- app_assoc in Hd.
    rewrite (read_cache_entry_wf d p e _ (Forall_inv Hwf) Hd). cbn [bind].
    apply skipn_advance in Hd.
    rewrite (IH _ rest (Forall_inv_tail Hwf) Hd). cbn [bind].
    rewrite length_app, Nat.add_assoc. reflexivity.
Qed.

Lemma dict_set_fresh {V} (d : dict V) k v :
  ~ In k (dict_keys d) -> dict_set d k v = d ++ [(k, v)].
Proof.
  induction d as [|[k' v'] d IH]; cbn [dict_set dict_keys List.map In fst app];
    intros Hk; [reflexivity|].
  destruct (bytes_eqb k' k) eqn:E.
  - apply bytes_eqb_eq in E. tauto.
  - rewrite IH by tauto. reflexivity.
Qed.

Lemma dict_of_distinct {V} (xs : list (bytes * V)) : forall d,
  List.NoDup (dict_keys d ++ List.map fst xs) ->
  fold_left (fun ret x => dict_set ret (fst x) (snd x)) xs d = d ++ xs.
Proof.
  induction xs as [|[k v] xs IH]; intros d Hnd; cbn [fold_left fst snd].
  - now rewrite app_nil_r.
  - cbn [List.map fst] in Hnd.
    rewrite dict_set_fresh.
    + rewrite IH.
      * now rewrite <- app_assoc.
      * unfold dict_keys in *. rewrite List.map_app. cbn [List.map fst].
        now rewrite <- app_assoc.
    + apply List.NoDup_remove_2 in Hnd. intros Hin. apply Hnd.
      apply in_or_app. now left.
Qed.

Lemma dict_get_in {V} (d : dict V) k v :
  List.NoDup (dict_keys d) -> In (k, v) d -> dict_get d k = Some v.
Proof.
  induction d as [|[k' v'] d IH]; cbn [dict_keys List.map fst In dict_get];
    intros Hnd Hin; [contradiction|].
  apply List.NoDup_cons_iff in Hnd as [Hk Hnd].
  destruct Hin as [[= -> ->] | Hin].
  - now rewrite bytes_eqb_refl.
  - destruct (bytes_eqb k' k) eqn:E.
    + apply bytes_eqb_eq in E. subst k'. exfalso. apply Hk.
      change k with (fst (k, v)). now apply in_map.
    + now apply IH.
Qed.

(** C2, as stated, fails: an entry whose flags have one of the low 12 bits
    set is not read back with these flags.  [write_cache_entry] overwrites
    the bits with the length of the path and [read_cache_entry] masks them
    out: flags of 3 come back as 0. *)
Lemma low_flag_bits_not_read_back :
  exists out ret f v,
    write_index []
      [(lit "abc", mkValue (TimeTuple 1230680220 0) (TimeTuple 1230680220 0)
                           2050 3761020 33188 1000 1000 0
                           (mkSha1Sum (repeat 7 20)) 3)] = Ok out
    /\ read_index_dict (mkRfile out 0) = Ok (ret, f)
    /\ dict_get ret (lit "abc") = Some v
    /\ flags v = 0
    /\ flags v <> 3.
Proof.
  do 4 eexists. split; [vm_compute; reflexivity|].
  split; [vm_compute; reflexivity|]. split; [reflexivity|].
  split; [reflexivity|]. discriminate.
Qed.

(** What the amended statement leaves out: the flags carry [len(name)], the
    number of characters, and the file the encoded bytes, so that a path
    outside ASCII is not read back; here the reader stops in the middle of
    the two bytes of U+00E9. *)
Lemma non_ascii_path_not_read_back :
  exists out,
    write_index []
      [([233], mkValue (TimeTuple 1 0) (TimeTuple 1 0) 0 0 33188 0 0 0
                       (mkSha1Sum (repeat 7 20)) 0)] = Ok out
    /\ read_index_dict (mkRfile out 0) = Raise UnicodeDecodeError.
Proof.
  eexists. split; vm_compute; reflexivity.
Qed.

(** C2, amended: for every list of index entries with pairwise distinct
    ASCII paths of 1 to 4095 bytes (times given as pairs, 32-bit integer
    fields, 20-byte hashes, 16-bit flags), [write_index] succeeds and
    [read_index_dict] on the bytes written returns a dictionary with
    exactly these entries, in order: path, ctime, mtime, device, inode,
    mode, uid, gid, size and content hash as given, and the flags with
    their low 12 bits cleared. *)
Theorem write_index_read_index_dict (entries : list entry) :
  forallb well_formed entries = true ->
  List.NoDup (List.map fst entries) ->
  Z.of_nat (length entries) < 2 ^ 32 ->
  exists out,
    write_index [] entries = Ok out
    /\ read_index_dict (mkRfile out 0)
       = Ok (List.map (fun e => (fst e, stored (snd e))) entries,
             mkRfile out (length out))
    /\ forall name v,
         In (name, v) entries ->
         dict_get (List.map (fun e => (fst e, stored (snd e))) entries) name
         = Some (stored v).
Proof.
  intros Hwf Hnd Hcount.
  assert (Hfacts : Forall wf_facts entries).
  { apply List.Forall_forall. intros e He. apply well_formed_facts.
    rewrite forallb_forall in Hwf. now apply Hwf. }
  set (recs := List.concat (List.map record_bytes entries)).
  set (n := Z.of_nat (length entries)) in *.
  exists (lit "DIRC" ++ (be_bytes 4 2 ++ be_bytes 4 n) ++ recs).
  split; [|split].
  - unfold write_index. rewrite !pack_L_ok by lia. cbn [bind].
    unfold fwrite. rewrite write_entries_wf by assumption.
    cbn [app]. now rewrite <- !app_assoc.
  - unfold read_index_dict, read_index.
    rewrite (fread_at _ 0 (lit "DIRC") ((be_bytes 4 2 ++ be_bytes 4 n) ++ recs) 4)
      by reflexivity.
    rewrite bytes_eqb_refl. cbn [negb].
    rewrite (fread_at _ _ (be_bytes 4 2 ++ be_bytes 4 n) recs (4 * 2))
      by reflexivity.
    rewrite unpack_LL_app by apply be_bytes_length.
    cbn [bind]. rewrite !be_value_4 by lia.
    change ((2 =? 1) || (2 =? 2)) with true. cbn [negb].
    subst n. rewrite Nat2Z.id.
    rewrite (read_entries_wf _ entries _ [] Hfacts).
    + cbn [bind]. rewrite dict_of_distinct.
      * cbn [app]. do 2 f_equal.
      * cbn [dict_keys List.map app]. now rewrite List.map_map.
    + rewrite app_nil_r. change (0 + length (lit "DIRC"))%nat with 4%nat.
      change (4 + length (be_bytes 4 2 ++ be_bytes 4 (Z.of_nat (length entries))))%nat
        with (4 + 8)%nat.
      reflexivity.
  - intros name v Hin. apply dict_get_in.
    + unfold dict_keys. rewrite List.map_map. exact Hnd.
    + change (name, stored v) with ((fun e : entry => (fst e, stored (snd e))) (name, v)).
      now apply in_map.
Qed.

Lemma write_index_read_index_dict_witness :
  exists out,
    write_index [] sample_index = Ok out
    /\ read_index_dict (mkRfile out 0)
       = Ok (List.map (fun e => (fst e, stored (snd e))) sample_index,
             mkRfile out (length out))
    /\ forall name v,
         In (name, v) sample_index ->
         dict_get (List.map (fun e => (fst e, stored (snd e))) sample_index) name
         = Some (stored v).
Proof.
  apply (write_index_read_index_dict sample_index).
  - reflexivity.
  - apply List.NoDup_cons.
    + intros [E | []]. vm_compute in E. discriminate E.
    + apply List.NoDup_cons; [intros [] | apply List.NoDup_nil].
  - reflexivity.
Defined.

(** *** The tree builder *)

(** C7: [commit_tree] on the triples [("a/b", H1, 0o100644)] and
    [("a/c", H2, 0o100755)], in either order, returns the hash of a root
    tree whose single entry ["a"] has the directory mode and points to the
    subtree with the entries ["b"] (mode 0o100644, [H1]) and ["c"] (mode
    0o100755, [H2]); the subtree, then the root, are added to the object
    store. *)
Theorem commit_tree_two_files (tree_id : Tree -> Sha1Sum) (H1 H2 : Sha1Sum)
    (blobs : list (str * Sha1Sum * Z)) (fuel : nat) (object_store : list Tree) :
  Permutation blobs [(lit "a/b", H1, 33188); (lit "a/c", H2, 33261)] ->
  (2 <= fuel)%nat ->
  commit_tree tree_id fuel object_store blobs
  = Ok (tree_id (root_of_a tree_id H1 H2),
        object_store ++ [subtree_of_a H1 H2; root_of_a tree_id H1 H2]).
Proof.
  intros Hperm Hfuel.
  destruct fuel as [|[|fuel]]; [lia | lia |].
  apply Permutation_sym, Permutation_length_2_inv in Hperm.
  replace (object_store ++ [subtree_of_a H1 H2; root_of_a tree_id H1 H2])
    with ((object_store ++ [subtree_of_a H1 H2]) ++ [root_of_a tree_id H1 H2])
    by now rewrite <- app_assoc.
  destruct Hperm as [-> | ->]; vm_compute; reflexivity.
Qed.

Lemma commit_tree_two_files_witness :
  commit_tree sample_tree_id 2 []
    [(lit "a/c", mkSha1Sum (repeat 2 20), 33261);
     (lit "a/b", mkSha1Sum (repeat 1 20), 33188)]
  = Ok (sample_tree_id
          (root_of_a sample_tree_id (mkSha1Sum (repeat 1 20)) (mkSha1Sum (repeat 2 20))),
        [] ++ [subtree_of_a (mkSha1Sum (repeat 1 20)) (mkSha1Sum (repeat 2 20));
               root_of_a sample_tree_id (mkSha1Sum (repeat 1 20))
                         (mkSha1Sum (repeat 2 20))]).
Proof.
  apply (commit_tree_two_files sample_tree_id (mkSha1Sum (repeat 1 20))
           (mkSha1Sum (repeat 2 20))).
  - apply perm_swap.
  - lia.
Defined.

End IndexFacts.

(** ** The negotiation engine *)

Module ClientFacts.
Import Client.

Lemma sha_eqb_eq x y : sha_eqb x y = true <-> x = y.
Proof.
  unfold sha_eqb. rewrite bytes_eqb_eq. destruct x, y; cbn [hex_bytes].
  split; congruence.
Qed.

Lemma dict_keys_set {V} (d : dict V) k v :
  dict_keys (dict_set d k v) =
  if existsb (fun k' => bytes_eqb k' k) (dict_keys d)
  then dict_keys d else dict_keys d ++ [k].
Proof.
  induction d as [|[k0 v0] d IH]; cbn [dict_set dict_keys List.map fst existsb app];
    [reflexivity|].
  destruct (bytes_eqb k0 k) eqn:E; cbn [orb List.map fst]; [reflexivity|].
  fold (dict_keys d). fold (dict_keys (dict_set d k v)). rewrite IH.
  now destruct (existsb _ _).
Qed.

Lemma dict_set_nodup {V} (d : dict V) k v :
  List.NoDup (dict_keys d) -> List.NoDup (dict_keys (dict_set d k v)).
Proof.
  intros Hnd. rewrite dict_keys_set.
  destruct (existsb _ _) eqn:E; [assumption|].
  apply List.NoDup_app; [assumption| repeat constructor; intros [] |].
  intros x Hx [-> | []].
  assert (existsb (fun k' => bytes_eqb k' x) (dict_keys d) = true); [|congruence].
  apply existsb_exists. exists x. split; [assumption | apply bytes_eqb_refl].
Qed.

Lemma dict_get_some_in {V} (d : dict V) k v :
  dict_get d k = Some v -> In (k, v) d.
Proof.
  induction d as [|[k' v'] d IH]; cbn [dict_get In]; [discriminate|].
  destruct (bytes_eqb k' k) eqn:E.
  - apply bytes_eqb_eq in E. intros [= ->]. left. congruence.
  - intros Hk. right. now apply IH.
Qed.

Lemma dict_get_key {V} (d : dict V) k :
  In k (dict_keys d) -> exists v, dict_get d k = Some v.
Proof.
  induction d as [|[k' v'] d IH]; cbn [dict_keys List.map fst In dict_get];
    [contradiction|].
  intros [-> | Hin].
  - rewrite bytes_eqb_refl. now exists v'.
  - destruct (bytes_eqb k' k); [now exists v' | now apply IH].
Qed.

Lemma dict_get_none {V} (d : dict V) k :
  ~ In k (dict_keys d) -> dict_get d k = None.
Proof.
  intros Hk. destruct (dict_get d k) as [v|] eqn:E; [|reflexivity].
  exfalso. apply Hk. apply dict_get_some_in in E.
  change k with (fst (k, v)). now apply in_map.
Qed.

(** Python's [==] on two dictionaries, read off the model: equal lookups. *)
Lemma dict_eqb_lookup (a c : dict Sha1Sum) :
  List.NoDup (dict_keys a) -> dict_eqb a c = true ->
  forall k, dict_get a k = dict_get c k.
Proof.
  intros Hnd Heq k. unfold dict_eqb in Heq.
  apply andb_prop in Heq as [Hlen Hall]. apply Nat.eqb_eq in Hlen.
  rewrite forallb_forall in Hall.
  assert (Hsub : forall k v, In (k, v) a -> dict_get c k = Some v).
  { intros k0 v Hin. specialize (Hall _ Hin). cbn [fst snd] in Hall.
    destruct (dict_get c k0) as [v'|]; [|discriminate].
    apply sha_eqb_eq in Hall. now subst. }
  assert (Hincl : incl (dict_keys c) (dict_keys a)).
  { apply List.NoDup_length_incl; [assumption | |].
    - unfold dict_keys. rewrite !length_map. lia.
    - intros k0 Hk0. apply dict_get_key in Hk0 as [v Hv].
      apply dict_get_some_in, Hsub, dict_get_some_in in Hv.
      change k0 with (fst (k0, v)). now apply in_map. }
  destruct (dict_get a k) as [v|] eqn:Ea.
  - symmetry. now apply Hsub, dict_get_some_in.
  - symmetry. apply dict_get_none. intros Hk. apply Hincl in Hk.
    apply dict_get_key in Hk as [v Hv]. congruence.
Qed.

Section EngineFacts.
Context `{Collaborators}.

Lemma read_refs_loop_nodup pkts : forall refs caps refs' caps' rest,
  _read_refs_loop pkts refs caps = Ok (refs', caps', rest) ->
  List.NoDup (dict_keys refs) -> List.NoDup (dict_keys refs').
Proof.
  induction pkts as [|[pkt|] pkts IH]; intros refs caps refs' caps' rest;
    cbn [_read_refs_loop]; [discriminate| |].
  - destruct (split1 32 (rstrip_nl pkt)) as [sha [ref|]]; [|discriminate].
    destruct (bytes_eqb sha (lit "ERR")); [discriminate|].
    destruct caps as [caps|].
    + intros Hrun Hnd. eapply IH; [exact Hrun|]. now apply dict_set_nodup.
    + destruct (extract_capabilities ref) as [ref' caps0].
      intros Hrun Hnd. eapply IH; [exact Hrun|]. now apply dict_set_nodup.
  - intros [= <- <- <-]. auto.
Qed.

Lemma read_refs_nodup proto refs caps proto' :
  _read_refs proto = Ok (refs, caps, proto') ->
  List.NoDup (dict_keys refs)
  /\ residue proto' = residue proto /\ outgoing proto' = outgoing proto.
Proof.
  unfold _read_refs.
  destruct (_read_refs_loop (incoming proto) [] None) as [[[r c] rest]| |] eqn:E;
    cbn [bind]; try discriminate.
  intros [= <- <- <-]. split; [|split; reflexivity].
  eapply read_refs_loop_nodup; [exact E|]. constructor.
Qed.

(** A client, as [__init__] leaves it, has [report-status] to drop. *)
Lemma send_pack_capabilities_init thin_packs server_capabilities :
  send_pack_capabilities (GitClient_init thin_packs) (Some server_capabilities)
  = Ok (if mem (lit "report-status") server_capabilities
        then SEND_CAPABILITIES else COMMON_CAPABILITIES).
Proof.
  unfold send_pack_capabilities.
  destruct (mem (lit "report-status") server_capabilities); reflexivity.
Qed.

(** With equal dictionaries, a turn of the loop of
    [_handle_receive_pack_head] writes nothing and wants nothing. *)
Lemma receive_pack_ref_unchanged capabilities (old_refs new_refs : dict Sha1Sum)
    acc refname :
  (forall k, dict_get old_refs k = dict_get new_refs k) ->
  receive_pack_ref capabilities old_refs new_refs
    (List.filter (fun x => negb (sha_eqb x ZERO_SHA)) (dict_values old_refs))
    acc refname = acc.
Proof.
  intros Heq. destruct acc as [[proto sent] want]. unfold receive_pack_ref.
  rewrite <- Heq.
  replace (sha_eqb (default ZERO_SHA (dict_get old_refs refname))
                   (default ZERO_SHA (dict_get old_refs refname))) with true
    by (symmetry; now apply sha_eqb_eq).
  cbn [negb].
  destruct (dict_get old_refs refname) as [v|] eqn:Ev; cbn [default from_option id].
  - destruct (sha_eqb v ZERO_SHA) eqn:Ez; [cbn [negb]; now rewrite andb_false_r|].
    replace (sha_mem v (List.filter (fun x => negb (sha_eqb x ZERO_SHA))
                                    (dict_values old_refs))) with true; [reflexivity|].
    symmetry. apply existsb_exists. exists v. split; [|now apply sha_eqb_eq].
    apply filter_In. split; [|now rewrite Ez].
    apply dict_get_some_in in Ev. change v with (snd (refname, v)).
    now apply in_map.
  - replace (sha_eqb ZERO_SHA ZERO_SHA) with true by reflexivity.
    cbn [negb]. now rewrite andb_false_r.
Qed.

Lemma receive_pack_head_unchanged proto capabilities (old_refs new_refs : dict Sha1Sum) :
  (forall k, dict_get old_refs k = dict_get new_refs k) ->
  _handle_receive_pack_head proto capabilities old_refs new_refs
  = (write_pkt_line proto None,
     (List.filter (fun x => negb (sha_eqb x ZERO_SHA)) (dict_values old_refs), [])).
Proof.
  intros Heq. unfold _handle_receive_pack_head.
  assert (Hfold : forall l acc,
             fold_left (receive_pack_ref capabilities old_refs new_refs
                          (List.filter (fun x => negb (sha_eqb x ZERO_SHA))
                                       (dict_values old_refs))) l acc = acc).
  { induction l as [|r l IH]; intros acc; cbn [fold_left]; [reflexivity|].
    rewrite receive_pack_ref_unchanged by assumption. apply IH. }
  now rewrite Hfold.
Qed.

(** C9: a push in which [determine_wants] hands back a ref mapping equal
    to the advertised one returns that mapping without calling the
    pack-content generator: nothing is recorded in the world, and the
    only packet written is the flush that ends the (empty) list of ref
    updates. *)
Theorem send_pack_unchanged_refs (thin_packs : bool) (proto : Protocol Obj)
    (determine_wants : dict Sha1Sum -> option (dict Sha1Sum))
    (generate_pack_contents : list Sha1Sum -> list Sha1Sum -> list Obj)
    (progress : bool) (w : world)
    (old_refs new_refs : dict Sha1Sum) (server_capabilities : list bytes)
    (proto' : Protocol Obj) :
  _read_refs proto = Ok (old_refs, Some server_capabilities, proto') ->
  determine_wants old_refs = Some new_refs ->
  dict_eqb old_refs new_refs = true ->
  TraditionalGitClient_send_pack (GitClient_init thin_packs) proto determine_wants
                                 generate_pack_contents progress w
  = Ok (new_refs, write_pkt_line proto' None, w).
Proof.
  intros Hrefs Hwants Heq.
  unfold TraditionalGitClient_send_pack.
  rewrite Hrefs. cbn [bind].
  rewrite send_pack_capabilities_init. cbn [bind].
  rewrite Hwants.
  apply read_refs_nodup in Hrefs as (Hnd & _).
  rewrite receive_pack_head_unchanged by now apply dict_eqb_lookup.
  cbn [is_nil andb]. now rewrite Heq.
Qed.

(** The same over HTTP, once the server has shown itself to be smart. *)
Lemma http_send_pack_unchanged_refs (self self' : HttpGitClient) (path : str)
    (determine_wants : dict Sha1Sum -> option (dict Sha1Sum))
    (generate_pack_contents : list Sha1Sum -> list Sha1Sum -> list Obj)
    (progress : bool) (w w' : world)
    (old_refs new_refs : dict Sha1Sum) (server_capabilities : option (list bytes)) :
  _discover_references self (lit "git-receive-pack") (_get_url self path) w
  = Ok (old_refs, server_capabilities, self', w') ->
  List.NoDup (dict_keys old_refs) ->
  dumb self' = Some false ->
  determine_wants old_refs = Some new_refs ->
  dict_eqb old_refs new_refs = true ->
  HttpGitClient_send_pack self path determine_wants generate_pack_contents progress w
  = Ok (new_refs, self', w').
Proof.
  intros Hrefs Hnd Hsmart Hwants Heq.
  unfold HttpGitClient_send_pack.
  rewrite Hrefs. cbn [bind]. rewrite Hwants, Hsmart. cbn [default from_option id].
  rewrite receive_pack_head_unchanged by now apply dict_eqb_lookup.
  cbn [is_nil andb]. now rewrite Heq.
Qed.

(** Reference discovery sends one request, without a body, and leaves the
    rest of the world alone. *)
Lemma discover_references_world self service url w refs caps self' w' :
  _discover_references self service url w = Ok (refs, caps, self', w') ->
  exists req,
    w' = {| graph_walker := graph_walker w; events := events w;
            requests := requests w ++ [req] |}
    /\ req_data req = None.
Proof.
  unfold _discover_references, perform.
  destruct (assert_slash url); cbn [bind]; try discriminate.
  destruct (dumb self) as [[|]|];
    (match goal with
     | |- bind (bind ?m _) _ = _ -> _ => destruct m as [resp| |]; cbn [bind]; try discriminate
     end;
     destruct (getcode resp =? 404); [discriminate|];
     destruct (negb (getcode resp =? 200)); [discriminate|];
     match goal with
     | |- bind ?m _ = _ -> _ => destruct m; cbn [bind]; try discriminate
     end;
     match goal with
     | |- bind ?m _ = _ -> _ => destruct m as [[[? ?] ?]| |]; cbn [bind]; try discriminate
     end;
     intros [= <- <- <- <-]; eexists; split; reflexivity).
Qed.

(** The head of a fetch, one [have] at a time. *)
Lemma upload_pack_have_no_data can_read have proto w :
  can_read (write_pkt_line proto (have_line have)) = false ->
  upload_pack_have can_read have proto w
  = Ok (Continue, write_pkt_line proto (have_line have), w).
Proof.
  intros Hcr. unfold upload_pack_have. fold (have_line have). now rewrite Hcr.
Qed.

Lemma upload_pack_have_ack can_read have proto w pkt rest sha status :
  can_read (write_pkt_line proto (have_line have)) = true ->
  incoming proto = Some pkt :: rest ->
  split 32 (rstrip_nl pkt) = [lit "ACK"; sha; status] ->
  upload_pack_have can_read have proto w
  = let proto' := {| incoming := rest; residue := residue proto;
                     outgoing := outgoing proto ++ [Pkt (have_line have)] |} in
    if mem status [lit "continue"; lit "common"] then Ok (Continue, proto', ack sha w)
    else if bytes_eqb status (lit "ready") then Ok (Break, proto', ack sha w)
    else match utf8_decode status with
         | Some t =>
             Raise (AssertionError
                      (Text (t ++ lit " not in ('continue', 'ready', 'common)")))
         | None => Raise UnicodeDecodeError
         end.
Proof.
  intros Hcr Hin Hparts. unfold upload_pack_have. fold (have_line have).
  rewrite Hcr. unfold read_pkt_line, write_pkt_line at 1.
  cbn [incoming residue outgoing]. rewrite Hin. cbn [bind]. rewrite Hparts.
  cbn [nth nth_error]. rewrite bytes_eqb_refl. reflexivity.
Qed.

(** C8, amended: when the want-selection function selects nothing, a
    fetch writes no [want] or [have] line, delivers no pack data and
    returns the advertised refs unchanged.  A traditional client writes
    one flush packet and nothing else; the HTTP client sends nothing
    beyond the body-less request of its reference discovery.  The two
    halves stand on their own: each asks only for its own advertisement
    to have been read. *)
Theorem fetch_pack_nothing_wanted (fuel : nat) (client : GitClient)
    (proto proto' : Protocol Obj) (can_read : Protocol Obj -> bool)
    (determine_wants : dict Sha1Sum -> option (list Sha1Sum)) (progress : bool)
    (w : world) (refs : dict Sha1Sum) (caps : option (list bytes))
    (self self' : HttpGitClient) (path : str)
    (http_determine_wants : dict Sha1Sum -> option (list Sha1Sum))
    (http_w http_w' : world) (http_refs : dict Sha1Sum) (http_caps : list bytes) :
  (_read_refs proto = Ok (refs, caps, proto') ->
   default [] (determine_wants refs) = [] ->
   TraditionalGitClient_fetch_pack fuel client proto can_read determine_wants progress w
   = Ok (refs, write_pkt_line proto' None, w)
   /\ outgoing (write_pkt_line proto' None) = outgoing proto ++ [Pkt None])
  /\ (_discover_references self (lit "git-upload-pack") (_get_url self path) http_w
      = Ok (http_refs, Some http_caps, self', http_w') ->
      default [] (http_determine_wants http_refs) = [] ->
      HttpGitClient_fetch_pack fuel self path http_determine_wants progress http_w
      = Ok (http_refs, self', http_w')
      /\ exists req,
           http_w' = {| graph_walker := graph_walker http_w; events := events http_w;
                        requests := requests http_w ++ [req] |}
           /\ req_data req = None).
Proof.
  split.
  - intros Hrefs Hwants. split.
    + unfold TraditionalGitClient_fetch_pack. rewrite Hrefs. cbn [bind].
      destruct (determine_wants refs) as [[|x l]|]; try reflexivity. discriminate Hwants.
    + apply read_refs_nodup in Hrefs as (_ & _ & Hout).
      cbn [write_pkt_line outgoing]. now rewrite Hout.
  - intros Hdisc Hhttp. split.
    + unfold HttpGitClient_fetch_pack. rewrite Hdisc. cbn [bind].
      destruct (http_determine_wants http_refs) as [[|x l]|]; try reflexivity.
      discriminate Hhttp.
    + eapply discover_references_world. exact Hdisc.
Qed.

End EngineFacts.

Lemma send_pack_unchanged_refs_witness :
  @TraditionalGitClient_send_pack receive_pack_server (GitClient_init true)
    (mkProtocol (sample_advert (lit "report-status ofs-delta")) [] [])
    (fun old_refs => Some old_refs) (fun _ _ => [lit "object"]) false
    (@mkWorld receive_pack_server [] [] [])
  = Ok ([(lit "refs/heads/master", sha_of 97)],
        write_pkt_line (mkProtocol [] [] []) None,
        @mkWorld receive_pack_server [] [] []).
Proof.
  apply (@send_pack_unchanged_refs receive_pack_server true
           (mkProtocol (sample_advert (lit "report-status ofs-delta")) [] [])
           (fun old_refs => Some old_refs) (fun _ _ => [lit "object"]) false
           (@mkWorld receive_pack_server [] [] [])
           [(lit "refs/heads/master", sha_of 97)]
           [(lit "refs/heads/master", sha_of 97)]
           [lit "report-status"; lit "ofs-delta"]).
  - reflexivity.
  - reflexivity.
  - reflexivity.
Defined.

(** C8, as stated, fails over HTTP: with nothing wanted the client returns
    the advertised refs, and the one request it has sent is the discovery
    request, which has no body: no flush packet was written. *)
Lemma http_fetch_pack_sends_no_flush :
  exists refs self' req,
    @HttpGitClient_fetch_pack upload_pack_server 5
      (HttpGitClient_init (lit "http://host/repo") None true) (lit "")
      (fun _ => Some []) false (@mkWorld upload_pack_server [] [] [])
    = Ok (refs, self', @mkWorld upload_pack_server [] [] [req])
    /\ refs = [(lit "refs/heads/master", sha_of 97)]
    /\ req_data req = None.
Proof.
  do 3 eexists. split; [vm_compute; reflexivity|]. split; reflexivity.
Qed.

Lemma fetch_pack_nothing_wanted_witness :
  (@TraditionalGitClient_fetch_pack upload_pack_server 5 (GitClient_init true)
     (mkProtocol (sample_advert (lit "ofs-delta")) [] []) (fun _ => true)
     (fun _ => Some []) false (@mkWorld upload_pack_server [sha_of 99] [] [])
   = Ok ([(lit "refs/heads/master", sha_of 97)],
         write_pkt_line (mkProtocol [] [] []) None,
         @mkWorld upload_pack_server [sha_of 99] [] [])
   /\ outgoing (write_pkt_line (@mkProtocol (@Obj upload_pack_server) [] [] []) None)
      = [] ++ [Pkt None])
  /\ (@HttpGitClient_fetch_pack upload_pack_server 5
        (HttpGitClient_init (lit "http://host/repo") None true) (lit "")
        (fun _ => None) false (@mkWorld upload_pack_server [sha_of 99] [] [])
      = Ok ([(lit "refs/heads/master", sha_of 97)],
            mkHttpGitClient (GitClient_init true) (lit "http://host/repo/") (Some false),
            @mkWorld upload_pack_server [sha_of 99] []
              [mkRequest (lit "http://host/repo/info/refs?service=git-upload-pack")
                 [(lit "Content-Type", lit "application/x-git-upload-pack-request")]
                 None])
      /\ exists req,
           @mkWorld upload_pack_server [sha_of 99] []
             [mkRequest (lit "http://host/repo/info/refs?service=git-upload-pack")
                [(lit "Content-Type", lit "application/x-git-upload-pack-request")]
                None]
           = @mkWorld upload_pack_server [sha_of 99] [] ([] ++ [req])
           /\ req_data req = None).
Proof.
  destruct (@fetch_pack_nothing_wanted upload_pack_server 5 (GitClient_init true)
              (mkProtocol (sample_advert (lit "ofs-delta")) [] []) (mkProtocol [] [] [])
              (fun _ => true) (fun _ => Some []) false
              (@mkWorld upload_pack_server [sha_of 99] [] [])
              [(lit "refs/heads/master", sha_of 97)] (Some [lit "ofs-delta"])
              (HttpGitClient_init (lit "http://host/repo") None true)
              (mkHttpGitClient (GitClient_init true) (lit "http://host/repo/") (Some false))
              (lit "") (fun _ => None)
              (@mkWorld upload_pack_server [sha_of 99] [] [])
              (@mkWorld upload_pack_server [sha_of 99] []
                 [mkRequest (lit "http://host/repo/info/refs?service=git-upload-pack")
                    [(lit "Content-Type", lit "application/x-git-upload-pack-request")]
                    None])
              [(lit "refs/heads/master", sha_of 97)] [lit "ofs-delta"])
    as [Htraditional Hhttp].
  split.
  - apply Htraditional; reflexivity.
  - apply Hhttp; [vm_compute; reflexivity | reflexivity].
Defined.

(** C3 holds on the traditional path and fails over HTTP.  The server
    here advertises [ofs-delta] alone.  [TraditionalGitClient.send_pack]
    drops [report-status] from what it sends; [HttpGitClient.send_pack]
    runs with the default list as it is, and the first ref-update line of
    its request still offers [report-status]. *)
Theorem http_send_pack_keeps_report_status :
  mem (lit "report-status") [lit "ofs-delta"] = false
  /\ (exists w,
        @TraditionalGitClient_send_pack receive_pack_server (GitClient_init true)
          (mkProtocol (sample_advert (lit "ofs-delta") ++ [None]) [] [])
          (fun _ => Some [(lit "refs/heads/master", sha_of 98)])
          (fun _ _ => [lit "object"]) false (@mkWorld receive_pack_server [] [] [])
        = Ok ([(lit "refs/heads/master", sha_of 98)],
              mkProtocol [] []
                [Pkt (Some (hex_bytes (sha_of 97) ++ [32] ++ hex_bytes (sha_of 98)
                            ++ lit " refs/heads/master" ++ [0]
                            ++ lit "ofs-delta side-band-64k"));
                 Pkt None; PackStream [lit "object"]],
              w))
  /\ (exists self' discovery url headers events,
        @HttpGitClient_send_pack receive_pack_server
          (HttpGitClient_init (lit "http://host/repo") None true) (lit "")
          (fun _ => Some [(lit "refs/heads/master", sha_of 98)])
          (fun _ _ => [lit "object"]) false (@mkWorld receive_pack_server [] [] [])
        = Ok ([(lit "refs/heads/master", sha_of 98)], self',
              @mkWorld receive_pack_server [] events
                [discovery;
                 mkRequest url headers
                   (Some [Pkt (Some (hex_bytes (sha_of 97) ++ [32]
                                     ++ hex_bytes (sha_of 98)
                                     ++ lit " refs/heads/master" ++ [0]
                                     ++ lit "report-status ofs-delta side-band-64k"));
                          Pkt None; PackStream [lit "object"]])])).
Proof.
  split; [reflexivity|]. split.
  - eexists. vm_compute. reflexivity.
  - do 5 eexists. vm_compute. reflexivity.
Qed.

(** C6 holds for a status that is text, and fails for one that is not:
    the message of the assertion error is built with
    [parts[2].decode('utf-8')], so that on ["ACK <id> \xff"] the decoding
    error is what is raised.  (On ["ACK <id> bogus"] it is the assertion
    error.) *)
Theorem upload_pack_have_undecodable_status :
  @upload_pack_have upload_pack_server (fun _ => true) (sha_of 99)
    (mkProtocol [Some (lit "ACK " ++ hex_bytes (sha_of 99) ++ [32; 255; 10])] [] [])
    (@mkWorld upload_pack_server [] [] [])
  = Raise UnicodeDecodeError
  /\ @upload_pack_have upload_pack_server (fun _ => true) (sha_of 99)
       (mkProtocol [Some (lit "ACK " ++ hex_bytes (sha_of 99) ++ lit " bogus" ++ [10])]
                   [] [])
       (@mkWorld upload_pack_server [] [] [])
     = Raise (AssertionError
                (Text (lit "bogus not in ('continue', 'ready', 'common)"))).
Proof.
  split; vm_compute; reflexivity.
Qed.

End ClientFacts.

(** * Further properties *)

(** ** More on the report-status parser *)

Module ReportStatusMore.
Import ReportStatusParser.

Lemma feed_app (l1 l2 : list (option bytes)) : forall self,
  feed self (l1 ++ l2) = bind (feed self l1) (fun self' => feed self' l2).
Proof.
  induction l1 as [|x l1 IH]; intros self; cbn [app feed bind]; [reflexivity|].
  destruct (handle_packet self x); cbn [bind]; auto.
Qed.

Lemma feed_data (pkts : list bytes) : forall self,
  _done self = false ->
  exists self', feed self (List.map Some pkts) = Ok self' /\ _done self' = false.
Proof.
  induction pkts as [|p pkts IH]; intros self Hd; cbn [List.map feed].
  - now exists self.
  - unfold handle_packet. rewrite Hd.
    destruct (_pack_status self); cbn [bind]; apply IH; reflexivity.
Qed.

(** Once the flush has been seen, whatever comes next is refused: a
    sequence of packets with anything at all after its first flush makes
    the parser raise the protocol error. *)
Theorem packet_after_flush_rejected (pkts : list bytes) (extra : option bytes)
    (more : list (option bytes)) :
  feed init (List.map Some pkts ++ None :: extra :: more)
  = Raise (GitProtocolError (Text (lit "received more data after status report"))).
Proof.
  rewrite feed_app.
  destruct (feed_data pkts init eq_refl) as (self & -> & Hd).
  cbn [bind feed]. unfold handle_packet at 1. rewrite Hd. cbn [bind].
  reflexivity.
Qed.

(** An unpack status other than ["unpack ok"] wins over everything the
    ref-status lines say: [check()] raises the pack-rejected error with the
    status the server sent. *)
Theorem check_pack_rejected (p0 : bytes) (pkts : list bytes) :
  strip p0 <> lit "unpack ok" ->
  exists st,
    feed init (Some p0 :: List.map Some pkts ++ [None]) = Ok st
    /\ check st = Raise (SendPackError (Bytes (strip p0))).
Proof.
  intros Hne. eexists. split; [apply ReportStatusFacts.feed_report|].
  unfold check. cbn [_pack_status].
  apply bytes_eqb_neq in Hne. now rewrite Hne.
Qed.

Lemma check_pack_rejected_witness :
  exists st,
    feed init (Some (lit "unpack index-pack abnormal exit" ++ [10])
               :: List.map Some [lit "ng refs/heads/a unpacker error" ++ [10]]
               ++ [None]) = Ok st
    /\ check st = Raise (SendPackError
                           (Bytes (strip (lit "unpack index-pack abnormal exit" ++ [10])))).
Proof.
  apply (check_pack_rejected (lit "unpack index-pack abnormal exit" ++ [10])
           [lit "ng refs/heads/a unpacker error" ++ [10]]).
  vm_compute. discriminate.
Defined.

(** A report of ["unpack ok"] in which every ref-status line starts with
    ["ok "] passes [check()] silently. *)
Theorem check_all_ok (p0 : bytes) (pkts : list bytes) :
  strip p0 = lit "unpack ok" ->
  forallb (fun p => startswith (lit "ok ") (strip p)) pkts = true ->
  exists st,
    feed init (Some p0 :: List.map Some pkts ++ [None]) = Ok st
    /\ check st = Ok tt.
Proof.
  intros Hp0 Hok. eexists. split; [apply ReportStatusFacts.feed_report|].
  unfold check. cbn [_pack_status _ref_status_ok].
  now rewrite Hp0, bytes_eqb_refl, Hok.
Qed.

Lemma check_all_ok_witness :
  exists st,
    feed init (Some (lit "unpack ok" ++ [10])
               :: List.map Some [lit "ok refs/heads/a" ++ [10]; lit "ok refs/tags/v1" ++ [10]]
               ++ [None]) = Ok st
    /\ check st = Ok tt.
Proof.
  apply (check_all_ok (lit "unpack ok" ++ [10])
           [lit "ok refs/heads/a" ++ [10]; lit "ok refs/tags/v1" ++ [10]]);
    reflexivity.
Defined.

End ReportStatusMore.

(** ** More on the index codec and the tree builder *)

Module IndexMore.
Import Index.

(** *** Paths *)

Lemma split1_none sep s : contains sep s = false -> split1 sep s = (s, None).
Proof.
  induction s as [|c s IH]; cbn [contains existsb split1]; [reflexivity|].
  intros H. apply orb_false_elim in H as [Hc Hs].
  rewrite Z.eqb_sym, Hc. unfold contains in IH. now rewrite (IH Hs).
Qed.


Lemma contains_rev c s : contains c (rev s) = contains c s.
Proof. apply existsb_rev. Qed.

(** Splitting what [pathjoin] has joined gives the two parts back, as long
    as the basename is not empty and has no slash in it. *)
Theorem pathsplit_pathjoin (dirname basename : bytes) :
  basename <> [] ->
  contains 47 basename = false ->
  pathsplit (pathjoin dirname basename) = (dirname, basename).
Proof.
  intros Hne Hslash. unfold pathjoin, pathsplit, rsplit1. cbn [List.filter].
  replace (bytes_eqb basename []) with false
    by (symmetry; now apply bytes_eqb_neq).
  destruct (bytes_eqb dirname []) eqn:Ed; cbn [negb join].
  - apply bytes_eqb_eq in Ed. subst dirname.
    now rewrite split1_none by now rewrite contains_rev.
  - rewrite !rev_app_distr. change (rev [47]) with [47].
    rewrite <- app_assoc. cbn [app].
    rewrite split1_at by now rewrite contains_rev.
    now rewrite !rev_involutive.
Qed.

Lemma pathsplit_pathjoin_witness :
  pathsplit (pathjoin (lit "src/dulwich") (lit "index.py"))
  = (lit "src/dulwich", lit "index.py").
Proof.
  apply (pathsplit_pathjoin (lit "src/dulwich") (lit "index.py")).
  - discriminate.
  - reflexivity.
Defined.


(** *** [add_tree] *)



(** *** [cleanup_mode] *)

Section CleanupModeFacts.
Variable S_IFGITLINK : Z.
Variable S_ISGITLINK : Z -> bool.

Lemma regular_mode_format x :
  S_IFMT (Z.lor 33188 (Z.land x 73)) = S_IFREG
  /\ Z.land (Z.lor 33188 (Z.land x 73)) 73 = Z.land x 73
  /\ Z.land (Z.lor 33188 (Z.land x 73)) 511 = Z.lor 420 (Z.land x 73).
Proof.
  unfold S_IFMT. rewrite !Z.land_lor_distr_l, <- !Z.land_assoc.
  change (Z.land 33188 61440) with 32768. change (Z.land 73 61440) with 0.
  change (Z.land 33188 73) with 0. change (Z.land 73 73) with 73.
  change (Z.land 33188 511) with 420. change (Z.land 73 511) with 73.
  rewrite Z.land_0_r, Z.lor_0_r, Z.lor_0_l. auto.
Qed.

Lemma regular_mode_rest x :
  Z.land (Z.lor 33188 (Z.land x 73)) (Z.lnot 73) = 33188.
Proof.
  rewrite Z.land_lor_distr_l, <- Z.land_assoc.
  change (Z.land 33188 (Z.lnot 73)) with 33188. change (Z.land 73 (Z.lnot 73)) with 0.
  now rewrite Z.land_0_r, Z.lor_0_r.
Qed.

(** A cleaned mode is the mode of a symlink, of a directory, of a gitlink,
    or a regular-file mode whose permission bits are 0o644 together with
    the execute bits of the input.  In this last case the execute bits
    (0o111) are those of the input and every other bit is that of
    0o100644: no other bit of the input survives. *)
Theorem cleanup_mode_shape (mode : Z) :
  let m := cleanup_mode S_IFGITLINK S_ISGITLINK mode in
  m = S_IFLNK \/ m = S_IFDIR \/ m = S_IFGITLINK
  \/ (S_IFMT m = S_IFREG
      /\ Z.land m 511 = Z.lor 420 (Z.land mode 73)
      /\ Z.land m 73 = Z.land mode 73
      /\ Z.land m (Z.lnot 73) = 33188).
Proof.
  unfold cleanup_mode.
  destruct (S_ISLNK mode); [now left|].
  destruct (S_ISDIR mode); [now right; left|].
  destruct (S_ISGITLINK mode); [now right; right; left|].
  right; right; right. change (Z.lor S_IFREG 420) with 33188.
  destruct (regular_mode_format mode) as (H1 & H2 & H3).
  pose proof (regular_mode_rest mode) as H4. auto.
Qed.

(** Cleaning a mode twice is cleaning it once, given what the imported
    gitlink test has to satisfy: the gitlink mode passes it, is neither a
    symlink nor a directory, and no regular file passes it. *)
Theorem cleanup_mode_idempotent (mode : Z) :
  S_ISGITLINK S_IFGITLINK = true ->
  S_ISLNK S_IFGITLINK = false ->
  S_ISDIR S_IFGITLINK = false ->
  (forall m, S_IFMT m = S_IFREG -> S_ISGITLINK m = false) ->
  cleanup_mode S_IFGITLINK S_ISGITLINK (cleanup_mode S_IFGITLINK S_ISGITLINK mode)
  = cleanup_mode S_IFGITLINK S_ISGITLINK mode.
Proof.
  intros Hgit Hnl Hnd Hreg. unfold cleanup_mode at 2 3.
  destruct (S_ISLNK mode); [reflexivity|].
  destruct (S_ISDIR mode); [reflexivity|].
  destruct (S_ISGITLINK mode).
  - unfold cleanup_mode. now rewrite Hnl, Hnd, Hgit.
  - change (Z.lor S_IFREG 420) with 33188.
    destruct (regular_mode_format mode) as (H1 & H2 & _).
    unfold cleanup_mode, S_ISLNK, S_ISDIR. rewrite H1, (Hreg _ H1), H2.
    reflexivity.
Qed.

End CleanupModeFacts.

Lemma cleanup_mode_idempotent_witness :
  cleanup_mode git_S_IFGITLINK git_S_ISGITLINK
    (cleanup_mode git_S_IFGITLINK git_S_ISGITLINK 33279)
  = cleanup_mode git_S_IFGITLINK git_S_ISGITLINK 33279.
Proof.
  apply (cleanup_mode_idempotent git_S_IFGITLINK git_S_ISGITLINK 33279).
  - reflexivity.
  - reflexivity.
  - reflexivity.
  - intros m Hm. unfold git_S_ISGITLINK. now rewrite Hm.
Defined.

(** *** Cache times *)

(** A time that fits 32 bits is read back as the pair of its seconds and
    nanoseconds; a time given as an [int] comes back as the pair of that
    number and zero. *)
Theorem cache_time_round_trip (f : wfile) (t : cache_time) (rest : bytes) :
  time_in_range t = true ->
  exists f',
    write_cache_time f t = Ok f'
    /\ length f' = (length f + 8)%nat
    /\ read_cache_time (mkRfile (f' ++ rest) (length f))
       = Ok (time_as_tuple t, mkRfile (f' ++ rest) (length f + 8)).
Proof.
  intros Hr.
  assert (Hs : exists secs nsecs,
             time_as_tuple t = TimeTuple secs nsecs
             /\ 0 <= secs < 2 ^ 32 /\ 0 <= nsecs < 2 ^ 32
             /\ write_cache_time f t = Ok (f ++ time_bytes (TimeTuple secs nsecs))).
  { destruct t as [t | secs nsecs]; cbn [time_in_range time_as_tuple] in *.
    - apply IndexFacts.u32_range in Hr. exists t, 0. repeat split; try lia.
      unfold write_cache_time. now rewrite !IndexFacts.pack_L_ok by lia.
    - apply andb_prop in Hr as [H1 H2].
      apply IndexFacts.u32_range in H1, H2. exists secs, nsecs.
      repeat split; try lia.
      unfold write_cache_time. now rewrite !IndexFacts.pack_L_ok by lia. }
  destruct Hs as (secs & nsecs & -> & Hsecs & Hnsecs & ->).
  eexists. split; [reflexivity|]. split.
  - cbn [time_bytes]. rewrite !length_app, !IndexFacts.be_bytes_length. lia.
  - apply (IndexFacts.read_cache_time_at _ _ secs nsecs rest); try assumption.
    rewrite <- app_assoc. apply drop_app_length.
Qed.

Lemma cache_time_round_trip_witness :
  exists f',
    write_cache_time (lit "DIRC") (TimeInt 1230680220) = Ok f'
    /\ length f' = (length (lit "DIRC") + 8)%nat
    /\ read_cache_time (mkRfile (f' ++ [1; 2; 3]) (length (lit "DIRC")))
       = Ok (time_as_tuple (TimeInt 1230680220),
             mkRfile (f' ++ [1; 2; 3]) (length (lit "DIRC") + 8)).
Proof.
  apply (cache_time_round_trip (lit "DIRC") (TimeInt 1230680220) [1; 2; 3]).
  reflexivity.
Defined.

(** *** Reading an index file *)

Lemma write_index_bytes entries :
  Forall wf_facts entries ->
  Z.of_nat (length entries) < 2 ^ 32 ->
  write_index [] entries
  = Ok (lit "DIRC" ++ be_bytes 4 2 ++ be_bytes 4 (Z.of_nat (length entries))
        ++ List.concat (List.map record_bytes entries)).
Proof.
  intros Hwf Hn. unfold write_index.
  rewrite !IndexFacts.pack_L_ok by lia. cbn [bind]. unfold fwrite.
  rewrite IndexFacts.write_entries_wf by assumption.
  cbn [app]. now rewrite <- !app_assoc.
Qed.

Lemma well_formed_all entries :
  forallb well_formed entries = true -> Forall wf_facts entries.
Proof.
  intros Hwf. apply List.Forall_forall. intros e He.
  apply IndexFacts.well_formed_facts. rewrite forallb_forall in Hwf. now apply Hwf.
Qed.

Lemma read_index_at entries version trailer :
  Forall wf_facts entries ->
  Z.of_nat (length entries) < 2 ^ 32 ->
  0 <= version < 2 ^ 32 ->
  let file := lit "DIRC" ++ (be_bytes 4 version ++ be_bytes 4 (Z.of_nat (length entries)))
              ++ List.concat (List.map record_bytes entries) ++ trailer in
  read_index (mkRfile file 0)
  = if (version =? 1) || (version =? 2)
    then Ok (List.map (fun e => (fst e, stored (snd e))) entries,
             mkRfile file (12 + length (List.concat (List.map record_bytes entries))))
    else Raise (AssertionError NoArg).
Proof.
  intros Hwf Hn Hv file. subst file.
  set (recs := List.concat (List.map record_bytes entries)).
  unfold read_index.
  rewrite (IndexFacts.fread_at _ 0 (lit "DIRC") _ 4 eq_refl) by reflexivity.
  rewrite bytes_eqb_refl. cbn [negb].
  rewrite (IndexFacts.fread_at _ _ (be_bytes 4 version
                                    ++ be_bytes 4 (Z.of_nat (length entries)))
             (recs ++ trailer) (4 * 2))
    by reflexivity.
  rewrite IndexFacts.unpack_LL_app by apply IndexFacts.be_bytes_length.
  cbn [bind]. rewrite !IndexFacts.be_value_4 by lia.
  destruct ((version =? 1) || (version =? 2)); cbn [negb]; [|reflexivity].
  rewrite Nat2Z.id.
  rewrite (IndexFacts.read_entries_wf _ entries _ trailer Hwf).
  - reflexivity.
  - reflexivity.
Qed.

(** The reader takes format version 1 as it takes version 2, refuses
    every other version, and leaves alone whatever follows the entries:
    a file written by [write_index], with its version field replaced and
    with any data appended, is read back entry for entry (flags masked)
    and the reader stops where the entries end. *)
Theorem read_index_versions (entries : list entry) (version : Z) (trailer : bytes)
    (out : wfile) :
  forallb well_formed entries = true ->
  Z.of_nat (length entries) < 2 ^ 32 ->
  0 <= version < 2 ^ 32 ->
  write_index [] entries = Ok out ->
  read_index (mkRfile (firstn 4 out ++ be_bytes 4 version ++ skipn 8 out ++ trailer) 0)
  = if (version =? 1) || (version =? 2)
    then Ok (List.map (fun e => (fst e, stored (snd e))) entries,
             mkRfile (firstn 4 out ++ be_bytes 4 version ++ skipn 8 out ++ trailer)
                     (length out))
    else Raise (AssertionError NoArg).
Proof.
  intros Hwf Hn Hv Hout. apply well_formed_all in Hwf.
  rewrite write_index_bytes in Hout by assumption. injection Hout as <-.
  exact (read_index_at entries version trailer Hwf Hn Hv).
Qed.

Lemma read_index_versions_witness :
  read_index
    (mkRfile (firstn 4 (lit "DIRC" ++ be_bytes 4 2 ++ be_bytes 4 2
                        ++ List.concat (List.map record_bytes sample_index))
              ++ be_bytes 4 1
              ++ skipn 8 (lit "DIRC" ++ be_bytes 4 2 ++ be_bytes 4 2
                          ++ List.concat (List.map record_bytes sample_index))
              ++ lit "TREE") 0)
  = if (1 =? 1) || (1 =? 2)
    then Ok (List.map (fun e => (fst e, stored (snd e))) sample_index,
             mkRfile (firstn 4 (lit "DIRC" ++ be_bytes 4 2 ++ be_bytes 4 2
                                ++ List.concat (List.map record_bytes sample_index))
                      ++ be_bytes 4 1
                      ++ skipn 8 (lit "DIRC" ++ be_bytes 4 2 ++ be_bytes 4 2
                                  ++ List.concat (List.map record_bytes sample_index))
                      ++ lit "TREE")
                     (length (lit "DIRC" ++ be_bytes 4 2 ++ be_bytes 4 2
                              ++ List.concat (List.map record_bytes sample_index))))
    else Raise (AssertionError NoArg).
Proof.
  apply (read_index_versions sample_index 1 (lit "TREE")).
  - reflexivity.
  - reflexivity.
  - lia.
  - vm_compute. reflexivity.
Defined.

Lemma dict_fold_lookup {V} (xs : list (bytes * V)) : forall d k,
  dict_get (fold_left (fun ret x => dict_set ret (fst x) (snd x)) xs d) k
  = match dict_get (fold_left (fun ret x => dict_set ret (fst x) (snd x)) xs []) k with
    | Some v => Some v
    | None => dict_get d k
    end.
Proof.
  induction xs as [|[k' v'] xs IH]; intros d k; cbn [fold_left fst snd].
  - reflexivity.
  - rewrite IH, (IH (dict_set [] k' v')). rewrite !dict_get_set.
    cbn [dict_get].
    match goal with
    | |- context [match ?x with Some _ => _ | None => _ end] => destruct x
    end; [reflexivity|].
    now destruct (bytes_eqb k' k).
Qed.

Lemma dict_fold_nodup {V} (xs : list (bytes * V)) : forall d,
  List.NoDup (dict_keys d) ->
  List.NoDup (dict_keys (fold_left (fun ret x => dict_set ret (fst x) (snd x)) xs d)).
Proof.
  induction xs as [|x xs IH]; intros d Hd; cbn [fold_left]; [assumption|].
  apply IH. now apply ClientFacts.dict_set_nodup.
Qed.

Lemma read_back_lookup entries name :
  dict_get (fold_left (fun ret x => dict_set ret (fst x) (snd x))
                      (List.map (fun e : entry => (fst e, stored (snd e))) entries) [])
           name
  = option_map stored (last_entry entries name).
Proof.
  induction entries as [|e entries IH]; cbn [List.map fold_left last_entry fst snd];
    [reflexivity|].
  rewrite dict_fold_lookup, IH.
  destruct (last_entry entries name); cbn [option_map]; [reflexivity|].
  cbn [dict_set dict_get]. now destruct (bytes_eqb (fst e) name).
Qed.

(** When a path occurs more than once among the entries written, the
    dictionary read back has it once, with the fields of the last entry
    written for it. *)
Theorem read_index_dict_last_wins (entries : list entry) :
  forallb well_formed entries = true ->
  Z.of_nat (length entries) < 2 ^ 32 ->
  exists out ret f,
    write_index [] entries = Ok out
    /\ read_index_dict (mkRfile out 0) = Ok (ret, f)
    /\ List.NoDup (dict_keys ret)
    /\ forall name, dict_get ret name = option_map stored (last_entry entries name).
Proof.
  intros Hwf Hn. apply well_formed_all in Hwf.
  pose proof (read_index_at entries 2 [] Hwf Hn ltac:(lia)) as Hread.
  cbn zeta in Hread. change ((2 =? 1) || (2 =? 2)) with true in Hread.
  rewrite app_nil_r in Hread. rewrite <- app_assoc in Hread.
  do 3 eexists. split; [now apply write_index_bytes|].
  unfold read_index_dict. rewrite Hread. cbn [bind].
  split; [reflexivity|]. split.
  - apply dict_fold_nodup. constructor.
  - intros name. apply read_back_lookup.
Qed.

Lemma read_index_dict_last_wins_witness :
  exists out ret f,
    write_index [] (sample_index ++ sample_index) = Ok out
    /\ read_index_dict (mkRfile out 0) = Ok (ret, f)
    /\ List.NoDup (dict_keys ret)
    /\ forall name,
         dict_get ret name
         = option_map stored (last_entry (sample_index ++ sample_index) name).
Proof.
  apply (read_index_dict_last_wins (sample_index ++ sample_index)); reflexivity.
Defined.

(** *** The [Index] object *)

Lemma dict_set_length {V} (d : dict V) k v :
  length (dict_set d k v)
  = match dict_get d k with
    | Some _ => length d
    | None => S (length d)
    end.
Proof.
  induction d as [|[k' v'] d IH]; cbn [dict_set dict_get length]; [reflexivity|].
  destruct (bytes_eqb k' k); cbn [length]; [reflexivity|].
  rewrite IH. now destruct (dict_get d k).
Qed.

(** Setting an entry: the path then has this entry, every other path has
    what it had, the index grows by one exactly when the path is new, and
    paths stay unique. *)
Theorem index_setitem (_byname : dict cache_value) (name : str) (x : cache_value) :
  List.NoDup (dict_keys _byname) ->
  __getitem__ (__setitem__ _byname name x) name = Ok x
  /\ (forall other, other <> name ->
        __getitem__ (__setitem__ _byname name x) other = __getitem__ _byname other)
  /\ __len__ (__setitem__ _byname name x)
     = match dict_get _byname name with
       | Some _ => __len__ _byname
       | None => S (__len__ _byname)
       end
  /\ List.NoDup (dict_keys (__setitem__ _byname name x)).
Proof.
  intros Hnd. unfold __getitem__, __setitem__, __len__.
  rewrite dict_get_set_eq. split; [reflexivity|]. split; [|split].
  - intros other Hne. rewrite dict_get_set_ne by congruence. reflexivity.
  - apply dict_set_length.
  - now apply ClientFacts.dict_set_nodup.
Qed.

Lemma index_setitem_witness :
  __getitem__ (__setitem__ sample_index (lit "abc") sample_value) (lit "abc")
  = Ok sample_value
  /\ (forall other, other <> lit "abc" ->
        __getitem__ (__setitem__ sample_index (lit "abc") sample_value) other
        = __getitem__ sample_index other)
  /\ __len__ (__setitem__ sample_index (lit "abc") sample_value)
     = match dict_get sample_index (lit "abc") with
       | Some _ => __len__ sample_index
       | None => S (__len__ sample_index)
       end
  /\ List.NoDup (dict_keys (__setitem__ sample_index (lit "abc") sample_value)).
Proof.
  apply (index_setitem sample_index (lit "abc") sample_value).
  apply List.NoDup_cons.
  - intros [E | []]. vm_compute in E. discriminate E.
  - apply List.NoDup_cons; [intros [] | apply List.NoDup_nil].
Defined.

Lemma dict_del_none {V} (d : dict V) k :
  dict_del d k = None <-> dict_get d k = None.
Proof.
  induction d as [|[k' v'] d IH]; cbn [dict_del dict_get]; [tauto|].
  destruct (bytes_eqb k' k); [split; discriminate|].
  destruct (dict_del d k); cbn [option_map]; split; intros E;
    try discriminate; try reflexivity.
  - apply IH in E. discriminate.
  - now apply IH.
Qed.

Lemma dict_del_facts {V} (d d' : dict V) k :
  List.NoDup (dict_keys d) ->
  dict_del d k = Some d' ->
  dict_get d' k = None
  /\ (forall other, other <> k -> dict_get d' other = dict_get d other)
  /\ S (length d') = length d
  /\ List.NoDup (dict_keys d').
Proof.
  revert d'. induction d as [|[k' v'] d IH]; intros d' Hnd;
    cbn [dict_del dict_get dict_keys List.map fst length] in *; [discriminate|].
  apply List.NoDup_cons_iff in Hnd as [Hk Hnd].
  destruct (bytes_eqb k' k) eqn:E.
  - intros [= <-]. apply bytes_eqb_eq in E. subst k'. split; [|split; [|split]].
    + now apply ClientFacts.dict_get_none.
    + intros other Hne. destruct (bytes_eqb k other) eqn:E'; [|reflexivity].
      apply bytes_eqb_eq in E'. congruence.
    + reflexivity.
    + assumption.
  - destruct (dict_del d k) as [d0|] eqn:Edel; cbn [option_map]; [|discriminate].
    intros [= <-]. destruct (IH d0 Hnd eq_refl) as (H1 & H2 & H3 & H4).
    cbn [dict_get dict_keys List.map fst length]. rewrite E.
    split; [assumption|]. split; [|split].
    + intros other Hne. destruct (bytes_eqb k' other); [reflexivity|]. now apply H2.
    + now rewrite H3.
    + apply List.NoDup_cons; [|assumption].
      intros Hin. apply Hk. apply ClientFacts.dict_get_key in Hin as [v Hv].
      assert (k' <> k) by now apply bytes_eqb_neq.
      rewrite H2 in Hv by assumption.
      apply ClientFacts.dict_get_some_in in Hv.
      change k' with (fst (k', v)). now apply in_map.
Qed.

(** Deleting a path that is not in the index raises [KeyError]; deleting
    one that is there leaves an index in which it raises [KeyError], one
    entry shorter, with every other path as before. *)
Theorem index_delitem (_byname : dict cache_value) (name : str) :
  List.NoDup (dict_keys _byname) ->
  match __getitem__ _byname name with
  | Ok _ =>
      exists d,
        __delitem__ _byname name = Ok d
        /\ __getitem__ d name = Raise KeyError
        /\ (forall other, other <> name -> __getitem__ d other = __getitem__ _byname other)
        /\ S (__len__ d) = __len__ _byname
        /\ List.NoDup (dict_keys d)
  | _ => __delitem__ _byname name = Raise KeyError
  end.
Proof.
  intros Hnd. unfold __getitem__, __delitem__, __len__.
  destruct (dict_get _byname name) as [v|] eqn:Eg.
  - destruct (dict_del _byname name) as [d|] eqn:Ed.
    + destruct (dict_del_facts _ _ _ Hnd Ed) as (H1 & H2 & H3 & H4).
      exists d. rewrite H1. repeat split; try assumption.
      intros other Hne. now rewrite H2.
    + apply dict_del_none in Ed. congruence.
  - apply dict_del_none in Eg. now rewrite Eg.
Qed.

Lemma index_delitem_witness :
  match __getitem__ sample_index (lit "abc") with
  | Ok _ =>
      exists d,
        __delitem__ sample_index (lit "abc") = Ok d
        /\ __getitem__ d (lit "abc") = Raise KeyError
        /\ (forall other, other <> lit "abc" ->
              __getitem__ d other = __getitem__ sample_index other)
        /\ S (__len__ d) = __len__ sample_index
        /\ List.NoDup (dict_keys d)
  | _ => __delitem__ sample_index (lit "abc") = Raise KeyError
  end.
Proof.
  apply (index_delitem sample_index (lit "abc")).
  apply List.NoDup_cons.
  - intros [E | []]. vm_compute in E. discriminate E.
  - apply List.NoDup_cons; [intros [] | apply List.NoDup_nil].
Defined.

(** After [update], a path of the entries handed in has the entry given
    for it, and every other path has what it had. *)
Theorem index_update (_byname entries : dict cache_value) (name : str) :
  List.NoDup (dict_keys entries) ->
  __getitem__ (update _byname entries) name
  = match dict_get entries name with
    | Some x => Ok x
    | None => __getitem__ _byname name
    end.
Proof.
  intros Hnd. unfold __getitem__, update, __setitem__.
  rewrite dict_fold_lookup.
  rewrite (IndexFacts.dict_of_distinct entries []) by exact Hnd.
  cbn [app]. now destruct (dict_get entries name).
Qed.

Lemma index_update_witness :
  __getitem__ (update [] sample_index) (lit "abc")
  = match dict_get sample_index (lit "abc") with
    | Some x => Ok x
    | None => __getitem__ [] (lit "abc")
    end.
Proof.
  apply (index_update [] sample_index (lit "abc")).
  apply List.NoDup_cons.
  - intros [E | []]. vm_compute in E. discriminate E.
  - apply List.NoDup_cons; [intros [] | apply List.NoDup_nil].
Defined.

(** *** Trees of flat lists of blobs *)

Lemma pathsplit_flat (path : bytes) :
  contains 47 path = false -> pathsplit path = ([], path).
Proof.
  intros H. unfold pathsplit, rsplit1.
  now rewrite split1_none by now rewrite contains_rev.
Qed.

Lemma add_blobs_flat blobs : forall d,
  forallb flat_blob blobs = true ->
  add_blobs blobs {| heap := [d]; trees := {[ [] := 0%nat ]} |}
  = Ok {| heap := [root_dict blobs d]; trees := {[ [] := 0%nat ]} |}.
Proof.
  induction blobs as [|[[path sha] mode] blobs IH]; intros d Hflat;
    cbn [add_blobs root_dict fold_left]; [reflexivity|].
  cbn [forallb] in Hflat. apply andb_prop in Hflat as [Hb Hflat].
  unfold flat_blob in Hb. cbn [fst] in Hb.
  unfold encoded_path, leaf_of. cbn [fst snd].
  destruct (utf8_encode path) as [p|]; [|discriminate].
  apply negb_true_iff in Hb. rewrite (pathsplit_flat p Hb).
  cbn [length add_tree trees]. rewrite lookup_singleton_eq. cbn [bind heap trees].
  change (heap_set [d] 0 p (Leaf mode sha)) with [dict_set d p (Leaf mode sha)].
  cbn [default from_option id]. now apply IH.
Qed.

Lemma dict_set_leaves (d : dict node) k x :
  Forall (fun kv => is_leaf (snd kv)) d -> is_leaf x ->
  Forall (fun kv => is_leaf (snd kv)) (dict_set d k x).
Proof.
  intros Hd Hx. induction d as [|[k' v'] d IH]; cbn [dict_set].
  - now constructor.
  - apply Forall_cons in Hd as [Hv Hd].
    destruct (bytes_eqb k' k); constructor; auto.
Qed.

Lemma root_dict_facts blobs : forall d,
  Forall (fun kv => is_leaf (snd kv)) d -> List.NoDup (dict_keys d) ->
  Forall (fun kv => is_leaf (snd kv)) (root_dict blobs d)
  /\ List.NoDup (dict_keys (root_dict blobs d))
  /\ forall name,
       dict_get (root_dict blobs d) name
       = match last_blob blobs name with
         | Some x => Some (Leaf (fst x) (snd x))
         | None => dict_get d name
         end.
Proof.
  induction blobs as [|blob blobs IH]; intros d Hl Hnd;
    cbn [root_dict fold_left last_blob]; [auto|].
  destruct (IH (dict_set d (encoded_path blob) (leaf_of blob))) as (H1 & H2 & H3).
  - now apply dict_set_leaves.
  - now apply ClientFacts.dict_set_nodup.
  - split; [exact H1|]. split; [exact H2|].
    intros name. unfold root_dict in H3. rewrite H3.
    destruct (last_blob blobs name); [reflexivity|].
    rewrite dict_get_set. now destruct (bytes_eqb (encoded_path blob) name).
Qed.

Lemma tree_of_lookup (d : dict node) : forall (t : Tree) (name : bytes),
  Forall (fun kv => is_leaf (snd kv)) d -> List.NoDup (dict_keys d) ->
  tree_of d t !! name
  = match dict_get d name with
    | Some (Leaf mode sha) => Some (mode, sha)
    | _ => t !! name
    end.
Proof.
  induction d as [|[k x] d IH]; intros t name Hl Hnd;
    cbn [tree_of fold_left dict_get fst snd]; [reflexivity|].
  apply Forall_cons in Hl as [Hx Hl]. cbn [snd] in Hx.
  cbn [dict_keys List.map fst] in Hnd. apply List.NoDup_cons_iff in Hnd as [Hk Hnd].
  destruct x as [mode sha|]; [|contradiction].
  fold (tree_of d (<[k := (mode, sha)]> t)). rewrite (IH _ _ Hl Hnd).
  destruct (bytes_eqb k name) eqn:E.
  - apply bytes_eqb_eq in E. subst name.
    rewrite (ClientFacts.dict_get_none d k Hk). apply lookup_insert_eq.
  - apply bytes_eqb_neq in E.
    destruct (dict_get d name) as [[m s|]|]; try reflexivity;
      now apply lookup_insert_ne.
Qed.

Lemma build_tree_flat (tree_id : Tree -> Sha1Sum) (d : dict node) fuel object_store :
  Forall (fun kv => is_leaf (snd kv)) d ->
  build_tree tree_id {| heap := [d]; trees := {[ [] := 0%nat ]} |} (S fuel) []
             object_store
  = Ok (tree_id (tree_of d ∅), object_store ++ [tree_of d ∅]).
Proof.
  intros Hleaves.
  cbn [build_tree trees heap]. rewrite lookup_singleton_eq.
  change ([d] !!! 0%nat) with d.
  match goal with
  | |- bind (?f d ∅ object_store) _ = _ => set (items := f)
  end.
  assert (Hitems : forall l t s,
             Forall (fun kv => is_leaf (snd kv)) l ->
             items l t s = Ok (tree_of l t, s)).
  { induction l as [|[k [mode sha|a]] l IH]; intros t s Hl.
    - reflexivity.
    - subst items. cbn [tree_of fold_left fst snd]. apply IH.
      now apply Forall_cons in Hl as [_ Hl].
    - apply Forall_cons in Hl as [[] _]. }
  now rewrite Hitems.
Qed.

(** A list of blobs whose paths have no slash becomes a single tree: the
    tree that [commit_tree] adds to the object store, and whose hash it
    returns, has for each path the mode and hash of the last blob given
    for that path, and nothing else. *)
Theorem commit_tree_flat (tree_id : Tree -> Sha1Sum) (fuel : nat)
    (object_store : list Tree) (blobs : list (str * Sha1Sum * Z)) :
  forallb flat_blob blobs = true ->
  (1 <= fuel)%nat ->
  exists tree : Tree,
    commit_tree tree_id fuel object_store blobs
    = Ok (tree_id tree, object_store ++ [tree])
    /\ forall name : bytes, tree !! name = last_blob blobs name.
Proof.
  intros Hflat Hfuel. destruct fuel as [|fuel]; [lia|].
  destruct (root_dict_facts blobs []) as (Hl & Hnd & Hget);
    [constructor | constructor |].
  exists (tree_of (root_dict blobs []) ∅). split.
  - unfold commit_tree. rewrite add_blobs_flat by assumption. cbn [bind].
    now rewrite build_tree_flat.
  - intros name. rewrite tree_of_lookup by assumption. rewrite Hget.
    rewrite lookup_empty. cbn [dict_get].
    now destruct (last_blob blobs name) as [[m s]|].
Qed.

Lemma commit_tree_flat_witness :
  exists tree : Tree,
    commit_tree sample_tree_id 1 []
      [(lit "README", sha_of 1, 33188); (lit "setup.py", sha_of 2, 33261);
       (lit "README", sha_of 3, 33188)]
    = Ok (sample_tree_id tree, [] ++ [tree])
    /\ forall name : bytes,
         tree !! name
         = last_blob [(lit "README", sha_of 1, 33188); (lit "setup.py", sha_of 2, 33261);
                      (lit "README", sha_of 3, 33188)] name.
Proof.
  apply (commit_tree_flat sample_tree_id 1 []
           [(lit "README", sha_of 1, 33188); (lit "setup.py", sha_of 2, 33261);
            (lit "README", sha_of 3, 33188)]).
  - reflexivity.
  - lia.
Defined.

(** *** [write_index_dict] *)

Lemma str_leb_total a : forall c, str_leb a c = true \/ str_leb c a = true.
Proof.
  induction a as [|x a IH]; intros [|y c]; cbn [str_leb]; auto.
  destruct (Z.ltb_spec x y), (Z.ltb_spec y x), (Z.eqb_spec x y), (Z.eqb_spec y x);
    cbn [orb andb]; auto; try lia.
Qed.

Lemma str_leb_trans a : forall c e,
  str_leb a c = true -> str_leb c e = true -> str_leb a e = true.
Proof.
  induction a as [|x a IH]; intros [|y c] [|z e]; cbn [str_leb]; auto; try discriminate.
  destruct (Z.ltb_spec x y), (Z.ltb_spec y z), (Z.ltb_spec x z),
    (Z.eqb_spec x y), (Z.eqb_spec y z), (Z.eqb_spec x z);
    cbn [orb andb]; auto; try lia; try discriminate.
  apply IH.
Qed.

Lemma str_leb_antisym a : forall c,
  str_leb a c = true -> str_leb c a = true -> a = c.
Proof.
  induction a as [|x a IH]; intros [|y c]; cbn [str_leb]; auto; try discriminate.
  destruct (Z.ltb_spec x y), (Z.ltb_spec y x), (Z.eqb_spec x y), (Z.eqb_spec y x);
    cbn [orb andb]; try lia; try discriminate.
  intros H1 H2. subst. f_equal. now apply IH.
Qed.

Lemma insert_sorted_perm x l : Permutation (insert_sorted x l) (x :: l).
Proof.
  induction l as [|y l IH]; cbn [insert_sorted]; [reflexivity|].
  destruct (str_leb x y); [reflexivity|].
  rewrite IH. apply perm_swap.
Qed.

Lemma sorted_perm l : Permutation (sorted l) l.
Proof.
  induction l as [|x l IH]; cbn [sorted]; [reflexivity|].
  rewrite insert_sorted_perm. now constructor.
Qed.

Lemma insert_sorted_Sorted x l : Sorted str_le l -> Sorted str_le (insert_sorted x l).
Proof.
  induction l as [|y l IH]; cbn [insert_sorted]; intros Hs.
  - repeat constructor.
  - destruct (str_leb x y) eqn:E.
    + constructor; [assumption|]. now constructor.
    + apply Sorted_inv in Hs as [Hs Hhd]. constructor; [now apply IH|].
      assert (Hyx : str_le y x).
      { destruct (str_leb_total x y) as [H|H]; [congruence | exact H]. }
      destruct l as [|z l]; cbn [insert_sorted].
      * now constructor.
      * destruct (str_leb x z); constructor; [assumption|].
        now apply HdRel_inv in Hhd.
Qed.

Lemma sorted_Sorted l : Sorted str_le (sorted l).
Proof.
  induction l as [|x l IH]; cbn [sorted]; [constructor|].
  now apply insert_sorted_Sorted.
Qed.

Lemma sorted_of_perm l l' : Permutation l l' -> sorted l = sorted l'.
Proof.
  intros Hp.
  apply (@Sorted_unique _ str_le).
  - intros a c e. apply str_leb_trans.
  - intros a c. apply str_leb_antisym.
  - apply sorted_Sorted.
  - apply sorted_Sorted.
  - now rewrite !sorted_perm.
Qed.

(** The entries that [write_index_dict] hands to [write_index]. *)
Lemma listing_facts (d : dict cache_value) (ks : list str) :
  (forall k, In k ks -> In k (dict_keys d)) ->
  let l := List.fold_right
             (fun name acc => match dict_get d name with
                              | Some v => (name, v) :: acc
                              | None => acc
                              end) [] ks in
  List.map fst l = ks
  /\ (forall e, In e l -> In e d)
  /\ (forall k v, In k ks -> dict_get d k = Some v -> In (k, v) l).
Proof.
  induction ks as [|k ks IH]; intros Hks; cbn [List.fold_right].
  - cbn. repeat split; try contradiction.
  - destruct IH as (H1 & H2 & H3); [intros k0 Hk0; apply Hks; now right|].
    destruct (ClientFacts.dict_get_key d k) as [v Hv]; [apply Hks; now left|].
    rewrite Hv. cbn [List.map fst]. split; [now rewrite H1|]. split.
    + intros e [<- | He]; [now apply ClientFacts.dict_get_some_in | now apply H2].
    + intros k0 v0 [<- | Hk0] Hg; [|right; now apply H3].
      left. rewrite Hv in Hg. injection Hg as ->. reflexivity.
Qed.

Lemma dict_get_perm {V} (d d' : dict V) :
  List.NoDup (dict_keys d) -> Permutation d d' ->
  forall k, dict_get d k = dict_get d' k.
Proof.
  intros Hnd Hp k.
  assert (Hnd' : List.NoDup (dict_keys d')).
  { eapply Permutation_NoDup; [|exact Hnd]. now apply Permutation_map. }
  destruct (dict_get d k) as [v|] eqn:E.
  - symmetry. apply IndexFacts.dict_get_in; [assumption|].
    eapply Permutation_in; [exact Hp|]. now apply ClientFacts.dict_get_some_in.
  - symmetry. apply ClientFacts.dict_get_none. intros Hin.
    apply ClientFacts.dict_get_key in Hin as [v Hv].
    apply ClientFacts.dict_get_some_in in Hv.
    apply (Permutation_in _ (Permutation_sym Hp)) in Hv.
    apply (IndexFacts.dict_get_in _ _ _ Hnd) in Hv. congruence.
Qed.

(** What [write_index_dict] writes does not depend on the order in which
    the entries went into the dictionary. *)
Theorem write_index_dict_order (f : wfile) (d d' : dict cache_value) :
  List.NoDup (dict_keys d) ->
  Permutation d d' ->
  write_index_dict f d = write_index_dict f d'.
Proof.
  intros Hnd Hp. unfold write_index_dict.
  rewrite (sorted_of_perm (dict_keys d) (dict_keys d'))
    by now apply Permutation_map.
  f_equal. induction (sorted (dict_keys d')) as [|k ks IH]; cbn [List.fold_right];
    [reflexivity|].
  now rewrite IH, (dict_get_perm d d' Hnd Hp).
Qed.

Lemma write_index_dict_order_witness :
  write_index_dict [] sample_index = write_index_dict [] (rev sample_index).
Proof.
  apply (write_index_dict_order [] sample_index (rev sample_index)).
  - apply List.NoDup_cons.
    + intros [E | []]. vm_compute in E. discriminate E.
    + apply List.NoDup_cons; [intros [] | apply List.NoDup_nil].
  - apply Permutation_rev.
Defined.

(** An index written with [write_index_dict] and read with
    [read_index_dict] comes back with its paths in ascending order, each
    with the entry the dictionary had for it (flags masked). *)
Theorem write_index_dict_read_back (d : dict cache_value) :
  forallb well_formed d = true ->
  List.NoDup (dict_keys d) ->
  Z.of_nat (length d) < 2 ^ 32 ->
  exists out ret f,
    write_index_dict [] d = Ok out
    /\ read_index_dict (mkRfile out 0) = Ok (ret, f)
    /\ Sorted str_le (dict_keys ret)
    /\ forall name, dict_get ret name = option_map stored (dict_get d name).
Proof.
  intros Hwf Hnd Hn. unfold write_index_dict.
  pose proof (sorted_perm (dict_keys d)) as Hperm.
  destruct (listing_facts d (sorted (dict_keys d))) as (Hkeys & Hsub & Hall).
  { intros k Hk. eapply Permutation_in; [exact Hperm | exact Hk]. }
  match type of Hkeys with List.map fst ?x = _ => set (l := x) in * end.
  assert (Hnd_l : List.NoDup (List.map fst l)).
  { rewrite Hkeys. eapply Permutation_NoDup; [|exact Hnd].
    now apply Permutation_sym. }
  assert (Hwf_l : Forall wf_facts l).
  { apply List.Forall_forall. intros e He. apply IndexFacts.well_formed_facts.
    rewrite forallb_forall in Hwf. now apply Hwf, Hsub. }
  assert (Hlen : length l = length d).
  { rewrite <- (length_map fst l), Hkeys.
    transitivity (length (dict_keys d)); [now apply Permutation_length|].
    unfold dict_keys. apply length_map. }
  assert (Hn_l : Z.of_nat (length l) < 2 ^ 32) by (rewrite Hlen; exact Hn).
  assert (Hv2 : 0 <= 2 < 2 ^ 32) by lia.
  pose proof (read_index_at l 2 [] Hwf_l Hn_l Hv2) as Hread.
  cbn zeta in Hread. change ((2 =? 1) || (2 =? 2)) with true in Hread.
  rewrite app_nil_r in Hread. rewrite <- app_assoc in Hread.
  do 3 eexists. split; [apply write_index_bytes; assumption|].
  unfold read_index_dict. rewrite Hread. cbn [bind].
  split; [reflexivity|].
  rewrite (IndexFacts.dict_of_distinct _ [])
    by (cbn [dict_keys List.map app]; now rewrite List.map_map).
  cbn [app]. split.
  - unfold dict_keys. rewrite List.map_map. cbn [fst].
    pose proof (sorted_Sorted (dict_keys d)) as Hs. rewrite <- Hkeys in Hs.
    exact Hs.
  - intros name.
    assert (Hl : dict_get l name = dict_get d name).
    { destruct (dict_get d name) as [v|] eqn:E.
      - apply IndexFacts.dict_get_in; [exact Hnd_l|]. apply Hall; [|exact E].
        eapply Permutation_in; [apply Permutation_sym, Hperm|].
        apply ClientFacts.dict_get_some_in in E.
        change name with (fst (name, v)). now apply in_map.
      - apply ClientFacts.dict_get_none. fold (dict_keys l).
        unfold dict_keys. rewrite Hkeys. intros Hin.
        apply (Permutation_in _ Hperm) in Hin.
        apply ClientFacts.dict_get_key in Hin as [v Hv]. congruence. }
    rewrite <- Hl. clear.
    induction l as [|[k v] l IH]; cbn [List.map dict_get fst snd option_map];
      [reflexivity|].
    destruct (bytes_eqb k name); [reflexivity | exact IH].
Qed.

Lemma write_index_dict_read_back_witness :
  exists out ret f,
    write_index_dict [] (rev sample_index) = Ok out
    /\ read_index_dict (mkRfile out 0) = Ok (ret, f)
    /\ Sorted str_le (dict_keys ret)
    /\ forall name,
         dict_get ret name = option_map stored (dict_get (rev sample_index) name).
Proof.
  apply (write_index_dict_read_back (rev sample_index)).
  - reflexivity.
  - apply List.NoDup_cons.
    + intros [E | []]. vm_compute in E. discriminate E.
    + apply List.NoDup_cons; [intros [] | apply List.NoDup_nil].
  - reflexivity.
Defined.

End IndexMore.

(** ** More on the client *)

Module ClientMore.
Import Client.

Lemma lstrip_by_app f s t :
  lstrip_by f (s ++ t) = if forallb f s then lstrip_by f t else lstrip_by f s ++ t.
Proof.
  induction s as [|c s IH]; cbn [app lstrip_by forallb]; [reflexivity|].
  destruct (f c); cbn [andb]; [exact IH | reflexivity].
Qed.

Lemma rstrip_by_app_keep f s t c :
  f c = false -> rstrip_by f ((s ++ [c]) ++ t) = (s ++ [c]) ++ rstrip_by f t.
Proof.
  intros Hc. unfold rstrip_by. rewrite rev_app_distr, lstrip_by_app.
  destruct (forallb f (rev t)) eqn:E.
  - rewrite rev_app_distr. cbn [rev app lstrip_by]. rewrite Hc.
    assert (Ht : lstrip_by f (rev t) = []).
    { clear -E. induction (rev t) as [|x l IH]; cbn [lstrip_by forallb] in *;
        [reflexivity|]. apply andb_prop in E as [-> E]. now apply IH. }
    rewrite Ht. cbn [rev]. rewrite rev_involutive. now rewrite app_nil_r.
  - rewrite rev_app_distr, rev_involutive. reflexivity.
Qed.

Section EngineMore.
Context `{Collaborators}.

(** *** Reading the advertisement *)

Lemma read_refs_loop_flush pkts : forall refs caps refs' caps' rest,
  _read_refs_loop pkts refs caps = Ok (refs', caps', rest) ->
  exists lines,
    pkts = List.map Some lines ++ None :: rest
    /\ (length refs' <= length refs + length lines)%nat
    /\ (caps' = None <-> caps = None /\ lines = []).
Proof.
  induction pkts as [|[pkt|] pkts IH]; intros refs caps refs' caps' rest;
    cbn [_read_refs_loop]; [discriminate| |].
  - destruct (split1 32 (rstrip_nl pkt)) as [sha [ref|]]; [|discriminate].
    destruct (bytes_eqb sha (lit "ERR")); [discriminate|].
    assert (Hlen : forall k v, (length (dict_set refs k v) <= S (length refs))%nat).
    { intros k v. clear. induction refs as [|[k' v'] d IHd]; cbn [dict_set length]; [lia|].
      destruct (bytes_eqb k' k); cbn [length]; lia. }
    destruct caps as [caps|].
    + intros Hrun. apply IH in Hrun as (lines & -> & Hl & Hc).
      exists (pkt :: lines). split; [reflexivity|]. split.
      * specialize (Hlen ref (mkSha1Sum sha)). cbn [length]. lia.
      * split; [intros Hn; apply Hc in Hn as [[=] _] | intros [[=] _]].
    + destruct (extract_capabilities ref) as [ref' caps0].
      intros Hrun. apply IH in Hrun as (lines & -> & Hl & Hc).
      exists (pkt :: lines). split; [reflexivity|]. split.
      * specialize (Hlen ref' (mkSha1Sum sha)). cbn [length]. lia.
      * split; [intros Hn; apply Hc in Hn as [[=] _] | intros [_ [=]]].
  - intros [= <- <- <-]. exists []. split; [reflexivity|]. split; [cbn; lia|].
    split; [intros ->; now split | now intros [-> _]].
Qed.

(** [_read_refs] consumes the packets up to and including the first flush
    and nothing more, writes nothing, and returns a mapping with one key
    per distinct ref name; the capabilities are [None] exactly when the
    server sent no line before the flush. *)
Theorem read_refs_through_first_flush (proto proto' : Protocol Obj)
    (refs : dict Sha1Sum) (caps : option (list bytes)) :
  _read_refs proto = Ok (refs, caps, proto') ->
  exists lines,
    incoming proto = List.map Some lines ++ None :: incoming proto'
    /\ residue proto' = residue proto /\ outgoing proto' = outgoing proto
    /\ List.NoDup (dict_keys refs)
    /\ (length refs <= length lines)%nat
    /\ (caps = None <-> lines = []).
Proof.
  intros Hrun.
  destruct (ClientFacts.read_refs_nodup _ _ _ _ Hrun) as (Hnd & Hres & Hout).
  unfold _read_refs in Hrun.
  destruct (_read_refs_loop (incoming proto) [] None) as [[[r c] rest]| |] eqn:E;
    cbn [bind] in Hrun; try discriminate.
  injection Hrun as <- <- <-.
  apply read_refs_loop_flush in E as (lines & Hin & Hlen & Hc).
  exists lines. cbn [incoming].
  split; [assumption|]. split; [reflexivity|]. split; [reflexivity|].
  split; [assumption|]. split; [cbn [length] in Hlen; lia|].
  split; [intros Hn; now apply Hc in Hn | intros Hl; apply Hc; now split].
Qed.

(** An advertisement that opens with an ["ERR"] line makes both a fetch
    and a push raise the protocol error with the server's message, its
    trailing newlines removed, before either callback is consulted. *)
Theorem advertised_error_raises (fuel : nat) (self : GitClient)
    (msg : bytes) (rest : list (option bytes)) (res : bytes) (out : list (wire Obj))
    (can_read : Protocol Obj -> bool)
    (determine_wants : dict Sha1Sum -> option (list Sha1Sum))
    (determine_refs : dict Sha1Sum -> option (dict Sha1Sum))
    (generate_pack_contents : list Sha1Sum -> list Sha1Sum -> list Obj)
    (progress : bool) (w : world) :
  let proto := mkProtocol (Some (lit "ERR " ++ msg) :: rest) res out in
  TraditionalGitClient_fetch_pack fuel self proto can_read determine_wants progress w
  = Raise (GitProtocolError (Bytes (rstrip_nl msg)))
  /\ TraditionalGitClient_send_pack self proto determine_refs generate_pack_contents
                                    progress w
     = Raise (GitProtocolError (Bytes (rstrip_nl msg))).
Proof.
  intros proto.
  assert (Hrefs : _read_refs proto = Raise (GitProtocolError (Bytes (rstrip_nl msg)))).
  { unfold _read_refs, proto. cbn [incoming _read_refs_loop].
    unfold rstrip_nl.
    change (lit "ERR " ++ msg) with ((lit "ERR" ++ [32]) ++ msg).
    rewrite rstrip_by_app_keep by reflexivity.
    rewrite <- app_assoc. cbn [app].
    rewrite (split1_at 32 (lit "ERR")) by reflexivity.
    rewrite bytes_eqb_refl. reflexivity. }
  unfold TraditionalGitClient_fetch_pack, TraditionalGitClient_send_pack.
  rewrite Hrefs. split; reflexivity.
Qed.

(** *** The head of a push *)

Lemma sha_mem_false x l : sha_mem x l = false -> ~ In x l.
Proof.
  intros Hm Hin.
  assert (sha_mem x l = true); [|congruence].
  apply existsb_exists. exists x. split; [assumption | now apply ClientFacts.sha_eqb_eq].
Qed.

Lemma sha_eqb_false x y : sha_eqb x y = false -> x <> y.
Proof.
  intros Hf ->. assert (sha_eqb y y = true) by now apply ClientFacts.sha_eqb_eq.
  congruence.
Qed.

Lemma default_in_values (d : dict Sha1Sum) k :
  default ZERO_SHA (dict_get d k) <> ZERO_SHA ->
  In (default ZERO_SHA (dict_get d k)) (dict_values d).
Proof.
  destruct (dict_get d k) as [v|] eqn:E; cbn [default from_option id];
    [intros _ | congruence].
  apply ClientFacts.dict_get_some_in in E. change v with (snd (k, v)). now apply in_map.
Qed.

Lemma receive_pack_fold capabilities (old_refs new_refs : dict Sha1Sum) have l :
  forall proto sent want proto' sent' want',
  fold_left (receive_pack_ref capabilities old_refs new_refs have) l (proto, sent, want)
  = (proto', sent', want') ->
  incoming proto' = incoming proto /\ residue proto' = residue proto
  /\ (exists lines,
        outgoing proto' = outgoing proto ++ List.map (fun x => Pkt (Some x)) lines
        /\ length lines
           = length (List.filter
                       (fun r => negb (sha_eqb (default ZERO_SHA (dict_get old_refs r))
                                               (default ZERO_SHA (dict_get new_refs r)))) l))
  /\ (forall x, In x want' ->
        In x want \/ (x <> ZERO_SHA /\ ~ In x have /\ In x (dict_values new_refs))).
Proof.
  induction l as [|r l IH]; intros proto sent want proto' sent' want'; cbn [fold_left].
  - intros [= <- <- <-]. split; [reflexivity|]. split; [reflexivity|]. split.
    + exists []. cbn [List.map List.filter length]. now rewrite app_nil_r.
    + intros x Hx. now left.
  - cbn [List.filter]. unfold receive_pack_ref at 2.
    set (old_sha1 := default ZERO_SHA (dict_get old_refs r)).
    set (new_sha1 := default ZERO_SHA (dict_get new_refs r)).
    assert (Hwant : forall x,
               In x (if negb (sha_mem new_sha1 have) && negb (sha_eqb new_sha1 ZERO_SHA)
                     then want ++ [new_sha1] else want) ->
               In x want \/ (x <> ZERO_SHA /\ ~ In x have /\ In x (dict_values new_refs))).
    { intros x. destruct (sha_mem new_sha1 have) eqn:Em; cbn [negb andb]; [now left|].
      destruct (sha_eqb new_sha1 ZERO_SHA) eqn:Ez; cbn [negb]; [now left|].
      rewrite in_app_iff. intros [Hx | [<- | []]]; [now left|]. right.
      apply sha_eqb_false in Ez. apply sha_mem_false in Em.
      split; [assumption|]. split; [assumption|]. now apply default_in_values. }
    destruct (sha_eqb old_sha1 new_sha1) eqn:Ech; cbn [negb].
    + destruct (negb (sha_mem new_sha1 have) && negb (sha_eqb new_sha1 ZERO_SHA));
        intros Hrun; apply IH in Hrun as (Hi & Hr & Hl & Hw);
        (split; [assumption|]; split; [assumption|]; split; [assumption|]);
        intros x Hx; destruct (Hw x Hx) as [Hx'|Hx']; auto.
    + destruct sent;
        destruct (negb (sha_mem new_sha1 have) && negb (sha_eqb new_sha1 ZERO_SHA));
        intros Hrun; apply IH in Hrun as (Hi & Hr & (lines & Ho & Hl) & Hw);
        cbn [write_pkt_line incoming residue outgoing] in *;
        (split; [assumption|]; split; [assumption|]; split;
         [eexists (_ :: lines); split;
          [rewrite Ho, <- app_assoc; reflexivity | cbn [length]; now rewrite Hl]|]);
        intros x Hx; destruct (Hw x Hx) as [Hx'|Hx']; auto.
Qed.

Lemma receive_pack_fold_lines capabilities (old_refs new_refs : dict Sha1Sum) have l :
  forall proto sent want,
  outgoing (fst (fst (fold_left (receive_pack_ref capabilities old_refs new_refs have) l
                                (proto, sent, want))))
  = outgoing proto
    ++ List.map (fun x => Pkt (Some x))
         (let names :=
            List.filter
              (fun r => negb (sha_eqb (default ZERO_SHA (dict_get old_refs r))
                                      (default ZERO_SHA (dict_get new_refs r)))) l in
          if sent then List.map (ref_command old_refs new_refs) names
          else command_lines capabilities old_refs new_refs names).
Proof.
  induction l as [|r l IH]; intros proto sent want; cbn [fold_left List.filter].
  - cbn [fst]. destruct sent; cbn [List.map command_lines]; now rewrite app_nil_r.
  - destruct (receive_pack_ref capabilities old_refs new_refs have (proto, sent, want) r)
      as [[p1 s1] w1] eqn:E1.
    rewrite IH. unfold receive_pack_ref in E1.
    destruct (sha_eqb (default ZERO_SHA (dict_get old_refs r))
                      (default ZERO_SHA (dict_get new_refs r))) eqn:Ech;
      cbn [negb] in E1 |- *.
    + destruct (negb (sha_mem _ have) && negb (sha_eqb _ ZERO_SHA));
        injection E1 as <- <- <-; reflexivity.
    + destruct sent;
        destruct (negb (sha_mem _ have) && negb (sha_eqb _ ZERO_SHA));
        injection E1 as <- <- <-;
        cbn [write_pkt_line outgoing List.map command_lines];
        rewrite <- app_assoc; cbn [app]; unfold ref_command, update_command;
        repeat (rewrite <- app_assoc; cbn [app]); reflexivity.
Qed.

(** What [_handle_receive_pack_head] hands back and writes, Python's
    [set] being what it is.  Nothing is read.  The ref names whose old and
    new identifier differ (a name that a mapping lacks counting as the
    all-zero identifier) get one command line each, the first of them with
    the capabilities, the others without, and one flush ends the list.
    [have] and [want] never hold the all-zero identifier, and every wanted
    identifier is a value of the new mapping that the server does not
    have. *)
Theorem receive_pack_head_facts (proto proto' : Protocol Obj) (capabilities : list bytes)
    (old_refs new_refs : dict Sha1Sum) (have want : list Sha1Sum) :
  set_law ->
  _handle_receive_pack_head proto capabilities old_refs new_refs = (proto', (have, want)) ->
  incoming proto' = incoming proto /\ residue proto' = residue proto
  /\ (exists names,
        List.NoDup names
        /\ (forall r, In r names <->
              In r (dict_keys new_refs ++ dict_keys old_refs)
              /\ default ZERO_SHA (dict_get old_refs r)
                 <> default ZERO_SHA (dict_get new_refs r))
        /\ outgoing proto'
           = outgoing proto
             ++ List.map (fun x => Pkt (Some x))
                         (command_lines capabilities old_refs new_refs names)
             ++ [Pkt None])
  /\ ~ In ZERO_SHA have
  /\ (forall x, In x have -> In x (dict_values old_refs))
  /\ (forall x, In x want ->
        x <> ZERO_SHA /\ ~ In x have /\ In x (dict_values new_refs)).
Proof.
  intros Hset. unfold _handle_receive_pack_head.
  set (hv := List.filter (fun x => negb (sha_eqb x ZERO_SHA)) (dict_values old_refs)).
  pose proof (receive_pack_fold_lines capabilities old_refs new_refs hv
                (set_iter (dict_keys new_refs ++ dict_keys old_refs)) proto false [])
    as Hlines.
  destruct (fold_left _ _ _) as [[p sent] wt] eqn:E.
  intros [= <- <- <-].
  apply receive_pack_fold in E as (Hi & Hr & _ & Hw).
  cbn [fst] in Hlines. cbn [write_pkt_line incoming residue outgoing].
  split; [assumption|]. split; [assumption|]. split.
  { eexists. split; [|split; [|rewrite Hlines, <- app_assoc; reflexivity]].
    - apply List.NoDup_filter. apply Hset.
    - intros r. rewrite filter_In, (proj2 (Hset _)). split.
      + intros [Hin Hch]. split; [assumption|].
        apply sha_eqb_false. now destruct (sha_eqb _ _).
      + intros [Hin Hne]. split; [assumption|].
        destruct (sha_eqb _ _) eqn:Es; [|reflexivity].
        apply ClientFacts.sha_eqb_eq in Es. contradiction. }
  split.
  { unfold hv. intros Hin. apply filter_In in Hin as [_ Hz].
    assert (Hzz : sha_eqb ZERO_SHA ZERO_SHA = true) by now apply ClientFacts.sha_eqb_eq.
    rewrite Hzz in Hz. discriminate. }
  split.
  { unfold hv. intros x Hin. now apply filter_In in Hin as [Hin _]. }
  intros x Hx. destruct (Hw x Hx) as [[]|Hx']. exact Hx'.
Qed.

Lemma receive_pack_fold_command capabilities (old_refs new_refs : dict Sha1Sum) have
    refname l :
  In refname l ->
  default ZERO_SHA (dict_get old_refs refname)
  <> default ZERO_SHA (dict_get new_refs refname) ->
  forall acc,
  exists line,
    In (Pkt (Some line))
       (outgoing (fst (fst (fold_left (receive_pack_ref capabilities old_refs new_refs have)
                                      l acc))))
    /\ (line = ref_command old_refs new_refs refname
        \/ line = ref_command old_refs new_refs refname ++ [0] ++ join [32] capabilities).
Proof.
  intros Hin Hne. induction l as [|r l IH]; [contradiction|].
  intros [[proto sent] want]. cbn [fold_left]. destruct Hin as [-> | Hin]; [|now apply IH].
  destruct (receive_pack_ref capabilities old_refs new_refs have (proto, sent, want) refname)
    as [[p1 s1] w1] eqn:E1.
  destruct (fold_left (receive_pack_ref capabilities old_refs new_refs have) l (p1, s1, w1))
    as [[p2 s2] w2] eqn:E2.
  apply receive_pack_fold in E2 as (_ & _ & (lines & Ho & _) & _).
  cbn [fst]. rewrite Ho.
  unfold receive_pack_ref in E1.
  assert (Hch : sha_eqb (default ZERO_SHA (dict_get old_refs refname))
                        (default ZERO_SHA (dict_get new_refs refname)) = false).
  { destruct (sha_eqb _ _) eqn:Es; [|reflexivity].
    apply ClientFacts.sha_eqb_eq in Es. contradiction. }
  rewrite Hch in E1. cbn [negb] in E1.
  destruct sent;
    destruct (negb (sha_mem _ have) && negb (sha_eqb _ ZERO_SHA));
    injection E1 as <- <- <-; cbn [write_pkt_line outgoing];
    eexists; (split; [apply in_or_app; left; apply in_or_app; right; left; reflexivity|]);
    [left | left | right | right]; unfold ref_command, update_command;
    repeat (rewrite <- app_assoc; cbn [app]); reflexivity.
Qed.

(** Python's [set] being what it is, every ref name of the old or of the
    new mapping whose identifiers differ gets its command line, with or
    without the capabilities.  A name that a mapping lacks counts as the
    all-zero identifier there: a ref that the new mapping leaves out is
    sent to the server as a deletion. *)
Theorem receive_pack_head_commands (proto : Protocol Obj) (capabilities : list bytes)
    (old_refs new_refs : dict Sha1Sum) (refname : bytes) :
  set_law ->
  In refname (dict_keys new_refs ++ dict_keys old_refs) ->
  default ZERO_SHA (dict_get old_refs refname)
  <> default ZERO_SHA (dict_get new_refs refname) ->
  exists line,
    In (Pkt (Some line))
       (outgoing (fst (_handle_receive_pack_head proto capabilities old_refs new_refs)))
    /\ (line = ref_command old_refs new_refs refname
        \/ line = ref_command old_refs new_refs refname ++ [0] ++ join [32] capabilities).
Proof.
  intros Hset Hin Hne. unfold _handle_receive_pack_head.
  set (hv := List.filter (fun x => negb (sha_eqb x ZERO_SHA)) (dict_values old_refs)).
  apply (proj2 (Hset _)) in Hin.
  destruct (receive_pack_fold_command capabilities old_refs new_refs hv refname _ Hin Hne
              (proto, false, [])) as (line & Hl & Hline).
  destruct (fold_left _ _ _) as [[p sent] wt].
  exists line. split; [|exact Hline].
  cbn [fst write_pkt_line outgoing] in *. apply in_or_app. now left.
Qed.

(** *** The head of a fetch *)

Lemma upload_pack_haves_no_reads fuel : forall (proto : Protocol Obj) (w : world) hs g',
  walk fuel (graph_walker w) = Some (hs, g') ->
  (let '(have, w1) := next w in
   upload_pack_haves fuel (fun _ => false) have proto w1)
  = Ok ({| incoming := incoming proto; residue := residue proto;
           outgoing := outgoing proto ++ List.map (fun h => Pkt (have_line h)) hs |},
        {| graph_walker := g'; events := events w; requests := requests w |}).
Proof.
  induction fuel as [|fuel IH]; intros proto w hs g'; cbn [walk]; [discriminate|].
  unfold next. destruct (walker_next (graph_walker w)) as [[h|] g1] eqn:En.
  - destruct (walk fuel g1) as [[hs' g'']|] eqn:Ew; [|discriminate].
    intros [= <- <-]. cbn [upload_pack_haves].
    rewrite ClientFacts.upload_pack_have_no_data by reflexivity. cbn [bind].
    specialize (IH (write_pkt_line proto (have_line h))
                   {| graph_walker := g1; events := events w; requests := requests w |}
                   hs' g'' Ew).
    cbn [graph_walker events requests write_pkt_line incoming residue outgoing] in IH.
    unfold next at 1. unfold next in IH. cbn [graph_walker events requests] in *.
    rewrite IH. cbn [List.map]. now rewrite <- app_assoc.
  - intros [= <- <-]. cbn [upload_pack_haves List.map]. rewrite app_nil_r.
    now destruct proto.
Qed.

(** With a channel that is never ready to be read, which is how the HTTP
    client builds the body of its request, [_handle_upload_pack_head] reads
    nothing and writes, in this order: the first [want] line with the
    capabilities, one [want] line per further identifier, a flush, one
    [have] line per identifier the graph walker hands out, and ["done"].
    The walker is left exhausted and never acknowledged. *)
Theorem upload_pack_head_without_reads (fuel : nat) (proto : Protocol Obj)
    (capabilities : list bytes) (want0 : Sha1Sum) (wants haves : list Sha1Sum)
    (w : world) (g' : GraphWalker) :
  walk fuel (graph_walker w) = Some (haves, g') ->
  _handle_upload_pack_head fuel proto capabilities (want0 :: wants) (fun _ => false) w
  = Ok ({| incoming := incoming proto; residue := residue proto;
           outgoing :=
             outgoing proto
             ++ List.map Pkt ([first_want_line capabilities want0]
                              ++ List.map want_line wants ++ [None]
                              ++ List.map have_line haves
                              ++ [Some (lit "done" ++ [10])]) |},
        {| graph_walker := g'; events := events w; requests := requests w |}).
Proof.
  intros Hwalk. unfold _handle_upload_pack_head.
  fold (first_want_line capabilities want0).
  assert (Hfold : forall l (p : Protocol Obj),
             fold_left (fun proto want =>
                          write_pkt_line proto (Some (lit "want " ++ hex_bytes want ++ [10])))
                       l p
             = {| incoming := incoming p; residue := residue p;
                  outgoing := outgoing p ++ List.map Pkt (List.map want_line l) |}).
  { induction l as [|x l IHl]; intros p; cbn [fold_left List.map].
    - rewrite app_nil_r. now destruct p.
    - rewrite IHl. cbn [write_pkt_line incoming residue outgoing].
      now rewrite <- app_assoc. }
  rewrite Hfold.
  match goal with
  | |- context [upload_pack_haves fuel _ _ ?p _] =>
      pose proof (upload_pack_haves_no_reads fuel p w haves g' Hwalk) as Hhaves
  end.
  destruct (next w) as [have w1]. rewrite Hhaves. cbn [bind].
  cbn [write_pkt_line incoming residue outgoing].
  do 2 f_equal. unfold write_pkt_line. cbn [incoming residue outgoing]. f_equal.
  rewrite !List.map_app, !List.map_map. cbn [List.map].
  rewrite <- !app_assoc. reflexivity.
Qed.

(** *** Sideband data *)

Lemma read_side_band64k_demux (progress : bool) (pkts : list bytes) :
  forallb on_sideband pkts = true ->
  forall (rest : list (option bytes)) (w : world),
  _read_side_band64k_loop
    [(1, Some (fun pkt w => Ok (emit (PackData pkt) w)));
     (2, progress_callback progress emit)]
    (List.map Some pkts ++ rest) w
  = _read_side_band64k_loop
      [(1, Some (fun pkt w => Ok (emit (PackData pkt) w)));
       (2, progress_callback progress emit)]
      rest
      {| graph_walker := graph_walker w;
         events := events w ++ List.concat (List.map (sideband_event progress) pkts);
         requests := requests w |}.
Proof.
  induction pkts as [|pkt pkts IH]; cbn [forallb List.map app List.concat].
  - intros _ rest w. rewrite app_nil_r. now destruct w.
  - intros Hall rest w. apply andb_prop in Hall as [Hp Hall].
    destruct pkt as [|channel data]; [discriminate|].
    cbn [on_sideband] in Hp. cbn [_read_side_band64k_loop lookup_channel sideband_event].
    rewrite (Z.eqb_sym 1 channel), (Z.eqb_sym 2 channel).
    destruct (channel =? 1) eqn:E1.
    + cbn [bind]. rewrite (IH Hall). unfold emit. cbn [graph_walker events requests].
      now rewrite <- app_assoc.
    + cbn [orb] in Hp. rewrite Hp. unfold progress_callback.
      destruct progress; cbn [andb bind].
      * rewrite (IH Hall). unfold emit. cbn [graph_walker events requests].
        now rewrite <- app_assoc.
      * rewrite (IH Hall). cbn [app]. reflexivity.
Qed.

(** The tail of a fetch with [side-band-64k]: after the server's ["NAK"],
    the payload of every packet on channel 1 goes to the pack-data
    callback and that of every packet on channel 2 to the progress
    callback (when there is one), in the order of arrival, up to the
    flush; with nothing after the flush the call returns. *)
Theorem upload_pack_tail_sideband (capabilities : list bytes) (progress : bool)
    (pkts : list bytes) (out : list (wire Obj)) (w : world) :
  mem (lit "side-band-64k") capabilities = true ->
  forallb on_sideband pkts = true ->
  _handle_upload_pack_tail
    (mkProtocol (Some (lit "NAK" ++ [10]) :: List.map Some pkts ++ [None]) [] out)
    capabilities progress w
  = Ok (mkProtocol [] [] out,
        {| graph_walker := graph_walker w;
           events := events w ++ List.concat (List.map (sideband_event progress) pkts);
           requests := requests w |}).
Proof.
  intros Hsb Hall. unfold _handle_upload_pack_tail.
  cbn [incoming residue outgoing].
  change (upload_pack_acks (Some (lit "NAK" ++ [10]) :: List.map Some pkts ++ [None]) w)
    with (Ok (List.map Some pkts ++ [None], w)).
  cbn [bind]. rewrite Hsb. unfold _read_side_band64k_data. cbn [incoming residue outgoing].
  rewrite (read_side_band64k_demux progress pkts Hall).
  cbn [_read_side_band64k_loop bind]. reflexivity.
Qed.

(** A packet on any channel other than 1 and 2 (channel 3, on which git
    servers report fatal errors, is one) ends the fetch with an assertion
    error that names the channel. *)
Theorem sideband_invalid_channel (capabilities : list bytes) (progress : bool)
    (pkts : list bytes) (channel : Z) (data : bytes) (rest : list (option bytes))
    (res : bytes) (out : list (wire Obj)) (w : world) :
  mem (lit "side-band-64k") capabilities = true ->
  forallb on_sideband pkts = true ->
  channel <> 1 -> channel <> 2 ->
  _handle_upload_pack_tail
    (mkProtocol (Some (lit "NAK" ++ [10])
                 :: List.map Some pkts ++ Some (channel :: data) :: rest) res out)
    capabilities progress w
  = Raise (AssertionError (Fmt "Invalid sideband channel %d" [channel])).
Proof.
  intros Hsb Hall H1 H2. unfold _handle_upload_pack_tail.
  cbn [incoming residue outgoing].
  change (upload_pack_acks (Some (lit "NAK" ++ [10])
                            :: List.map Some pkts ++ Some (channel :: data) :: rest) w)
    with (Ok (List.map Some pkts ++ Some (channel :: data) :: rest, w)).
  cbn [bind]. rewrite Hsb. unfold _read_side_band64k_data. cbn [incoming residue outgoing].
  rewrite (read_side_band64k_demux progress pkts Hall).
  cbn [_read_side_band64k_loop lookup_channel].
  apply Z.eqb_neq in H1, H2. rewrite (Z.eqb_sym 1 channel), (Z.eqb_sym 2 channel), H1, H2.
  reflexivity.
Qed.

(** *** Reference discovery over HTTP *)

Lemma get_url_slash (self : HttpGitClient) (path : str) :
  assert_slash (_get_url self path) = Ok tt.
Proof.
  unfold _get_url, assert_slash.
  destruct (rstrip_by (Z.eqb 47) (urljoin (base_url self) path) ++ [47]) eqn:E.
  - now destruct (rstrip_by (Z.eqb 47) (urljoin (base_url self) path)).
  - rewrite <- E, last_last. reflexivity.
Qed.

(** The URL that [_get_url] builds always ends in a slash, so that the
    assertion that opens reference discovery cannot fail in a fetch or a
    push.  When [_perform] raises on the discovery request, as the shipped
    [urlopen] does for 404 and every other error status, the fetch and the
    push raise that very exception: the status is never looked at.  Only
    behind a [_perform] that hands back a response whose status is not 200
    do they raise the not-a-repository error (for 404) or the protocol
    error with the status.  The callbacks are not consulted. *)
Theorem http_discovery_refused (fuel : nat) (self : HttpGitClient) (path : str)
    (determine_wants : dict Sha1Sum -> option (list Sha1Sum))
    (determine_refs : dict Sha1Sum -> option (dict Sha1Sum))
    (generate_pack_contents : list Sha1Sum -> list Sha1Sum -> list Obj)
    (progress : bool) (w : world) :
  assert_slash (_get_url self path) = Ok tt
  /\ (forall e,
        (forall req, req_data req = None -> _perform req = Raise e) ->
        HttpGitClient_fetch_pack fuel self path determine_wants progress w = Raise e
        /\ HttpGitClient_send_pack self path determine_refs generate_pack_contents
                                   progress w = Raise e)
  /\ (forall resp,
        getcode resp <> 200 ->
        (forall req, req_data req = None -> _perform req = Ok resp) ->
        let e := if getcode resp =? 404 then NotGitRepository
                 else GitProtocolError (Fmt "unexpected http response %d" [getcode resp]) in
        HttpGitClient_fetch_pack fuel self path determine_wants progress w = Raise e
        /\ HttpGitClient_send_pack self path determine_refs generate_pack_contents
                                   progress w = Raise e).
Proof.
  split; [apply get_url_slash|]. split.
  - intros e Hserver.
    assert (Hdisc : forall service,
               _discover_references self service (_get_url self path) w = Raise e).
    { intros service. unfold _discover_references. rewrite get_url_slash. cbn [bind].
      unfold perform.
      destruct (dumb self) as [[|]|]; rewrite Hserver by reflexivity; reflexivity. }
    unfold HttpGitClient_fetch_pack, HttpGitClient_send_pack.
    rewrite !Hdisc. split; reflexivity.
  - intros resp Hcode Hserver e.
    assert (Hdisc : forall service,
               _discover_references self service (_get_url self path) w = Raise e).
    { intros service. unfold _discover_references. rewrite get_url_slash. cbn [bind].
      unfold perform.
      destruct (dumb self) as [[|]|];
        (rewrite Hserver by reflexivity; cbn [bind]; unfold e;
         destruct (getcode resp =? 404); [reflexivity|];
         apply Z.eqb_neq in Hcode; rewrite Hcode; reflexivity). }
    unfold HttpGitClient_fetch_pack, HttpGitClient_send_pack.
    rewrite !Hdisc. split; reflexivity.
Qed.

End EngineMore.

Lemma read_refs_through_first_flush_witness :
  exists lines,
    incoming (@mkProtocol (@Obj upload_pack_server)
                (sample_advert (lit "ofs-delta") ++ [Some (lit "later")]) [] [])
    = List.map Some lines
      ++ None :: incoming (@mkProtocol (@Obj upload_pack_server) [Some (lit "later")] [] [])
    /\ residue (@mkProtocol (@Obj upload_pack_server) [Some (lit "later")] [] [])
       = residue (@mkProtocol (@Obj upload_pack_server)
                    (sample_advert (lit "ofs-delta") ++ [Some (lit "later")]) [] [])
    /\ outgoing (@mkProtocol (@Obj upload_pack_server) [Some (lit "later")] [] [])
       = outgoing (@mkProtocol (@Obj upload_pack_server)
                     (sample_advert (lit "ofs-delta") ++ [Some (lit "later")]) [] [])
    /\ List.NoDup (dict_keys [(lit "refs/heads/master", sha_of 97)])
    /\ (length [(lit "refs/heads/master", sha_of 97)] <= length lines)%nat
    /\ (Some [lit "ofs-delta"] = None <-> lines = []).
Proof.
  apply (@read_refs_through_first_flush upload_pack_server
           (mkProtocol (sample_advert (lit "ofs-delta") ++ [Some (lit "later")]) [] [])
           (mkProtocol [Some (lit "later")] [] [])
           [(lit "refs/heads/master", sha_of 97)] (Some [lit "ofs-delta"])).
  reflexivity.
Defined.

Lemma dedup_law (l : list bytes) :
  List.NoDup (dedup l) /\ forall x, In x (dedup l) <-> In x l.
Proof.
  induction l as [|a l [IHnd IHin]]; cbn [dedup].
  - split; [constructor | tauto].
  - split.
    + constructor; [|now apply List.NoDup_filter].
      intros Hin. apply filter_In in Hin as [_ Hne].
      now rewrite bytes_eqb_refl in Hne.
    + intros x. cbn [In]. rewrite filter_In, IHin. split.
      * intros [-> | [Hin _]]; auto.
      * intros [-> | Hin]; [now left|].
        destruct (bytes_eqb a x) eqn:E; [left; now apply bytes_eqb_eq|].
        right. now split.
Qed.

Lemma receive_pack_head_facts_witness :
  let old_refs := [(lit "refs/heads/master", sha_of 97); (lit "refs/heads/old", sha_of 98)] in
  let new_refs := [(lit "refs/heads/master", sha_of 99)] in
  let proto' :=
    @mkProtocol (@Obj receive_pack_server) [] []
      [Pkt (Some (update_command (sha_of 97) (sha_of 99) (lit "refs/heads/master")
                  ++ [0] ++ lit "report-status ofs-delta side-band-64k"));
       Pkt (Some (update_command (sha_of 98) ZERO_SHA (lit "refs/heads/old")));
       Pkt None] in
  incoming proto' = incoming (@mkProtocol (@Obj receive_pack_server) [] [] [])
  /\ residue proto' = residue (@mkProtocol (@Obj receive_pack_server) [] [] [])
  /\ (exists names,
        List.NoDup names
        /\ (forall r, In r names <->
              In r (dict_keys new_refs ++ dict_keys old_refs)
              /\ default ZERO_SHA (dict_get old_refs r)
                 <> default ZERO_SHA (dict_get new_refs r))
        /\ outgoing proto'
           = outgoing (@mkProtocol (@Obj receive_pack_server) [] [] [])
             ++ List.map (fun x => Pkt (Some x))
                         (command_lines SEND_CAPABILITIES old_refs new_refs names)
             ++ [Pkt None])
  /\ ~ In ZERO_SHA [sha_of 97; sha_of 98]
  /\ (forall x, In x [sha_of 97; sha_of 98] -> In x (dict_values old_refs))
  /\ (forall x, In x [sha_of 99] ->
        x <> ZERO_SHA /\ ~ In x [sha_of 97; sha_of 98] /\ In x (dict_values new_refs)).
Proof.
  intros old_refs new_refs proto'.
  apply (@receive_pack_head_facts receive_pack_server (mkProtocol [] [] []) proto'
           SEND_CAPABILITIES old_refs new_refs [sha_of 97; sha_of 98] [sha_of 99]).
  - intros l. apply dedup_law.
  - vm_compute. reflexivity.
Defined.

Lemma receive_pack_head_commands_witness :
  let old_refs := [(lit "refs/heads/master", sha_of 97); (lit "refs/heads/old", sha_of 98)] in
  let new_refs := [(lit "refs/heads/master", sha_of 97)] in
  exists line,
    In (Pkt (Some line))
       (outgoing (fst (@_handle_receive_pack_head receive_pack_server (mkProtocol [] [] [])
                         SEND_CAPABILITIES old_refs new_refs)))
    /\ (line = ref_command old_refs new_refs (lit "refs/heads/old")
        \/ line = ref_command old_refs new_refs (lit "refs/heads/old")
                  ++ [0] ++ join [32] SEND_CAPABILITIES).
Proof.
  intros old_refs new_refs.
  apply (@receive_pack_head_commands receive_pack_server (mkProtocol [] [] [])
           SEND_CAPABILITIES old_refs new_refs (lit "refs/heads/old")).
  - intros l. apply dedup_law.
  - vm_compute. right. right. left. reflexivity.
  - vm_compute. discriminate.
Defined.

Lemma upload_pack_head_without_reads_witness :
  @_handle_upload_pack_head upload_pack_server 3 (mkProtocol [] [] [])
    [lit "multi_ack"; lit "ofs-delta"] (sha_of 97 :: [sha_of 98]) (fun _ => false)
    (@mkWorld upload_pack_server [sha_of 99; sha_of 100] [] [])
  = Ok ({| incoming := incoming (@mkProtocol (@Obj upload_pack_server) [] [] []);
           residue := residue (@mkProtocol (@Obj upload_pack_server) [] [] []);
           outgoing :=
             outgoing (@mkProtocol (@Obj upload_pack_server) [] [] [])
             ++ List.map Pkt ([first_want_line [lit "multi_ack"; lit "ofs-delta"] (sha_of 97)]
                              ++ List.map want_line [sha_of 98] ++ [None]
                              ++ List.map have_line [sha_of 99; sha_of 100]
                              ++ [Some (lit "done" ++ [10])]) |},
        {| graph_walker := ([] : @GraphWalker upload_pack_server);
           events := events (@mkWorld upload_pack_server [sha_of 99; sha_of 100] [] []);
           requests := requests (@mkWorld upload_pack_server [sha_of 99; sha_of 100] [] []) |}).
Proof.
  apply (@upload_pack_head_without_reads upload_pack_server 3 (mkProtocol [] [] [])
           [lit "multi_ack"; lit "ofs-delta"] (sha_of 97) [sha_of 98]
           [sha_of 99; sha_of 100]
           (@mkWorld upload_pack_server [sha_of 99; sha_of 100] [] []) []).
  reflexivity.
Defined.

Lemma upload_pack_tail_sideband_witness :
  @_handle_upload_pack_tail upload_pack_server
    (mkProtocol (Some (lit "NAK" ++ [10])
                 :: List.map Some [2 :: lit "Counting objects"; 1 :: lit "PACK";
                                   1 :: lit "data"] ++ [None]) [] [])
    FETCH_CAPABILITIES true (@mkWorld upload_pack_server [] [] [])
  = Ok (mkProtocol [] [] [],
        {| graph_walker := graph_walker (@mkWorld upload_pack_server [] [] []);
           events := events (@mkWorld upload_pack_server [] [] [])
                     ++ List.concat
                          (List.map (sideband_event true)
                                    [2 :: lit "Counting objects"; 1 :: lit "PACK";
                                     1 :: lit "data"]);
           requests := requests (@mkWorld upload_pack_server [] [] []) |}).
Proof.
  apply (@upload_pack_tail_sideband upload_pack_server FETCH_CAPABILITIES true
           [2 :: lit "Counting objects"; 1 :: lit "PACK"; 1 :: lit "data"] []
           (@mkWorld upload_pack_server [] [] [])); reflexivity.
Defined.

Lemma sideband_invalid_channel_witness :
  @_handle_upload_pack_tail upload_pack_server
    (mkProtocol (Some (lit "NAK" ++ [10])
                 :: List.map Some [1 :: lit "PACK"]
                 ++ Some (3 :: lit "fatal: out of memory") :: [None]) [] [])
    FETCH_CAPABILITIES true (@mkWorld upload_pack_server [] [] [])
  = Raise (AssertionError (Fmt "Invalid sideband channel %d" [3])).
Proof.
  apply (@sideband_invalid_channel upload_pack_server FETCH_CAPABILITIES true
           [1 :: lit "PACK"] 3 (lit "fatal: out of memory") [None] [] []
           (@mkWorld upload_pack_server [] [] [])); [reflexivity | reflexivity | lia | lia].
Defined.

Lemma http_discovery_refused_witness :
  let self := HttpGitClient_init (lit "http://host/repo") None true in
  (@HttpGitClient_fetch_pack (urlopen_server 404) 3 self (lit "")
     (fun _ => Some [sha_of 97]) false (@mkWorld (urlopen_server 404) [] [] [])
   = Raise (HTTPError 404)
   /\ @HttpGitClient_send_pack (urlopen_server 404) self (lit "")
        (fun old_refs => Some old_refs) (fun _ _ => []) false
        (@mkWorld (urlopen_server 404) [] [] [])
      = Raise (HTTPError 404))
  /\ (@HttpGitClient_fetch_pack (refusing_server 404) 3 self (lit "")
        (fun _ => Some [sha_of 97]) false (@mkWorld (refusing_server 404) [] [] [])
      = Raise NotGitRepository
      /\ @HttpGitClient_send_pack (refusing_server 404) self (lit "")
           (fun old_refs => Some old_refs) (fun _ _ => []) false
           (@mkWorld (refusing_server 404) [] [] [])
         = Raise NotGitRepository).
Proof.
  intros self. split.
  - apply (@http_discovery_refused (urlopen_server 404) 3 self (lit "")
             (fun _ => Some [sha_of 97]) (fun old_refs => Some old_refs) (fun _ _ => [])
             false (@mkWorld (urlopen_server 404) [] [] [])).
    intros req _. reflexivity.
  - apply (proj2 (proj2 (@http_discovery_refused (refusing_server 404) 3 self (lit "")
                           (fun _ => Some [sha_of 97]) (fun old_refs => Some old_refs)
                           (fun _ _ => []) false
                           (@mkWorld (refusing_server 404) [] [] [])))
             (mkResponse 404 [] [] [])).
    + cbn [getcode]. lia.
    + intros req _. reflexivity.
Defined.

End ClientMore.
